(** * Mixture of Experts (smt/extensions/moe.py): model and properties

    A shallow embedding of the MoE extension of SMT.  Floating point numbers
    are read as real numbers (exact arithmetic); the special values numpy
    produces on a division by zero are kept where the code can produce them
    (type [npfloat]).  The clustering provider (sklearn), the density of a
    frozen normal distribution (scipy) and the surrogate models are external:
    they are section variables.  Calls to the external density and to the
    clustering provider are recorded in an event log. *)

From Stdlib Require Import String.
From Stdlib Require Import Reals Lra Lia ZArith Bool PeanoNat.
From Stdlib Require Import List Permutation.
Import ListNotations.

Local Open Scope R_scope.

(* ------------------------------------------------------------------ *)
(** * Python values: exceptions, results, list indexing *)
(* ------------------------------------------------------------------ *)

Module Py.

(** The exceptions the modelled code can raise. *)
Inductive exn : Type :=
| ValueError (msg : string)
| IndexError
| KeyError
| AttributeError (attr : string)
| UnboundLocalError (var : string)
| ProviderError (msg : string).

Inductive result (A : Type) : Type :=
| Ok (a : A)
| Raise (e : exn).
Arguments Ok {A} a.
Arguments Raise {A} e.

Definition rbind {A B} (r : result A) (k : A -> result B) : result B :=
  match r with
  | Ok a => k a
  | Raise e => Raise e
  end.

Definition is_ok {A} (r : result A) : bool :=
  match r with Ok _ => true | Raise _ => false end.

(** [l[i]] for a Python list of length [len]: negative indices count from
    the end, anything else out of range raises IndexError. *)
Definition py_index (len : nat) (i : Z) : option nat :=
  if ((0 <=? i) && (i <? Z.of_nat len))%Z then Some (Z.to_nat i)
  else if ((i <? 0) && (- Z.of_nat len <=? i))%Z
       then Some (Z.to_nat (i + Z.of_nat len))
       else None.

(** [l[j].append(a)] on a list of lists, [j] a valid position. *)
Fixpoint append_at {A} (l : list (list A)) (j : nat) (a : A) : list (list A) :=
  match l, j with
  | [], _ => []
  | g :: l', O => (g ++ [a]) :: l'
  | g :: l', S j' => g :: append_at l' j' a
  end.

(** [[[] for i in range(n)]] *)
Definition empty_lists {A} (n : nat) : list (list A) := repeat [] n.

End Py.
Import Py.

Declare Scope result_scope.
Notation "x <-- r ;;; k" := (rbind r (fun x => k))
  (at level 61, r at next level, right associativity) : result_scope.
Notation "' pat <-- r ;;; k" := (rbind r (fun x => match x with pat => k end))
  (at level 61, pat pattern, r at next level, right associativity) : result_scope.
Local Open Scope result_scope.

(* ------------------------------------------------------------------ *)
(** * The train/validation split: cut_list and concat_except *)
(* ------------------------------------------------------------------ *)

Module Split.
Section Rows.
Context {A : Type}.

(** The two nested while loops of [cut_list].  The outer loop restarts the
    block counter [j]; the inner loop appends row [i] to block [j] while
    [j < n].  The recursion is on the rows not yet placed.  With [n = 0]
    and a row left the inner loop never runs and the outer loop never
    ends: that is [None]. *)
Fixpoint cut_loop (n : nat) (rest : list A) (j : nat) (n_list : list (list A))
  : option (list (list A)) :=
  match rest with
  | [] => Some n_list
  | a :: rest' =>
      if (j <? n)%nat then cut_loop n rest' (S j) (append_at n_list j a)
      else if (0 <? n)%nat then cut_loop n rest' 1 (append_at n_list 0 a)
      else None
  end.

Definition cut_list (list_ : list A) (n : nat) : option (list (list A)) :=
  cut_loop n list_ 0 (empty_lists n).

(** [concat_except]: the loop over [range(len(list_))], starting at
    position [i]. *)
Fixpoint concat_except_from (i : nat) (list_ : list (list A)) (n : nat) : list A :=
  match list_ with
  | [] => []
  | g :: rest =>
      if (i =? n)%nat then concat_except_from (S i) rest n
      else g ++ concat_except_from (S i) rest n
  end.

Definition concat_except (list_ : list (list A)) (n : nat) : list A :=
  concat_except_from 0 list_ n.

(** [np.vstack] of a list of rows; numpy refuses an empty list. *)
Definition np_vstack (rows : list A) : result (list A) :=
  match rows with
  | [] => Raise (ValueError "need at least one array to concatenate")
  | _ => Ok rows
  end.

(** The split of [_apply] when no validation set is supplied
    ([valid is None]): the pair (training_values, test_values). *)
Definition split_values (values : list A) : result (list A * list A) :=
  match cut_list values 10 with
  | None => Raise (ValueError "unreachable")
  | Some cut_values =>
      training_values <-- np_vstack (concat_except cut_values 0) ;;;
      test_values <-- np_vstack (nth 0 cut_values []) ;;;
      Ok (training_values, test_values)
  end.

(** What the docstrings describe: the rows whose position is [j] modulo
    [n], in their original order. *)
Fixpoint block_from (n j : nat) (i : nat) (l : list A) : list A :=
  match l with
  | [] => []
  | a :: l' =>
      if (i mod n =? j)%nat then a :: block_from n j (S i) l'
      else block_from n j (S i) l'
  end.

Definition block (n j : nat) (l : list A) : list A := block_from n j 0 l.

End Rows.
End Split.

(* ------------------------------------------------------------------ *)
(** * The partitioner: sort_values_by_cluster *)
(* ------------------------------------------------------------------ *)

Module Partitioner.
Section Rows.
Context {A : Type}.

(** The second loop of [sort_values_by_cluster], for [i] from the current
    position: [sorted_values[sort_cluster[i]].append(values[i])].  The
    labels index a Python list, so a negative label counts from the end
    and a label out of range raises IndexError; so does a label vector
    longer than [values]. *)
Fixpoint sort_loop (values : list A) (sort_cluster : list Z)
  (sorted_values : list (list A)) {struct sort_cluster}
  : result (list (list A)) :=
  match sort_cluster with
  | [] => Ok sorted_values
  | c :: labels =>
      match values with
      | [] => Raise IndexError
      | v :: values' =>
          match py_index (length sorted_values) c with
          | None => Raise IndexError
          | Some k => sort_loop values' labels (append_at sorted_values k v)
          end
      end
  end.

Definition sort_values_by_cluster (values : list A) (number_cluster : nat)
  (sort_cluster : list Z) : result (list (list A)) :=
  sort_loop values sort_cluster (empty_lists number_cluster).

(** The rows of [values] labelled [k], in their original order. *)
Fixpoint rows_of (k : Z) (values : list A) (labels : list Z) : list A :=
  match values, labels with
  | v :: values', c :: labels' =>
      if (c =? k)%Z then v :: rows_of k values' labels'
      else rows_of k values' labels'
  | _, _ => []
  end.

End Rows.
End Partitioner.

(* ------------------------------------------------------------------ *)
(** * numpy: vectors, norms, and the values a division can produce *)
(* ------------------------------------------------------------------ *)

Module Np.

(** An array of float64 is a list of real numbers and the arithmetic on
    it is exact: rounding, underflow and overflow are not modelled. *)
Definition vec := list R.
Definition matrix := list (list R).

Fixpoint map2 {A B C} (f : A -> B -> C) (l1 : list A) (l2 : list B) : list C :=
  match l1, l2 with
  | a :: l1', b :: l2' => f a b :: map2 f l1' l2'
  | _, _ => []
  end.

Definition sum (v : vec) : R := fold_left Rplus v 0.

(** [a - b] on two arrays of the same shape. *)
Definition vsub (a b : vec) : vec := map2 Rminus a b.

(** [np.linalg.norm(v, 2)] of a vector. *)
Definition norm2 (v : vec) : R := sqrt (sum (map (fun t => t * t) v)).

(** [np.linalg.norm(v, np.inf)]: the largest absolute value. *)
Definition norm_inf (v : vec) : R := fold_left (fun m t => Rmax m (Rabs t)) v 0.

Definition mean (v : vec) : R := sum v / INR (length v).

(** [np.var]: the mean of the squared deviations from the mean. *)
Definition var (v : vec) : R :=
  mean (map (fun t => (t - mean v) * (t - mean v)) v).

(** A float64 as the code can see it: a (real) number, an infinity or
    NaN.  Rounding and overflow are not modelled. *)
Inductive npfloat : Type :=
| Fin (r : R)
| PInf
| NInf
| NaN.

Definition is_finite (f : npfloat) : bool :=
  match f with Fin _ => true | _ => false end.

(** [a / b] on float64: numpy warns and returns an infinity (or NaN for
    0/0) on a zero divisor, it does not raise. *)
Definition div (a b : R) : npfloat :=
  if Req_dec_T b 0 then
    if Req_dec_T a 0 then NaN
    else if Rlt_dec 0 a then PInf else NInf
  else Fin (a / b).

Definition abs (f : npfloat) : npfloat :=
  match f with
  | Fin r => Fin (Rabs r)
  | PInf | NInf => PInf
  | NaN => NaN
  end.

(** [c * f] for a float constant [c]. *)
Definition scale (c : R) (f : npfloat) : npfloat :=
  match f with
  | Fin r => Fin (c * r)
  | NaN => NaN
  | PInf => if Req_dec_T c 0 then NaN else if Rlt_dec 0 c then PInf else NInf
  | NInf => if Req_dec_T c 0 then NaN else if Rlt_dec 0 c then NInf else PInf
  end.

Definition add (f g : npfloat) : npfloat :=
  match f, g with
  | NaN, _ | _, NaN => NaN
  | PInf, NInf | NInf, PInf => NaN
  | PInf, _ | _, PInf => PInf
  | NInf, _ | _, NInf => NInf
  | Fin a, Fin b => Fin (a + b)
  end.

(** [f / n] for a positive count [n]. *)
Definition div_count (f : npfloat) (n : nat) : npfloat :=
  match f with
  | Fin r => Fin (r / INR n)
  | other => other
  end.

(** [np.mean] of a non-empty array of float64. *)
Definition fmean (l : list npfloat) : npfloat :=
  div_count (fold_left add l (Fin 0)) (length l).

(** [f > g] on float64: false as soon as one side is NaN. *)
Definition gt (f g : npfloat) : bool :=
  match f, g with
  | NaN, _ | _, NaN => false
  | PInf, PInf => false
  | PInf, _ => true
  | _, PInf => false
  | NInf, _ => false
  | Fin _, NInf => true
  | Fin a, Fin b => if Rlt_dec b a then true else false
  end.

(** The builtin [max] of Python over a non-empty sequence: the running
    maximum is replaced by an item only when [item > maximum]. *)
Definition py_max (first : npfloat) (rest : list npfloat) : npfloat :=
  fold_left (fun m item => if gt item m then item else m) rest first.

End Np.

(* ------------------------------------------------------------------ *)
(** * The validation report: class Error *)
(* ------------------------------------------------------------------ *)

Module ErrorReport.
Import Np.

Record Error : Type := {
  l_two : R;
  l_two_rel : npfloat;
  mse : R;
  rmse : R;
  err_rel : list npfloat;
  err_rel_mean : npfloat;
  err_rel_max : npfloat;
  err_abs_max : R;
  lof : option R;
  r_two : option R
}.

(** [Error.__init__(y_array_true, y_array_calc)] on two arrays of the same
    shape (the broadcasting of numpy between different shapes is not
    modelled: it is a ValueError here).  On empty arrays [max(self.err_rel)]
    raises ValueError; otherwise the length is positive and [l_two], [mse],
    [rmse] and [err_abs_max] are numbers. *)
Definition Error_init (y_array_true y_array_calc : vec) : result Error :=
  if negb (length y_array_true =? length y_array_calc)%nat
  then Raise (ValueError "operands could not be broadcast together")
  else
    let length_ := length y_array_true in
    let l_two_ := norm2 (vsub y_array_true y_array_calc) in
    let l_two_rel_ := div l_two_ (norm2 y_array_true) in
    let mse_ := (l_two_ ^ 2) / INR length_ in
    let rmse_ := mse_ ^ 5 in
    let err := map2 (fun t c => abs (div (t - c) t)) y_array_true y_array_calc in
    let err_rel_ := map (scale 100) err in
    let err_rel_mean_ := fmean err_rel_ in
    match err_rel_ with
    | [] => Raise (ValueError "max() arg is an empty sequence")
    | e0 :: es =>
        let err_rel_max_ := py_max e0 es in
        let err_abs_max_ := norm_inf (vsub y_array_true y_array_calc) in
        let v := var y_array_true in
        if Rlt_dec (/ 10 ^ 10) (Rabs v) then
          let lof_ := 100 * mse_ / v in
          Ok {| l_two := l_two_; l_two_rel := l_two_rel_; mse := mse_;
                rmse := rmse_; err_rel := err_rel_;
                err_rel_mean := err_rel_mean_; err_rel_max := err_rel_max_;
                err_abs_max := err_abs_max_;
                lof := Some lof_; r_two := Some (1 - lof_ / 100) |}
        else
          Ok {| l_two := l_two_; l_two_rel := l_two_rel_; mse := mse_;
                rmse := rmse_; err_rel := err_rel_;
                err_rel_mean := err_rel_mean_; err_rel_max := err_rel_max_;
                err_abs_max := err_abs_max_;
                lof := None; r_two := None |}
    end.

(** One entry of [err_rel]: [100 * abs((t - c) / t)]. *)
Definition rel_entry (t c : R) : npfloat := scale 100 (abs (div (t - c) t)).

End ErrorReport.

(* ------------------------------------------------------------------ *)
(** * Calls to the external libraries: the event log *)
(* ------------------------------------------------------------------ *)

Module Ext.
Import Np.

(** A frozen multivariate normal distribution of scipy: its mean and its
    covariance. *)
Record Gaussian : Type := { g_mean : vec; g_cov : matrix }.

Inductive event : Type :=
| PdfEval (rv : Gaussian) (x : vec)            (* rv.pdf(x) *)
| GmmFit (n_components : Z) (data : matrix)    (* mixture.GMM(...).fit(data) *)
| GmmPredict (data : matrix).                  (* cluster.predict(data) *)

(** A computation that may call the external libraries: it extends the
    log and returns a value or raises. *)
Definition M (A : Type) : Type := list event -> result A * list event.

Definition ret {A} (a : A) : M A := fun log => (Ok a, log).
Definition raise {A} (e : exn) : M A := fun log => (Raise e, log).
Definition bind {A B} (m : M A) (k : A -> M B) : M B :=
  fun log =>
    match m log with
    | (Ok a, log') => k a log'
    | (Raise e, log') => (Raise e, log')
    end.
Definition emit (ev : event) : M unit := fun log => (Ok tt, log ++ [ev]).
Definition lift {A} (r : result A) : M A := fun log => (r, log).

(** Run from an empty log. *)
Definition run {A} (m : M A) : result A * list event := m [].

(** The density evaluations of one sample: one per cluster, in order. *)
Definition pdf_events (gauss_list : list Gaussian) (x : vec) : list event :=
  map (fun g => PdfEval g x) gauss_list.

Definition is_pdf_eval (ev : event) : bool :=
  match ev with PdfEval _ _ => true | _ => false end.

Definition is_clustering_call (ev : event) : bool :=
  match ev with GmmFit _ _ | GmmPredict _ => true | PdfEval _ _ => false end.

End Ext.
Import Ext.

Declare Scope ext_scope.
Delimit Scope ext_scope with ext.
Notation "x <- m ;; k" := (bind m (fun x => k))
  (at level 61, m at next level, right associativity) : ext_scope.
Notation "' pat <- m ;; k" := (bind m (fun x => match x with pat => k end))
  (at level 61, pat pattern, m at next level, right associativity) : ext_scope.
Local Open Scope ext_scope.

(* ------------------------------------------------------------------ *)
(** * The Gaussian gate *)
(* ------------------------------------------------------------------ *)

Module Gate.
Import Np.

Section Density.

(** scipy: the density of a frozen distribution at a point. *)
Variable pdf : Gaussian -> vec -> R.
(** numpy: [np.linalg.inv]. *)
Variable np_linalg_inv : matrix -> matrix.

(** [rv.pdf(x)], recorded. *)
Definition eval_pdf (rv : Gaussian) (x : vec) : M R :=
  _ <- emit (PdfEval rv x) ;; ret (pdf rv x).

(** [create_multivar_normal_dis]: one frozen distribution per mean, on the
    first [dim] coordinates; [cov[k]] out of range raises IndexError. *)
Fixpoint create_from (dim : nat) (k : nat) (means : matrix) (cov : list matrix)
  : result (list Gaussian) :=
  match means with
  | [] => Ok []
  | m :: means' =>
      match nth_error cov k with
      | None => Raise IndexError
      | Some ck =>
          let meansk := firstn dim m in
          let covk := map (firstn dim) (firstn dim ck) in
          rest <-- create_from dim (S k) means' cov ;;;
          Ok ({| g_mean := meansk; g_cov := covk |} :: rest)
      end
  end.

Definition create_multivar_normal_dis (dim : nat) (means : matrix)
  (cov : list matrix) : result (list Gaussian) :=
  create_from dim 0 means cov.

(** The first loop of [_proba_cluster_one_sample], from cluster [k] on:
    the remaining weights, the sum [rad] and the list [prob] so far. *)
Fixpoint proba_loop (weight : vec) (gauss_list : list Gaussian) (k : nat)
  (x : vec) (rad : R) (prob : vec) : M (R * vec) :=
  match weight with
  | [] => ret (rad, prob)
  | w :: weight' =>
      match nth_error gauss_list k with
      | None => raise IndexError
      | Some g =>
          rv <- eval_pdf g x ;;
          let val := w * rv in
          proba_loop weight' gauss_list (S k) x (rad + val) (prob ++ [val])
      end
  end.

(** [max(prob)] on numbers: the running maximum changes on a strictly
    larger item. *)
Definition max_list (first : R) (rest : vec) : R :=
  fold_left (fun m item => if Rlt_dec m item then item else m) rest first.

(** [prob.index(m)]: the first position holding [m]. *)
Fixpoint index_of (m : R) (prob : vec) : option nat :=
  match prob with
  | [] => None
  | p :: prob' =>
      if Req_dec_T p m then Some O
      else option_map S (index_of m prob')
  end.

Definition _proba_cluster_one_sample (weight : vec) (gauss_list : list Gaussian)
  (x : vec) : M (vec * nat) :=
  '(rad, prob) <- proba_loop weight gauss_list 0 x 0 [] ;;
  let prob := if Req_dec_T rad 0 then prob else map (fun p => p / rad) prob in
  match prob with
  | [] => raise (ValueError "max() arg is an empty sequence")
  | p0 :: ps =>
      match index_of (max_list p0 ps) prob with
      | None => raise (ValueError "is not in list")
      | Some clus => ret (prob, clus)
      end
  end.

(** [proba_cluster]: the loop over the samples. *)
Fixpoint proba_cluster_loop (n : nat) (weight : vec) (gauss_list : list Gaussian)
  (x : matrix) : M (list vec * list nat) :=
  match x with
  | [] => ret ([], [])
  | xi :: x' =>
      if (n =? 1)%nat then
        '(prob, clus) <- proba_cluster_loop n weight gauss_list x' ;;
        ret ([1] :: prob, O :: clus)
      else
        '(proba, cluster) <- _proba_cluster_one_sample weight gauss_list xi ;;
        '(prob, clus) <- proba_cluster_loop n weight gauss_list x' ;;
        ret (proba :: prob, cluster :: clus)
  end.

Definition proba_cluster (dim : nat) (weight : vec) (gauss_list : list Gaussian)
  (x : matrix) : M (list vec * list nat) :=
  proba_cluster_loop (length weight) weight gauss_list x.

(** The membership probabilities as the gate is described: the values
    [weight_k * pdf_k(x)], divided by their sum unless the sum is zero. *)
Definition gate_values (weight : vec) (gauss_list : list Gaussian) (x : vec)
  : vec :=
  map2 (fun w g => w * pdf g x) weight gauss_list.

Definition gate_probabilities (weight : vec) (gauss_list : list Gaussian)
  (x : vec) : vec :=
  let vals := gate_values weight gauss_list x in
  if Req_dec_T (sum vals) 0 then vals
  else map (fun u => u / sum vals) vals.

(** Arrays of numpy as the derivative uses them: a scalar is broadcast
    against a vector. *)
Inductive nd : Type :=
| Sc (r : R)
| Ar (v : vec).

Definition nd_binop (f : R -> R -> R) (a b : nd) : nd :=
  match a, b with
  | Sc r, Sc s => Sc (f r s)
  | Sc r, Ar v => Ar (map (fun t => f r t) v)
  | Ar v, Sc s => Ar (map (fun t => f t s) v)
  | Ar v, Ar w => Ar (map2 f v w)
  end.

(** [np.dot(v, m)] of a vector and a square matrix. *)
Definition np_dot (v : vec) (m : matrix) : vec :=
  fold_left (fun acc p => map2 Rplus acc (map (Rmult (fst p)) (snd p)))
            (combine v m) (map (fun _ => 0) v).

(** The first loop of [_derive_proba_cluster_one_sample]. *)
Fixpoint derive_loop1 (weight : vec) (gauss_list : list Gaussian) (k : nat)
  (x : vec) (v : R) (vprime : nd) : M (R * nd) :=
  match weight with
  | [] => ret (v, vprime)
  | w :: weight' =>
      match nth_error gauss_list k with
      | None => raise IndexError
      | Some g =>
          rv <- eval_pdf g x ;;
          let v := v + w * rv in
          let invSigma := np_linalg_inv (g_cov g) in
          let der := np_dot (vsub x (g_mean g)) invSigma in
          rv' <- eval_pdf g x ;;
          let vprime := nd_binop Rminus vprime (Ar (map (Rmult (w * rv')) der)) in
          derive_loop1 weight' gauss_list (S k) x v vprime
      end
  end.

(** Its second loop.  Where [v] is zero numpy yields infinities or NaN;
    the quotient of real numbers stands for them. *)
Fixpoint derive_loop2 (weight : vec) (gauss_list : list Gaussian) (k : nat)
  (x : vec) (v : R) (vprime : nd) : M (list nd) :=
  match weight with
  | [] => ret []
  | w :: weight' =>
      match nth_error gauss_list k with
      | None => raise IndexError
      | Some g =>
          rv <- eval_pdf g x ;;
          let u := w * rv in
          let invSigma := np_linalg_inv (g_cov g) in
          let der := np_dot (vsub x (g_mean g)) invSigma in
          let uprime := Ar (map (Rmult (- u)) der) in
          let d := nd_binop Rdiv
                     (nd_binop Rminus (nd_binop Rmult (Sc v) uprime)
                                      (nd_binop Rmult (Sc u) vprime))
                     (Sc (v ^ 2)) in
          rest <- derive_loop2 weight' gauss_list (S k) x v vprime ;;
          ret (d :: rest)
      end
  end.

Definition _derive_proba_cluster_one_sample (weight : vec)
  (gauss_list : list Gaussian) (x : vec) : M (list nd) :=
  '(v, vprime) <- derive_loop1 weight gauss_list 0 x 0 (Sc 0) ;;
  derive_loop2 weight gauss_list 0 x v vprime.

Fixpoint derive_proba_cluster_loop (n : nat) (weight : vec)
  (gauss_list : list Gaussian) (x : matrix) : M (list (list nd)) :=
  match x with
  | [] => ret []
  | xi :: x' =>
      if (n =? 1)%nat then
        der_prob <- derive_proba_cluster_loop n weight gauss_list x' ;;
        ret ([Sc 0] :: der_prob)
      else
        der_proba <- _derive_proba_cluster_one_sample weight gauss_list xi ;;
        der_prob <- derive_proba_cluster_loop n weight gauss_list x' ;;
        ret (der_proba :: der_prob)
  end.

Definition derive_proba_cluster (dim : nat) (weight : vec)
  (gauss_list : list Gaussian) (x : matrix) : M (list (list nd)) :=
  derive_proba_cluster_loop (length weight) weight gauss_list x.

End Density.
End Gate.

(* ------------------------------------------------------------------ *)
(** * class MOE *)
(* ------------------------------------------------------------------ *)

Module MOE.
Import Np ErrorReport Gate Partitioner Split.

(** What the code reads from a fitted [mixture.GMM]. *)
Record GMM : Type := { weights_ : vec; means_ : matrix; covars_ : list matrix }.

(** The options declared by [_initialize]. *)
Record Options : Type := {
  opt_X : option matrix;
  opt_y : option matrix;
  opt_c : option matrix;
  opt_number_cluster : Z;
  opt_hard_recombination : bool
}.

(** The static method [_rmse]; [mse ** 0.5] of a non-negative float is
    its square root. *)
Definition _rmse (expected actual : vec) : R :=
  let l_two := norm2 (vsub expected actual) in
  let mse := (l_two ^ 2) / INR (length expected) in
  let rmse := sqrt mse in
  rmse.

(** The root of the mean of the squared errors, as it is usually written. *)
Definition rmse_formula (expected actual : vec) : R :=
  sqrt (sum (map (fun t => t * t) (vsub expected actual)) / INR (length expected)).

(** A Python dict with string keys: [d[k] = v] replaces the value of an
    existing key and adds a new key otherwise. *)
Fixpoint dict_set {V} (d : list (string * V)) (k : string) (v : V)
  : list (string * V) :=
  match d with
  | [] => [(k, v)]
  | (k', v') :: d' =>
      if String.eqb k' k then (k, v) :: d' else (k', v') :: dict_set d' k v
  end.

Fixpoint dict_get {V} (d : list (string * V)) (k : string) : option V :=
  match d with
  | [] => None
  | (k', v') :: d' => if String.eqb k' k then Some v' else dict_get d' k
  end.

(** [l[i]] for a position that is a natural number. *)
Definition index {A} (l : list A) (i : nat) : result A :=
  match nth_error l i with
  | Some a => Ok a
  | None => Raise IndexError
  end.

(** [m[:, j]] *)
Fixpoint column (j : nat) (m : matrix) : result vec :=
  match m with
  | [] => Ok []
  | row :: m' =>
      t <-- index row j ;;;
      rest <-- column j m' ;;;
      Ok (t :: rest)
  end.

(** [m[:, 0:j]] and [m[:, i:j]] *)
Definition columns_to (j : nat) (m : matrix) : matrix := map (firstn j) m.
Definition columns (i j : nat) (m : matrix) : matrix :=
  map (fun row => skipn i (firstn j row)) m.

(** [np.c_[a, b]]: the rows of [a] extended by the rows of [b]. *)
Definition np_c_ (a b : matrix) : matrix := map2 (@app R) a b.

(** A vector seen as one column. *)
Definition as_column (v : vec) : matrix := map (fun t => [t]) v.

(** [l[i] = a] at a valid position. *)
Fixpoint list_set {A} (l : list A) (i : nat) (a : A) : list A :=
  match l, i with
  | [], _ => []
  | _ :: l', O => a :: l'
  | b :: l', S i' => b :: list_set l' i' a
  end.

Definition excluded (name : string) : bool :=
  existsb (String.eqb name) ["RMTC"; "RMTB"; "GEKPLS"; "KRG"]%string.

Section Model.

(** Modelled from the spec: the surrogate models (smt/surrogate_models)
    are taken through their interface.  A class is instantiated
    ([sm_class()]), trained on inputs and outputs ([set_training_values]
    then [train], which may raise) and asked for predictions; as in the
    interface [predict(X[n][d]) -> y[n]], [predict_values] returns one
    number per row of its argument. *)
Variables SMClass SM : Type.
Variable sm_new : SMClass -> SM.
Variable sm_name : SM -> string.
Variable sm_train : SM -> matrix -> vec -> result SM.
Variable sm_predict_values : SM -> matrix -> vec.

(** The clustering provider. *)
Variable gmm_fit : Z -> matrix -> result GMM.
Variable gmm_predict : GMM -> matrix -> list Z.

(** scipy's density. *)
Variable pdf : Gaussian -> vec -> R.

(** The order in which [iteritems] goes through a dict of scores. *)
Variable iteritems : list (string * R) -> list (string * R).

(** [self._default_number_cluster], which this file calls and does not
    define: the number of clusters it settles on. *)
Variable _default_number_cluster :
  nat -> matrix -> matrix -> matrix -> bool -> Z -> M Z.

(** The catalog [self._surrogate_type] of the base class, from the name
    of a model type to its class, in the order [iteritems] goes through
    it. *)
Variable _surrogate_type : list (string * SMClass).

(** The attributes of a MOE instance. *)
Record MOE : Type := {
  x : matrix;
  y : matrix;
  c : matrix;
  scale_factor : R;
  hard : bool;
  model_list : list SM;
  values : matrix;
  training_values : matrix;
  test_values : matrix;
  number_cluster : Z;
  cluster : GMM;
  gauss : list Gaussian;
  dimension : nat;
  valid_hard : option Error;
  valid_smooth : option Error
}.

Definition set_model_list (self : MOE) (ml : list SM) : MOE :=
  {| x := x self; y := y self; c := c self; scale_factor := scale_factor self;
     hard := hard self; model_list := ml; values := values self;
     training_values := training_values self; test_values := test_values self;
     number_cluster := number_cluster self; cluster := cluster self;
     gauss := gauss self; dimension := dimension self;
     valid_hard := valid_hard self; valid_smooth := valid_smooth self |}.

Definition set_gauss (self : MOE) (dim : nat) (g : list Gaussian) : MOE :=
  {| x := x self; y := y self; c := c self; scale_factor := scale_factor self;
     hard := hard self; model_list := model_list self; values := values self;
     training_values := training_values self; test_values := test_values self;
     number_cluster := number_cluster self; cluster := cluster self;
     gauss := g; dimension := dim;
     valid_hard := valid_hard self; valid_smooth := valid_smooth self |}.

Definition set_valid (self : MOE) (vh vs : Error) : MOE :=
  {| x := x self; y := y self; c := c self; scale_factor := scale_factor self;
     hard := hard self; model_list := model_list self; values := values self;
     training_values := training_values self; test_values := test_values self;
     number_cluster := number_cluster self; cluster := cluster self;
     gauss := gauss self; dimension := dimension self;
     valid_hard := Some vh; valid_smooth := Some vs |}.

(** [_check_input_data]: only the numbers of rows are compared. *)
Definition _check_input_data {A B C} (x : list A) (y : list B) (c : list C)
  : result unit :=
  if negb (length x =? length y)%nat
  then Raise (ValueError "The number of input points doesn t match with the number of output points.")
  else if negb (length y =? length c)%nat
  then Raise (ValueError "The number of output points doesn t match with the number of criterion weights.")
  else Ok tt.

(** ** The model selector *)

(** The body of the first loop of [_find_best_model] for one candidate
    that is not excluded: it is instantiated, trained on the group and
    scored on the validation set, with the lines of [_rmse]. *)
Definition score_candidate (self : MOE) (sorted_trained_values : matrix)
  (sm_class : SMClass) : result (SM * R) :=
  let dimension := dimension self in
  let sm := sm_new sm_class in
  match sorted_trained_values with
  | [] => Raise IndexError
  | _ =>
      yt <-- column dimension sorted_trained_values ;;;
      sm <-- sm_train sm (columns_to dimension sorted_trained_values) yt ;;;
      expected <-- column dimension (test_values self) ;;;
      let actual :=
        sm_predict_values sm (columns_to dimension (test_values self)) in
      let l_two := norm2 (vsub expected actual) in
      let mse := (l_two ^ 2) / INR (length expected) in
      let rmse := sqrt mse in
      Ok (sm, rmse)
  end.

(** The loop over the catalog: the candidates on the exclusion list are
    skipped, the others are scored and stored under the name the trained
    model reports. *)
Fixpoint find_loop (self : MOE) (sorted_trained_values : matrix)
  (candidates : list (string * SMClass))
  (rmses : list (string * R)) (sms : list (string * SM))
  : result (list (string * R) * list (string * SM)) :=
  match candidates with
  | [] => Ok (rmses, sms)
  | (name, sm_class) :: rest =>
      if excluded name then find_loop self sorted_trained_values rest rmses sms
      else
        '(sm, rmse) <-- score_candidate self sorted_trained_values sm_class ;;;
        find_loop self sorted_trained_values rest
                  (dict_set rmses (sm_name sm) rmse)
                  (dict_set sms (sm_name sm) sm)
  end.

(** The candidates of a catalog that are not on the exclusion list. *)
Definition qualifying (catalog : list (string * SMClass))
  : list (string * SMClass) :=
  filter (fun cand => negb (excluded (fst cand))) catalog.

(** Its second loop: the first strictly smaller score wins. *)
Definition best_step (best : option string * option R) (item : string * R)
  : option string * option R :=
  let '(name, rmse) := item in
  match snd best with
  | None => (Some name, Some rmse)
  | Some best_rmse =>
      if Rlt_dec rmse best_rmse then (Some name, Some rmse) else best
  end.

Definition best_of (rmses : list (string * R)) : option string * option R :=
  fold_left best_step (iteritems rmses) (None, None).

Definition _find_best_model (self : MOE) (sorted_trained_values : matrix)
  : result SM :=
  '(rmses, sms) <-- find_loop self sorted_trained_values _surrogate_type [] [] ;;;
  match fst (best_of rmses) with
  | None => Raise KeyError
  | Some best_name =>
      match dict_get sms best_name with
      | Some sm => Ok sm
      | None => Raise KeyError
      end
  end.

(** ** Fitting the local models *)

(** The loop of [_fit_without_clustering] over [range(self.number_cluster)].
    [model] is the local variable of that name: it is bound only by the
    call of [_find_best_model]. *)
Fixpoint fit_loop (new_model : bool) (dimension : nat)
  (trained_cluster : list matrix) (cluses : list nat)
  (model : option SM) (self : MOE) : result MOE :=
  match cluses with
  | [] => Ok self
  | clus :: rest =>
      if new_model then
        model <-- (if (length _surrogate_type =? 1)%nat then Ok model
                   else
                     group <-- index trained_cluster clus ;;;
                     m <-- _find_best_model self group ;;;
                     Ok (Some m)) ;;;
        match model with
        | None => Raise (UnboundLocalError "model")
        | Some m =>
            fit_loop new_model dimension trained_cluster rest model
                     (set_model_list self (model_list self ++ [m]))
        end
      else
        trained_values <-- index trained_cluster clus ;;;
        match trained_values with
        | [] => Raise IndexError
        | _ =>
            let x_trained := columns_to dimension trained_values in
            y_trained <-- column dimension trained_values ;;;
            sm <-- index (model_list self) clus ;;;
            sm <-- sm_train sm x_trained y_trained ;;;
            fit_loop new_model dimension trained_cluster rest model
                     (set_model_list self (list_set (model_list self) clus sm))
        end
  end.

Definition scaled_covars (self : MOE) : list matrix :=
  map (map (map (Rmult (scale_factor self)))) (covars_ (cluster self)).

Definition _fit_without_clustering (self : MOE) (dimension : nat)
  (x_trained y_trained c_trained : matrix) (new_model : bool) : M MOE :=
  _ <- lift (_check_input_data x_trained y_trained c_trained) ;;
  g <- lift (create_multivar_normal_dis dimension (means_ (cluster self))
                                        (scaled_covars self)) ;;
  let self := set_gauss self dimension g in
  let data := np_c_ x_trained c_trained in
  _ <- emit (GmmPredict data) ;;
  let sort_cluster := gmm_predict (cluster self) data in
  trained_cluster <- lift (sort_values_by_cluster (np_c_ x_trained y_trained)
                             (Z.to_nat (number_cluster self)) sort_cluster) ;;
  lift (fit_loop new_model dimension trained_cluster
                 (seq 0 (Z.to_nat (number_cluster self))) None self).

(** ** The recombiner *)

(** [l[0]] of a prediction for one row. *)
Definition first_value (l : vec) : result R := index l 0.

Fixpoint hard_loop (ml : list SM) (sort_cluster : list nat) (x : matrix)
  : result vec :=
  match sort_cluster with
  | [] => Ok []
  | ci :: sort_cluster' =>
      model <-- index ml ci ;;;
      match x with
      | [] => Raise IndexError
      | xi :: x' =>
          v <-- first_value (sm_predict_values model [xi]) ;;;
          rest <-- hard_loop ml sort_cluster' x' ;;;
          Ok (v :: rest)
      end
  end.

Definition _predict_hard_output (self : MOE) (x : matrix) : M vec :=
  '(_, sort_cluster) <-
     proba_cluster pdf (dimension self) (weights_ (cluster self)) (gauss self) x ;;
  lift (hard_loop (model_list self) sort_cluster x).

(** The inner loop of [_predict_smooth_output], over
    [range(len(self.model_list))] from position [j]. *)
Fixpoint smooth_inner (models : list SM) (j : nat) (xi : vec) (proba_i : vec)
  (recombined_value : R) : result R :=
  match models with
  | [] => Ok recombined_value
  | m :: models' =>
      p <-- first_value (sm_predict_values m [xi]) ;;;
      w <-- index proba_i j ;;;
      smooth_inner models' (S j) xi proba_i (recombined_value + p * w)
  end.

Fixpoint smooth_loop (ml : list SM) (sort_proba : list vec) (x : matrix)
  : result vec :=
  match sort_proba with
  | [] => Ok []
  | proba_i :: sort_proba' =>
      match x with
      | [] => Raise IndexError
      | xi :: x' =>
          v <-- smooth_inner ml 0 xi proba_i 0 ;;;
          rest <-- smooth_loop ml sort_proba' x' ;;;
          Ok (v :: rest)
      end
  end.

Definition _predict_smooth_output (self : MOE) (x : matrix) : M vec :=
  '(sort_proba, _) <-
     proba_cluster pdf (dimension self) (weights_ (cluster self)) (gauss self) x ;;
  lift (smooth_loop (model_list self) sort_proba x).

(** [_analyse_results] for the operation [predict_values]. *)
Definition predict_values (self : MOE) (x : matrix) : M vec :=
  if hard self then _predict_hard_output self x
  else _predict_smooth_output self x.

(** [_valid]: both recombinations on the validation inputs, and a report
    for each against the validation outputs. *)
Definition _valid (self : MOE) (x : matrix) (y : vec) : M MOE :=
  ys <- _predict_smooth_output self x ;;
  yh <- _predict_hard_output self x ;;
  vh <- lift (Error_init y yh) ;;
  vs <- lift (Error_init y ys) ;;
  ret (set_valid self vh vs).

(** ** Training *)

(** [self.dimension], [self.cluster] and [self.test_values], for the places
    where a local variable of [_apply] has the same name. *)
Definition self_dimension (self : MOE) : nat := dimension self.
Definition self_cluster (self : MOE) : GMM := cluster self.
Definition self_test_values (self : MOE) : matrix := test_values self.

(** [x.shape[1]] *)
Definition shape1 (m : matrix) : nat :=
  match m with [] => O | row :: _ => length row end.

Definition _apply (options : Options) : M MOE :=
  match opt_X options, opt_y options with
  | Some x, Some y =>
      let c := match opt_c options with Some c => c | None => y end in
      let number_cluster := opt_number_cluster options in
      _ <- lift (_check_input_data x y c) ;;
      let dimension := shape1 x in
      let values := np_c_ (np_c_ x y) c in
      '(training_values, test_values) <- lift (split_values values) ;;
      let total_length := shape1 training_values in
      let x_trained := columns_to dimension training_values in
      y_trained <- lift (column dimension training_values) ;;
      let c_trained := columns (dimension + 1) total_length training_values in
      let max_number_cluster := (Z.of_nat (length x / 10) + 1)%Z in
      number_cluster <-
        (if (number_cluster =? 0)%Z
         then _default_number_cluster dimension x y c true max_number_cluster
         else ret number_cluster) ;;
      if (number_cluster >? max_number_cluster)%Z
      then raise (ValueError "The number of clusters is too high considering the number of points")
      else
        let data := np_c_ x_trained c_trained in
        _ <- emit (GmmFit number_cluster data) ;;
        cluster <- lift (gmm_fit number_cluster data) ;;
        let self :=
          {| x := x; y := y; c := c; scale_factor := 1;
             hard := opt_hard_recombination options; model_list := [];
             values := values; training_values := training_values;
             test_values := test_values; number_cluster := number_cluster;
             cluster := cluster; gauss := []; dimension := dimension;
             valid_hard := None; valid_smooth := None |} in
        self <- _fit_without_clustering self dimension x_trained
                  (as_column y_trained) c_trained true ;;
        g <- lift (create_multivar_normal_dis (self_dimension self)
                     (means_ (self_cluster self)) (scaled_covars self)) ;;
        let self := set_gauss self (self_dimension self) g in
        yv <- lift (column dimension (self_test_values self)) ;;
        self <- _valid self (columns_to dimension (self_test_values self)) yv ;;
        _fit_without_clustering self dimension x y c false
  | _, _ => raise (ValueError "Check X, y")
  end.

End Model.

Arguments x {SM}. Arguments y {SM}. Arguments c {SM}.
Arguments scale_factor {SM}. Arguments hard {SM}. Arguments model_list {SM}.
Arguments values {SM}. Arguments training_values {SM}.
Arguments test_values {SM}. Arguments number_cluster {SM}.
Arguments cluster {SM}. Arguments gauss {SM}. Arguments dimension {SM}.
Arguments valid_hard {SM}. Arguments valid_smooth {SM}.
Arguments set_model_list {SM}. Arguments set_gauss {SM}.
Arguments set_valid {SM}. Arguments scaled_covars {SM}.
Arguments score_candidate {SMClass SM}. Arguments find_loop {SMClass SM}.
Arguments qualifying {SMClass}.
Arguments _find_best_model {SMClass SM}. Arguments fit_loop {SMClass SM}.
Arguments _fit_without_clustering {SMClass SM}.
Arguments hard_loop {SM}. Arguments smooth_inner {SM}. Arguments smooth_loop {SM}.
Arguments _predict_hard_output {SM}. Arguments _predict_smooth_output {SM}.
Arguments predict_values {SM}. Arguments _valid {SM}.
Arguments _apply {SMClass SM}.

End MOE.

(* ------------------------------------------------------------------ *)
(** * A small instance, for the examples *)
(* ------------------------------------------------------------------ *)

Module Sample.
Import Np MOE.

(** Surrogate models that predict a constant: class [k] predicts [k]
    everywhere and trains without failure. *)
Definition sm_new (k : nat) : nat := k.
Definition sm_name (k : nat) : string :=
  match k with
  | O => "LS"
  | S O => "QP"
  | S (S O) => "KRG"
  | _ => "KPLS"
  end.
Definition sm_train (sm : nat) (_ : matrix) (_ : vec) : result nat := Ok sm.
Definition sm_predict_values (sm : nat) (x : matrix) : vec :=
  map (fun _ => INR sm) x.

(** A clustering provider that always finds one standard component in
    two dimensions and labels every point 0. *)
Definition gmm_fit (_ : Z) (_ : matrix) : result GMM :=
  Ok {| weights_ := [1]; means_ := [[0; 0]];
        covars_ := [[[1; 0]; [0; 1]]] |}.
Definition gmm_predict (_ : GMM) (data : matrix) : list Z :=
  map (fun _ => 0%Z) data.

Definition pdf (_ : Gaussian) (_ : vec) : R := 1.
Definition np_linalg_inv (m : matrix) : matrix := m.
Definition iteritems (d : list (string * R)) : list (string * R) := d.
Definition _default_number_cluster (_ : nat) (_ _ _ : matrix) (_ : bool)
  (_ : Z) : M Z := ret 1%Z.

(** One input column, [y = x]. *)
Definition rows (n : nat) : matrix := map (fun i => [INR i]) (seq 0 n).

Definition options (n : nat) (number_cluster : Z) : Options :=
  {| opt_X := Some (rows n); opt_y := Some (rows n); opt_c := None;
     opt_number_cluster := number_cluster; opt_hard_recombination := true |}.

Definition train (catalog : list (string * nat)) (o : Options)
  : result (MOE nat) * list event :=
  run (_apply sm_new sm_name sm_train sm_predict_values gmm_fit gmm_predict
              pdf iteritems _default_number_cluster catalog o).

(** A trained instance with one cluster and one local model. *)
Definition one_cluster : MOE nat :=
  {| x := rows 2; y := rows 2; c := rows 2; scale_factor := 1; hard := true;
     model_list := [5%nat]; values := []; training_values := [];
     test_values := [[0; 0]]; number_cluster := 1;
     cluster := {| weights_ := [1]; means_ := [[0; 0]];
                   covars_ := [[[1; 0]; [0; 1]]] |};
     gauss := [{| g_mean := [0]; g_cov := [[1]] |}]; dimension := 1;
     valid_hard := None; valid_smooth := None |}.

End Sample.

(* ------------------------------------------------------------------ *)
(** * Views used to state further properties *)
(* ------------------------------------------------------------------ *)

Module Nd.
Import Np Gate.

(** The coordinate [i] of an array; a scalar is broadcast to every
    coordinate. *)
Definition coord (i : nat) (a : nd) : R :=
  match a with
  | Sc r => r
  | Ar v => nth i v 0
  end.

(** A scalar, or a vector of [d] numbers. *)
Definition shaped (d : nat) (a : nd) : Prop :=
  match a with
  | Sc _ => True
  | Ar v => length v = d
  end.

(** The density evaluations of [_derive_proba_cluster_one_sample] for one
    sample: two per cluster in its first loop, one per cluster in its
    second. *)
Definition derive_events (gauss_list : list Gaussian) (x : vec) : list event :=
  concat (map (fun g => [PdfEval g x; PdfEval g x]) gauss_list)
  ++ pdf_events gauss_list x.

End Nd.

Module Recombination.
Import Np Gate.
Section Views.
Variable SM : Type.
Variable sm_predict_values : SM -> matrix -> vec.
Variable pdf : Gaussian -> vec -> R.

(** [c] is the first position of a largest entry of [prob]. *)
Definition first_argmax (prob : vec) (c : nat) : Prop :=
  exists m, nth_error prob c = Some m /\
            (forall p, In p prob -> p <= m) /\
            (forall i p, (i < c)%nat -> nth_error prob i = Some p -> p < m).

(** The value of one local model at one sample:
    [model.predict_values(np.atleast_2d(x[i]))[0]]. *)
Definition local_value (m : SM) (xi : vec) : R :=
  nth 0 (sm_predict_values m [xi]) 0.

(** The sum of the local values weighted by the membership
    probabilities. *)
Definition smooth_value (ml : list SM) (weight : vec) (gauss_list : list Gaussian)
  (xi : vec) : R :=
  sum (map2 (fun m p => local_value m xi * p) ml
            (gate_probabilities pdf weight gauss_list xi)).

End Views.
Arguments local_value {SM}.
Arguments smooth_value {SM}.
End Recombination.

Module Refit.
Import Np MOE.
Section Views.
Variable SM : Type.
Variable sm_train : SM -> matrix -> vec -> result SM.

(** The model at position [k] after the final pass is the model that
    was at position [k], trained on the rows of the group [k]. *)
Definition retrained (dim : nat) (trained_cluster : list matrix)
  (before after : list SM) (k : nat) : Prop :=
  exists m m' group y_trained,
    nth_error before k = Some m /\
    nth_error trained_cluster k = Some group /\
    group <> [] /\
    column dim group = Ok y_trained /\
    sm_train m (columns_to dim group) y_trained = Ok m' /\
    nth_error after k = Some m'.

End Views.
Arguments retrained {SM}.
End Refit.


Module Sample2.
Import Np MOE.

(** Two clusters on one input column, with one local model each. *)
Definition two_gauss : list Gaussian :=
  [{| g_mean := [0]; g_cov := [[1]] |}; {| g_mean := [1]; g_cov := [[1]] |}].

Definition two_clusters : MOE nat :=
  {| x := Sample.rows 2; y := Sample.rows 2; c := Sample.rows 2;
     scale_factor := 1; hard := true;
     model_list := [0%nat; 1%nat]; values := []; training_values := [];
     test_values := [[0; 0]]; number_cluster := 2;
     cluster := {| weights_ := [3 / 5; 2 / 5]; means_ := [[0; 0]; [1; 1]];
                   covars_ := [[[1; 0]; [0; 1]]; [[1; 0]; [0; 1]]] |};
     gauss := two_gauss; dimension := 1;
     valid_hard := None; valid_smooth := None |}.

End Sample2.

Module Sample3.
Import Np MOE.

(** Surrogate models that learn one number: a model of class [k] trained
    on the outputs [y] predicts [y[0] + k] everywhere, and a model that
    was not trained predicts 0.  The classes 0 and 2 report the same
    name. *)
Record model : Type := { kind : nat; level : R }.

Definition sm_new (k : nat) : model := {| kind := k; level := 0 |}.
Definition sm_name (m : model) : string :=
  match kind m with
  | S O => "QP"
  | _ => "LS"
  end.
Definition sm_train (m : model) (_ : matrix) (y : vec) : result model :=
  Ok {| kind := kind m; level := nth 0 y 0 + INR (kind m) |}.
Definition sm_predict_values (m : model) (x : matrix) : vec :=
  map (fun _ => level m) x.

(** An instance in the state in which [_fit_without_clustering] calls the
    selector: one input column and the validation row [(0, 0)]. *)
Definition selector : MOE model :=
  {| x := Sample.rows 2; y := Sample.rows 2; c := Sample.rows 2;
     scale_factor := 1; hard := true; model_list := []; values := [];
     training_values := []; test_values := [[0; 0]]; number_cluster := 1;
     cluster := {| weights_ := [1]; means_ := [[0; 0]];
                   covars_ := [[[1; 0]; [0; 1]]] |};
     gauss := [{| g_mean := [0]; g_cov := [[1]] |}]; dimension := 1;
     valid_hard := None; valid_smooth := None |}.

End Sample3.

(* ================================================================== *)
(** * Properties *)
(* ================================================================== *)

(** ** Lists of groups *)

Section GroupLemmas.
Context {A : Type}.

Lemma length_append_at (l : list (list A)) j a :
  length (append_at l j a) = length l.
Proof.
  revert j; induction l as [|g l IH]; intros [|j]; simpl; auto.
Qed.

Lemma nth_append_at (l : list (list A)) j a k :
  (j < length l)%nat ->
  nth k (append_at l j a) [] =
  if (j =? k)%nat then nth k l [] ++ [a] else nth k l [].
Proof.
  revert j k; induction l as [|g l IH]; intros j k Hj; simpl in Hj; [lia|].
  destruct j as [|j], k as [|k]; simpl; auto.
  apply IH; lia.
Qed.

Lemma length_empty_lists n : length (@empty_lists A n) = n.
Proof. apply repeat_length. Qed.

Lemma nth_empty_lists n k : nth k (@empty_lists A n) [] = [].
Proof.
  unfold empty_lists. revert k; induction n; intros [|k]; simpl; auto.
Qed.

(** Adding one row to the single selected group of a family of groups
    permutes the concatenation. *)
Lemma concat_select_perm (sel : nat -> bool) (B : nat -> list A) a k0 ks :
  NoDup ks -> In k0 ks ->
  (forall k, In k ks -> sel k = true <-> k = k0) ->
  Permutation (concat (map (fun k => if sel k then a :: B k else B k) ks))
              (a :: concat (map B ks)).
Proof.
  induction ks as [|k ks IH]; intros Hnd Hin Hsel; [destruct Hin|].
  inversion Hnd as [|? ? Hnotin Hnd']; subst.
  simpl. destruct (sel k) eqn:Ek.
  - assert (k = k0) by (apply Hsel; [left; auto | auto]). subst k0.
    simpl. constructor.
    replace (map (fun k1 => if sel k1 then a :: B k1 else B k1) ks)
      with (map B ks); [reflexivity|].
    apply map_ext_in. intros k' Hk'.
    destruct (sel k') eqn:Ek'; auto.
    assert (k' = k) by (apply Hsel; [right; auto | auto]). subst; contradiction.
  - destruct Hin as [->|Hin].
    + assert (sel k0 = true) by (apply Hsel; [left; auto | auto]). congruence.
    + rewrite IH; auto.
      * symmetry. apply Permutation_middle.
      * intros k' Hk'. apply Hsel. right; auto.
Qed.

Lemma list_eq_by_nth (l : list (list A)) (f : nat -> list A) n :
  length l = n ->
  (forall k, (k < n)%nat -> nth k l [] = f k) ->
  l = map f (seq 0 n).
Proof.
  intros Hl Hn.
  apply (nth_ext l (map f (seq 0 n)) [] (f 0%nat)).
  - rewrite length_map, length_seq; auto.
  - intros k Hk. rewrite Hl in Hk. rewrite Hn by auto.
    rewrite (map_nth f), seq_nth by auto. reflexivity.
Qed.

End GroupLemmas.

(** ** The split *)

Section SplitLemmas.
Context {A : Type}.
Import Split.

Lemma block_from_shift n j i (l : list A) :
  (0 < n)%nat -> block_from n j (i + n) l = block_from n j i l.
Proof.
  intros Hn. revert i; induction l as [|a l IH]; intros i; simpl; auto.
  replace ((i + n) mod n)%nat with (i mod n)%nat.
  2:{ rewrite <- (Nat.Div0.add_mod_idemp_r i n n), Nat.Div0.mod_same, Nat.add_0_r; auto. }
  rewrite <- (IH (S i)). reflexivity.
Qed.

Lemma cut_loop_spec n (rest : list A) :
  (0 < n)%nat ->
  forall j n_list, (j <= n)%nat -> length n_list = n ->
  exists blocks,
    cut_loop n rest j n_list = Some blocks /\
    length blocks = n /\
    forall k, (k < n)%nat ->
      nth k blocks [] = nth k n_list [] ++ block_from n k j rest.
Proof.
  intros Hn. induction rest as [|a rest IH]; intros j n_list Hj Hl; simpl.
  - exists n_list. repeat split; auto. intros; rewrite app_nil_r; auto.
  - destruct (j <? n)%nat eqn:Ej.
    + apply Nat.ltb_lt in Ej.
      destruct (IH (S j) (append_at n_list j a)) as (blocks & Hc & Hlen & Hnth);
        [lia | rewrite length_append_at; auto |].
      exists blocks. repeat split; auto.
      intros k Hk. rewrite Hnth, nth_append_at by lia.
      rewrite (Nat.mod_small j n) by lia.
      destruct (j =? k)%nat; auto. rewrite <- app_assoc; auto.
    + apply Nat.ltb_ge in Ej. assert (j = n) by lia. subst j.
      assert (E0 : (0 <? n)%nat = true) by (apply Nat.ltb_lt; auto).
      rewrite E0.
      destruct (IH 1%nat (append_at n_list 0 a)) as (blocks & Hc & Hlen & Hnth);
        [lia | rewrite length_append_at; auto |].
      exists blocks. repeat split; auto.
      intros k Hk. rewrite Hnth, nth_append_at by lia.
      rewrite Nat.Div0.mod_same.
      change (S n) with (1 + n)%nat. rewrite block_from_shift by auto.
      destruct (0 =? k)%nat; auto. rewrite <- app_assoc; auto.
Qed.

Lemma cut_list_spec n (l : list A) :
  (0 < n)%nat ->
  exists blocks,
    cut_list l n = Some blocks /\
    blocks = map (fun k => block n k l) (seq 0 n).
Proof.
  intros Hn. unfold cut_list.
  destruct (cut_loop_spec n l Hn 0%nat (empty_lists n)) as (blocks & Hc & Hlen & Hnth);
    [lia | apply length_empty_lists |].
  exists blocks. split; auto.
  apply list_eq_by_nth; auto.
  intros k Hk. rewrite Hnth, nth_empty_lists by auto. reflexivity.
Qed.

Lemma blocks_perm n i (l : list A) :
  (0 < n)%nat ->
  Permutation (concat (map (fun k => block_from n k i l) (seq 0 n))) l.
Proof.
  intros Hn. revert i; induction l as [|a l IH]; intros i; simpl.
  - induction (seq 0 n); simpl; auto.
  - rewrite (concat_select_perm (fun k => (i mod n =? k)%nat)
               (fun k => block_from n k (S i) l) a (i mod n)%nat).
    + constructor. apply IH.
    + apply seq_NoDup.
    + apply in_seq. split; [lia|]. simpl. apply Nat.mod_upper_bound. lia.
    + intros k _. rewrite Nat.eqb_eq. split; auto.
Qed.



End SplitLemmas.


Example cut_list_23_rows :
  Split.cut_list (seq 0 23) 10 =
  Some [[0; 10; 20]; [1; 11; 21]; [2; 12; 22]; [3; 13]; [4; 14]; [5; 15];
        [6; 16]; [7; 17]; [8; 18]; [9; 19]]%nat.
Proof. reflexivity. Qed.

(** ** The partitioner *)

Section PartitionLemmas.
Context {A : Type}.
Import Partitioner.

Lemma py_index_in_range len (c : Z) :
  (0 <= c < Z.of_nat len)%Z -> py_index len c = Some (Z.to_nat c).
Proof.
  intros [H0 H1]. unfold py_index.
  apply Z.leb_le in H0. apply Z.ltb_lt in H1. rewrite H0, H1. reflexivity.
Qed.

Lemma sort_loop_spec K (labels : list Z) :
  forall (values : list A) acc,
    length acc = K ->
    length labels = length values ->
    Forall (fun c => (0 <= c < Z.of_nat K)%Z) labels ->
    exists groups,
      sort_loop values labels acc = Ok groups /\
      length groups = K /\
      forall k, (k < K)%nat ->
        nth k groups [] = nth k acc [] ++ rows_of (Z.of_nat k) values labels.
Proof.
  induction labels as [|c labels IH]; intros values acc Hacc Hlen Hall.
  - exists acc. split; [reflexivity|split; [assumption|]].
    intros k _. destruct values; simpl; rewrite app_nil_r; auto.
  - destruct values as [|v values]; [discriminate|].
    pose proof (Forall_inv Hall) as Hc. pose proof (Forall_inv_tail Hall) as Hall'.
    cbv beta in Hc.
    simpl. rewrite py_index_in_range by (rewrite Hacc; auto).
    destruct (IH values (append_at acc (Z.to_nat c) v)) as (groups & Hs & Hl & Hn);
      [rewrite length_append_at; auto | simpl in Hlen; lia | auto |].
    exists groups. split; [|split]; auto.
    intros k Hk. rewrite Hn, nth_append_at by lia.
    destruct (Z.eqb_spec c (Z.of_nat k)) as [->|Hne].
    + rewrite Nat2Z.id, Nat.eqb_refl, <- app_assoc. reflexivity.
    + destruct (Nat.eqb_spec (Z.to_nat c) k) as [<-|_]; [|reflexivity].
      rewrite Z2Nat.id in Hne by lia. contradiction.
Qed.

Lemma rows_of_perm K (labels : list Z) :
  forall (values : list A),
    length labels = length values ->
    Forall (fun c => (0 <= c < Z.of_nat K)%Z) labels ->
    Permutation
      (concat (map (fun k => rows_of (Z.of_nat k) values labels) (seq 0 K)))
      values.
Proof.
  induction labels as [|c labels IH]; intros values Hlen Hall.
  - destruct values; [|discriminate]. simpl.
    induction (seq 0 K); simpl; auto.
  - destruct values as [|v values]; [discriminate|].
    pose proof (Forall_inv Hall) as Hc. pose proof (Forall_inv_tail Hall) as Hall'.
    cbv beta in Hc. simpl.
    rewrite (concat_select_perm (fun k => (c =? Z.of_nat k)%Z)
               (fun k => rows_of (Z.of_nat k) values labels) v (Z.to_nat c)).
    + constructor. apply IH; auto.
    + apply seq_NoDup.
    + apply in_seq. lia.
    + intros k _. rewrite Z.eqb_eq. lia.
Qed.

End PartitionLemmas.

(** C7. For a label vector with one entry in [0, K) per row,
    [sort_values_by_cluster] returns K groups; group [k] holds the rows
    labelled [k] and only them, in their original order; the groups
    together hold every row exactly once (so distinct rows never appear
    twice, in one group or in two). *)
Theorem sort_values_by_cluster_partition {A : Type}
  (values : list A) (K : nat) (labels : list Z) :
  length labels = length values ->
  Forall (fun c => (0 <= c < Z.of_nat K)%Z) labels ->
  exists groups,
    Partitioner.sort_values_by_cluster values K labels = Ok groups /\
    length groups = K /\
    (forall k, (k < K)%nat ->
       nth k groups [] = Partitioner.rows_of (Z.of_nat k) values labels) /\
    Permutation (concat groups) values /\
    (NoDup values -> NoDup (concat groups)).
Proof.
  intros Hlen Hall.
  destruct (sort_loop_spec K labels values (empty_lists K)) as (groups & Hs & Hl & Hn);
    auto using length_empty_lists.
  assert (Hn' : forall k, (k < K)%nat ->
            nth k groups [] = Partitioner.rows_of (Z.of_nat k) values labels).
  { intros k Hk. rewrite Hn, nth_empty_lists by auto. reflexivity. }
  assert (Hperm : Permutation (concat groups) values).
  { rewrite (list_eq_by_nth groups _ K Hl Hn'). apply rows_of_perm; auto. }
  exists groups. repeat split; auto.
  intros Hnd. apply (Permutation_NoDup (l := values)); auto.
  symmetry; auto.
Qed.

(** The example of the docstring of [sort_values_by_cluster], on row
    numbers. *)
Lemma sort_values_by_cluster_partition_witness :
  exists groups,
    Partitioner.sort_values_by_cluster (seq 0 10) 3 [1; 0; 0; 2; 1; 1; 1; 2; 1; 1]%Z
      = Ok groups /\
    length groups = 3%nat /\
    (forall k, (k < 3)%nat ->
       nth k groups [] =
       Partitioner.rows_of (Z.of_nat k) (seq 0 10) [1; 0; 0; 2; 1; 1; 1; 2; 1; 1]%Z) /\
    Permutation (concat groups) (seq 0 10) /\
    (NoDup (seq 0 10) -> NoDup (concat groups)).
Proof.
  apply (sort_values_by_cluster_partition (seq 0 10) 3 [1; 0; 0; 2; 1; 1; 1; 2; 1; 1]%Z).
  - reflexivity.
  - repeat constructor; lia.
Defined.

Example sort_values_by_cluster_docstring :
  Partitioner.sort_values_by_cluster (seq 0 10) 3 [1; 0; 0; 2; 1; 1; 1; 2; 1; 1]%Z
  = Ok [[1; 2]; [0; 4; 5; 6; 8; 9]; [3; 7]]%nat.
Proof. reflexivity. Qed.

(** ** The validation report *)

Section ErrorLemmas.
Import Np ErrorReport.

Lemma map_map2 {A B C D} (g : C -> D) (f : A -> B -> C) l1 l2 :
  map g (map2 f l1 l2) = map2 (fun a b => g (f a b)) l1 l2.
Proof.
  revert l2; induction l1 as [|a l1 IH]; intros [|b l2]; simpl; auto.
  rewrite IH; auto.
Qed.

Lemma map2_combine {A B C} (f : A -> B -> C) l1 l2 :
  map2 f l1 l2 = map (fun p => f (fst p) (snd p)) (combine l1 l2).
Proof.
  revert l2; induction l1 as [|a l1 IH]; intros [|b l2]; simpl; auto.
  rewrite IH; auto.
Qed.

(** The fields of a report, whatever the variance test decides. *)
Lemma Error_init_fields (yt yc : vec) :
  length yt = length yc -> yt <> [] ->
  exists e e0 es,
    Error_init yt yc = Ok e /\
    l_two e = norm2 (vsub yt yc) /\
    mse e = (l_two e) ^ 2 / INR (length yt) /\
    rmse e = (mse e) ^ 5 /\
    err_rel e = map2 rel_entry yt yc /\
    err_rel e = e0 :: es /\
    err_rel_mean e = fmean (err_rel e) /\
    err_rel_max e = py_max e0 es /\
    err_abs_max e = norm_inf (vsub yt yc).
Proof.
  intros Hlen Hne. unfold Error_init.
  replace (length yt =? length yc)%nat with true
    by (symmetry; apply Nat.eqb_eq; exact Hlen).
  cbn [negb]. rewrite map_map2.
  destruct yt as [|t yt]; [contradiction|]. destruct yc as [|c yc]; [discriminate|].
  cbn [map2].
  destruct (Rlt_dec _ _);
    eexists; exists (rel_entry t c), (map2 rel_entry yt yc);
    (split; [reflexivity|]); cbn [l_two mse rmse err_rel err_rel_mean err_rel_max
                                  err_abs_max];
    repeat split; reflexivity.
Qed.

Lemma rel_entry_nonzero t c : t <> 0 -> is_finite (rel_entry t c) = true.
Proof.
  intros Ht. unfold rel_entry, div.
  destruct (Req_dec_T t 0); [contradiction|]. reflexivity.
Qed.

Lemma rel_entry_zero c :
  rel_entry 0 c = if Req_dec_T c 0 then NaN else PInf.
Proof.
  unfold rel_entry, div, scale.
  destruct (Req_dec_T 0 0) as [_|H]; [|contradiction H; reflexivity].
  destruct (Req_dec_T c 0) as [Hc|Hc].
  - destruct (Req_dec_T (0 - c) 0) as [_|H]; [reflexivity | exfalso; lra].
  - destruct (Req_dec_T (0 - c) 0) as [H|_]; [exfalso; lra|].
    assert (E : abs (if Rlt_dec 0 (0 - c) then PInf else NInf) = PInf)
      by (destruct (Rlt_dec 0 (0 - c)); reflexivity).
    rewrite E.
    destruct (Req_dec_T 100 0); [exfalso; lra|].
    destruct (Rlt_dec 0 100); [reflexivity | exfalso; lra].
Qed.

Lemma rel_entry_not_ninf t c : rel_entry t c <> NInf.
Proof.
  destruct (Req_dec_T t 0) as [->|Ht].
  - rewrite rel_entry_zero. destruct (Req_dec_T c 0); discriminate.
  - pose proof (rel_entry_nonzero t c Ht) as H.
    destruct (rel_entry t c); discriminate.
Qed.

(** A sum of float64 without negative infinity is finite exactly when
    every term is. *)
Lemma fold_add_finite (l : list npfloat) :
  forall acc,
    Forall (fun f => f <> NInf) l -> acc <> NInf ->
    fold_left add l acc <> NInf /\
    is_finite (fold_left add l acc) = is_finite acc && forallb is_finite l.
Proof.
  induction l as [|f l IH]; intros acc Hl Hacc; simpl.
  - rewrite andb_true_r; auto.
  - pose proof (Forall_inv Hl) as Hf. pose proof (Forall_inv_tail Hl) as Hl'.
    cbv beta in Hf.
    destruct (IH (add acc f) Hl') as [Hn Hfin].
    + destruct acc, f; simpl; congruence.
    + split; auto. rewrite Hfin.
      destruct acc, f; simpl; auto; congruence.
Qed.

Lemma fmean_finite (l : list npfloat) :
  Forall (fun f => f <> NInf) l ->
  is_finite (fmean l) = forallb is_finite l.
Proof.
  intros Hl. unfold fmean.
  destruct (fold_add_finite l (Fin 0) Hl) as [_ H]; [discriminate|].
  simpl in H. rewrite <- H.
  destruct (fold_left add l (Fin 0)); reflexivity.
Qed.

(** Once the running maximum is infinite or NaN it stays so. *)
Lemma py_max_absorbing (rest : list npfloat) m :
  is_finite m = false -> m <> NInf -> py_max m rest = m.
Proof.
  unfold py_max. induction rest as [|f rest IH]; intros Hm Hn; simpl; auto.
  replace (if gt f m then f else m) with m; [auto|].
  destruct m, f; simpl in *; try congruence; reflexivity.
Qed.

Lemma py_max_pinf (rest : list npfloat) :
  forall first, In PInf (first :: rest) -> is_finite (py_max first rest) = false.
Proof.
  induction rest as [|f rest IH]; intros first Hin.
  - destruct Hin as [->|[]]. reflexivity.
  - destruct Hin as [->|Hin].
    + rewrite py_max_absorbing; auto; discriminate.
    + change (py_max first (f :: rest))
        with (py_max (if gt f first then f else first) rest).
      destruct Hin as [->|Hin].
      * destruct first; cbn [gt]; rewrite py_max_absorbing; auto; discriminate.
      * apply IH. right; auto.
Qed.

End ErrorLemmas.

Section ErrorTheorems.
Import Np ErrorReport.

Lemma Error_init_ok_inv (yt yc : vec) e :
  Error_init yt yc = Ok e -> length yt = length yc /\ yt <> [].
Proof.
  unfold Error_init. destruct (Nat.eqb_spec (length yt) (length yc)) as [E|E].
  - intros H. split; auto. intros ->. destruct yc; discriminate.
  - discriminate.
Qed.

(** In every report [rmse] is the fifth power of [mse]. *)
Lemma Error_rmse_fifth_power (yt yc : vec) e :
  Error_init yt yc = Ok e -> rmse e = mse e ^ 5.
Proof.
  intros H. destruct (Error_init_ok_inv _ _ _ H) as [Hl Hn].
  destruct (Error_init_fields yt yc Hl Hn) as (e' & e0 & es & Hok & _ & _ & Hr & _).
  congruence.
Qed.

(** C1. The report of the true output [2] against the predicted output
    [0]: [mse] is 4 and [rmse] is [4 ** 5 = 1024], not the square root 2. *)
Theorem Error_rmse_at_2_0 :
  exists e,
    Error_init [2] [0] = Ok e /\
    mse e = 4 /\ rmse e = 1024 /\ sqrt (mse e) = 2 /\ rmse e <> sqrt (mse e).
Proof.
  destruct (Error_init_fields [2] [0]) as (e & e0 & es & Hok & Hl & Hm & Hr & _);
    [reflexivity | discriminate |].
  assert (Hl2 : l_two e = 2).
  { rewrite Hl. unfold norm2, vsub, sum. simpl.
    replace (0 + (2 - 0) * (2 - 0)) with (2 * 2) by ring.
    apply sqrt_square; lra. }
  assert (Hm4 : mse e = 4) by (rewrite Hm, Hl2; simpl; lra).
  assert (Hr5 : rmse e = 1024) by (rewrite Hr, Hm4; simpl; lra).
  assert (Hs : sqrt (mse e) = 2).
  { rewrite Hm4. replace 4 with (2 * 2) by ring. apply sqrt_square; lra. }
  exists e. repeat split; auto. rewrite Hr5, Hs. lra.
Qed.

(** The claim of C10 fails for [err_rel_max]: with the true outputs
    [1; 0] predicted exactly, the entry of the zero output is NaN, the
    builtin [max] never replaces its running maximum by NaN, and
    [err_rel_max] is the finite first entry. *)
Lemma Error_err_rel_max_finite_despite_zero :
  exists e,
    Error_init [1; 0] [1; 0] = Ok e /\
    In 0 [1; 0] /\
    is_finite (err_rel_max e) = true.
Proof.
  destruct (Error_init_fields [1; 0] [1; 0])
    as (e & e0 & es & Hok & _ & _ & _ & Hrel & Hcons & _ & Hmax & _);
    [reflexivity | discriminate |].
  exists e. split; [exact Hok|]. split; [right; left; reflexivity|].
  rewrite Hcons in Hrel. cbn [map2] in Hrel.
  injection Hrel as -> ->. rewrite Hmax.
  rewrite rel_entry_zero. destruct (Req_dec_T 0 0) as [_|H]; [|contradiction H; reflexivity].
  pose proof (rel_entry_nonzero 1 1) as Hf.
  destruct (rel_entry 1 1); try (discriminate Hf; lra); reflexivity.
Qed.

(** C10, amended.  The relative errors divide by the true outputs entry by
    entry.  When a true output is zero, [err_rel] has a non-finite entry
    and [err_rel_mean] is not finite, so both are finite only if no true
    output is zero.  [err_rel_max] is not finite when the prediction at
    such a row is not zero, and it is NaN when the first row has a zero
    true output predicted as zero.  In every case the report exists and
    [l_two], [mse], [rmse] and [err_abs_max] are the numbers computed from
    the differences. *)
Theorem Error_relative_metrics (yt yc : vec) :
  length yt = length yc -> yt <> [] ->
  exists e,
    Error_init yt yc = Ok e /\
    l_two e = norm2 (vsub yt yc) /\
    mse e = l_two e ^ 2 / INR (length yt) /\
    rmse e = mse e ^ 5 /\
    err_abs_max e = norm_inf (vsub yt yc) /\
    err_rel e = map2 rel_entry yt yc /\
    (In 0 yt ->
       forallb is_finite (err_rel e) = false /\
       is_finite (err_rel_mean e) = false) /\
    ((forallb is_finite (err_rel e) = true \/
      is_finite (err_rel_mean e) = true) ->
       Forall (fun t => t <> 0) yt) /\
    ((exists c, In (0, c) (combine yt yc) /\ c <> 0) ->
       is_finite (err_rel_max e) = false) /\
    (forall yt' yc', yt = 0 :: yt' -> yc = 0 :: yc' -> err_rel_max e = NaN).
Proof.
  intros Hlen Hne.
  destruct (Error_init_fields yt yc Hlen Hne)
    as (e & e0 & es & Hok & Hl & Hm & Hr & Hrel & Hcons & Hmean & Hmax & Habs).
  exists e. do 6 (split; [assumption|]).
  assert (Hnn : Forall (fun f => f <> NInf) (err_rel e)).
  { rewrite Hrel, map2_combine. apply Forall_forall. intros f Hf.
    apply in_map_iff in Hf. destruct Hf as ([t c] & <- & _).
    apply rel_entry_not_ninf. }
  assert (Hmf : is_finite (err_rel_mean e) = forallb is_finite (err_rel e))
    by (rewrite Hmean; apply fmean_finite; exact Hnn).
  assert (Hzero : In 0 yt -> forallb is_finite (err_rel e) = false).
  { intros Hz.
    destruct (forallb is_finite (err_rel e)) eqn:E; auto.
    rewrite forallb_forall in E.
    assert (Hc : exists c, In (0, c) (combine yt yc)).
    { clear - Hlen Hz. revert yc Hlen. induction yt as [|t yt IH]; [destruct Hz|].
      intros [|c yc] Hlen; [discriminate|]. simpl.
      destruct Hz as [->|Hz].
      - exists c. left; auto.
      - destruct (IH Hz yc) as (c' & Hc'); [simpl in Hlen; lia|].
        exists c'. right; auto. }
    destruct Hc as (c & Hc).
    assert (Hin : In (rel_entry 0 c) (err_rel e)).
    { rewrite Hrel, map2_combine. apply in_map_iff. exists (0, c). auto. }
    apply E in Hin. rewrite rel_entry_zero in Hin.
    destruct (Req_dec_T c 0); discriminate. }
  split; [|split; [|split]].
  - intros Hz. split; [apply Hzero; exact Hz | rewrite Hmf; apply Hzero; exact Hz].
  - intros Hfin.
    assert (Hall : forallb is_finite (err_rel e) = true)
      by (destruct Hfin as [H|H]; [exact H | rewrite <- Hmf; exact H]).
    apply Forall_forall. intros t Ht ->.
    rewrite (Hzero Ht) in Hall. discriminate.
  - intros (c & Hin & Hc).
    rewrite Hmax. apply py_max_pinf. rewrite <- Hcons, Hrel, map2_combine.
    apply in_map_iff. exists (0, c). split; auto. simpl.
    rewrite rel_entry_zero. destruct (Req_dec_T c 0); [contradiction|reflexivity].
  - intros yt' yc' -> ->. rewrite Hmax.
    rewrite Hcons in Hrel. cbn [map2] in Hrel. injection Hrel as -> _.
    rewrite rel_entry_zero.
    destruct (Req_dec_T 0 0) as [_|H]; [|contradiction H; reflexivity].
    apply py_max_absorbing; [reflexivity | discriminate].
Qed.

Lemma Error_relative_metrics_witness :
  exists e,
    Error_init [1; 0] [3; 5] = Ok e /\
    l_two e = norm2 (vsub [1; 0] [3; 5]) /\
    mse e = l_two e ^ 2 / INR (length [1; 0]) /\
    rmse e = mse e ^ 5 /\
    err_abs_max e = norm_inf (vsub [1; 0] [3; 5]) /\
    err_rel e = map2 rel_entry [1; 0] [3; 5] /\
    (In 0 [1; 0] ->
       forallb is_finite (err_rel e) = false /\
       is_finite (err_rel_mean e) = false) /\
    ((forallb is_finite (err_rel e) = true \/
      is_finite (err_rel_mean e) = true) ->
       Forall (fun t => t <> 0) [1; 0]) /\
    ((exists c, In (0, c) (combine [1; 0] [3; 5]) /\ c <> 0) ->
       is_finite (err_rel_max e) = false) /\
    (forall yt' yc', [1; 0] = 0 :: yt' -> [3; 5] = 0 :: yc' -> err_rel_max e = NaN).
Proof.
  apply (Error_relative_metrics [1; 0] [3; 5]).
  - reflexivity.
  - discriminate.
Defined.

End ErrorTheorems.

(** ** The gate *)

Section GateLemmas.
Import Np Gate.
Variable pdf : Gaussian -> vec -> R.
Variable np_linalg_inv : matrix -> matrix.

Lemma proba_loop_spec (x : vec) (weight : vec) :
  forall (pre suf : list Gaussian) rad prob log,
    length suf = length weight ->
    proba_loop pdf weight (pre ++ suf) (length pre) x rad prob log =
    (Ok (fold_left Rplus (gate_values pdf weight suf x) rad,
         prob ++ gate_values pdf weight suf x),
     log ++ pdf_events suf x).
Proof.
  induction weight as [|w weight IH]; intros pre suf rad prob log Hlen.
  - destruct suf; [|discriminate]. simpl. unfold ret. rewrite !app_nil_r. reflexivity.
  - destruct suf as [|g suf]; [discriminate|].
    simpl. rewrite nth_error_app2, Nat.sub_diag by lia. simpl.
    unfold bind, eval_pdf, emit, ret. simpl.
    replace (pre ++ g :: suf) with ((pre ++ [g]) ++ suf)
      by (rewrite <- app_assoc; reflexivity).
    replace (S (length pre)) with (length (pre ++ [g]))
      by (rewrite length_app; simpl; lia).
    rewrite IH by (simpl in Hlen; lia).
    rewrite <- !app_assoc. reflexivity.
Qed.

Lemma max_list_in (rest : vec) :
  forall first, In (max_list first rest) (first :: rest).
Proof.
  unfold max_list. induction rest as [|p rest IH]; intros first; simpl.
  - left; auto.
  - destruct (Rlt_dec first p).
    + right. apply IH.
    + destruct (IH first) as [H|H]; [left; auto | right; right; auto].
Qed.

Lemma index_of_in (m : R) (l : vec) :
  In m l -> exists i, index_of m l = Some i /\ nth_error l i = Some m.
Proof.
  induction l as [|p l IH]; intros Hin; [destruct Hin|].
  simpl. destruct (Req_dec_T p m) as [->|Hne].
  - exists 0%nat. split; reflexivity.
  - destruct Hin as [H|H]; [contradiction|].
    destruct (IH H) as (i & Hi & Hn). exists (S i). rewrite Hi. split; auto.
Qed.

Lemma fold_plus_div (r : R) (l : vec) :
  forall a,
    fold_left Rplus (map (fun u => u / r) l) (a / r) = fold_left Rplus l a / r.
Proof.
  induction l as [|u l IH]; intros a; simpl; auto.
  rewrite <- IH. f_equal. unfold Rdiv. ring.
Qed.

Lemma sum_normalised (l : vec) :
  sum l <> 0 -> sum (map (fun u => u / sum l) l) = 1.
Proof.
  intros H. unfold sum at 1.
  replace 0 with (0 / sum l) at 1 by (unfold Rdiv; ring).
  rewrite fold_plus_div. fold (sum l). field. exact H.
Qed.

Lemma length_map2 {A B C} (f : A -> B -> C) l1 l2 :
  length l1 = length l2 -> length (map2 f l1 l2) = length l1.
Proof.
  revert l2; induction l1 as [|a l1 IH]; intros [|b l2] H; simpl in *;
    try discriminate; auto.
Qed.

Lemma gate_probabilities_length weight gauss_list x :
  length gauss_list = length weight ->
  length (gate_probabilities pdf weight gauss_list x) = length weight.
Proof.
  intros H. unfold gate_probabilities.
  destruct (Req_dec_T _ _); [|rewrite length_map];
    unfold gate_values; apply length_map2; auto.
Qed.

(** One sample, at least one cluster: the probabilities are those of
    [gate_probabilities], the label is the position of their first
    maximum, and each density was evaluated once. *)
Lemma proba_cluster_one_sample_spec weight gauss_list x log :
  length gauss_list = length weight -> weight <> [] ->
  exists clus m,
    _proba_cluster_one_sample pdf weight gauss_list x log =
      (Ok (gate_probabilities pdf weight gauss_list x, clus),
       log ++ pdf_events gauss_list x) /\
    nth_error (gate_probabilities pdf weight gauss_list x) clus = Some m /\
    Forall (fun p => p <= m) (gate_probabilities pdf weight gauss_list x).
Proof.
  intros Hlen Hne. unfold _proba_cluster_one_sample, bind.
  pose proof (proba_loop_spec x weight [] gauss_list 0 [] log Hlen) as Hloop.
  simpl in Hloop. rewrite Hloop. fold (sum (gate_values pdf weight gauss_list x)).
  fold (gate_probabilities pdf weight gauss_list x).
  pose proof (gate_probabilities_length weight gauss_list x Hlen) as Hl.
  destruct (gate_probabilities pdf weight gauss_list x) as [|p0 ps] eqn:E.
  - destruct weight; [contradiction | discriminate].
  - destruct (index_of_in (max_list p0 ps) (p0 :: ps) (max_list_in ps p0))
      as (i & Hi & Hn).
    exists i, (max_list p0 ps). rewrite Hi. unfold ret. repeat split; auto.
    clear. unfold max_list.
    assert (G : forall rest first b, b <= first ->
              b <= fold_left (fun m item => if Rlt_dec m item then item else m) rest first).
    { induction rest as [|p rest IH]; intros first b Hb; simpl; auto.
      apply IH. destruct (Rlt_dec first p); lra. }
    assert (G2 : forall rest first,
              Forall (fun p => p <= fold_left (fun m item => if Rlt_dec m item then item else m) rest first) rest).
    { induction rest as [|p rest IH]; intros first; simpl; constructor.
      - apply G. destruct (Rlt_dec first p); lra.
      - apply IH. }
    constructor; [apply G; lra | apply G2].
Qed.

End GateLemmas.

Section GateTheorems.
Import Np Gate.
Variable pdf : Gaussian -> vec -> R.
Variable np_linalg_inv : matrix -> matrix.

Lemma proba_cluster_loop_spec n weight gauss_list (x : matrix) :
  n <> 1%nat -> length gauss_list = length weight -> weight <> [] ->
  forall log,
  exists clus,
    proba_cluster_loop pdf n weight gauss_list x log =
      (Ok (map (gate_probabilities pdf weight gauss_list) x, clus),
       log ++ concat (map (pdf_events gauss_list) x)) /\
    length clus = length x.
Proof.
  intros Hn Hlen Hne. apply Nat.eqb_neq in Hn.
  induction x as [|xi x IH]; intros log.
  - exists []. simpl. unfold ret. rewrite app_nil_r. auto.
  - simpl. rewrite Hn.
    destruct (proba_cluster_one_sample_spec pdf weight gauss_list xi log Hlen Hne)
      as (c & m & Hone & _).
    destruct (IH (log ++ pdf_events gauss_list xi)) as (clus & Hrest & Hl).
    exists (c :: clus). unfold bind at 1. rewrite Hone.
    unfold bind. rewrite Hrest. unfold ret. rewrite <- app_assoc.
    simpl. auto.
Qed.

(** C3. With at least two clusters the gate returns, for every sample,
    the values [weight_k * pdf_k(x)] divided by their sum when the sum is
    not zero, and then they sum to 1; when the sum is zero it returns the
    values themselves.  There are as many of them as clusters. *)
Theorem gate_membership_probabilities
  (dim : nat) (weight : vec) (gauss_list : list Gaussian) (x : matrix)
  (log : list event) :
  (2 <= length weight)%nat -> length gauss_list = length weight ->
  (exists clus,
     proba_cluster pdf dim weight gauss_list x log =
       (Ok (map (gate_probabilities pdf weight gauss_list) x, clus),
        log ++ concat (map (pdf_events gauss_list) x)) /\
     length clus = length x) /\
  forall xi,
    length (gate_probabilities pdf weight gauss_list xi) = length weight /\
    (sum (gate_values pdf weight gauss_list xi) <> 0 ->
       gate_probabilities pdf weight gauss_list xi =
         map (fun u => u / sum (gate_values pdf weight gauss_list xi))
             (gate_values pdf weight gauss_list xi) /\
       sum (gate_probabilities pdf weight gauss_list xi) = 1) /\
    (sum (gate_values pdf weight gauss_list xi) = 0 ->
       gate_probabilities pdf weight gauss_list xi =
         gate_values pdf weight gauss_list xi).
Proof.
  intros HK Hlen. split.
  - unfold proba_cluster. apply proba_cluster_loop_spec; auto; [lia|].
    intros ->. simpl in HK. lia.
  - intros xi. split; [apply gate_probabilities_length; auto|].
    unfold gate_probabilities.
    destruct (Req_dec_T (sum (gate_values pdf weight gauss_list xi)) 0) as [E|E];
      split; intros H; try contradiction; auto.
    split; auto. apply sum_normalised; auto.
Qed.

Lemma proba_cluster_loop_single weight gauss_list (x : matrix) log :
  proba_cluster_loop pdf 1 weight gauss_list x log =
  (Ok (map (fun _ => [1]) x, map (fun _ => O) x), log).
Proof.
  induction x as [|xi x IH]; simpl; [reflexivity|].
  unfold bind. rewrite IH. reflexivity.
Qed.

Lemma derive_proba_cluster_loop_single weight gauss_list (x : matrix) log :
  derive_proba_cluster_loop pdf np_linalg_inv 1 weight gauss_list x log =
  (Ok (map (fun _ => [Sc 0]) x), log).
Proof.
  induction x as [|xi x IH]; simpl; [reflexivity|].
  unfold bind. rewrite IH. reflexivity.
Qed.

(** C9. With exactly one cluster the gate returns, for every sample,
    the probabilities [[1]] and the label 0, and the derivative [[0]];
    the log of external calls is unchanged: no density is evaluated. *)
Theorem gate_single_cluster
  (dim : nat) (weight : vec) (gauss_list : list Gaussian) (x : matrix)
  (log : list event) :
  length weight = 1%nat ->
  proba_cluster pdf dim weight gauss_list x log =
    (Ok (map (fun _ => [1]) x, map (fun _ => O) x), log) /\
  derive_proba_cluster pdf np_linalg_inv dim weight gauss_list x log =
    (Ok (map (fun _ => [Sc 0]) x), log).
Proof.
  intros H. unfold proba_cluster, derive_proba_cluster. rewrite H.
  split; [apply proba_cluster_loop_single | apply derive_proba_cluster_loop_single].
Qed.

End GateTheorems.

(** ** The model selector *)

Section SelectorLemmas.
Import Np ErrorReport MOE.

Lemma sum_squares_nonneg (v : vec) : 0 <= sum (map (fun t => t * t) v).
Proof.
  unfold sum.
  assert (G : forall l a, 0 <= a -> 0 <= fold_left Rplus (map (fun t => t * t) l) a).
  { induction l as [|t l IH]; intros a Ha; simpl; auto.
    apply IH. nra. }
  apply G. lra.
Qed.

(** The score of the selector is the root of the mean squared error. *)
Lemma _rmse_formula (expected actual : vec) :
  _rmse expected actual = rmse_formula expected actual.
Proof.
  unfold _rmse, rmse_formula, norm2.
  replace (sqrt (sum (map (fun t => t * t) (vsub expected actual))) ^ 2)
    with (sum (map (fun t => t * t) (vsub expected actual))); [reflexivity|].
  simpl. rewrite Rmult_1_r. symmetry. apply sqrt_sqrt. apply sum_squares_nonneg.
Qed.

Lemma dict_set_fresh {V} (d : list (string * V)) k v :
  ~ In k (map fst d) -> dict_set d k v = d ++ [(k, v)].
Proof.
  induction d as [|[k' v'] d IH]; intros Hk; simpl; auto.
  destruct (String.eqb_spec k' k) as [->|Hne].
  - exfalso. apply Hk. left; reflexivity.
  - rewrite IH; auto. intros H. apply Hk. right; auto.
Qed.

Lemma fold_dict_set_fresh {T V} (key : T -> string) (val : T -> V) (l : list T) :
  forall d,
    NoDup (map fst d ++ map key l) ->
    fold_left (fun d t => dict_set d (key t) (val t)) l d =
    d ++ map (fun t => (key t, val t)) l.
Proof.
  induction l as [|t l IH]; intros d Hnd; simpl.
  - rewrite app_nil_r; auto.
  - simpl in Hnd. pose proof (NoDup_remove_2 _ _ _ Hnd) as Hfresh.
    rewrite dict_set_fresh by (intros H; apply Hfresh; apply in_or_app; auto).
    rewrite IH.
    + rewrite <- app_assoc. reflexivity.
    + rewrite map_app. simpl. rewrite <- app_assoc. exact Hnd.
Qed.

Lemma dict_get_in {V} (d : list (string * V)) k v :
  NoDup (map fst d) -> In (k, v) d -> dict_get d k = Some v.
Proof.
  induction d as [|[k' v'] d IH]; intros Hnd Hin; [destruct Hin|].
  simpl in *. inversion Hnd as [|? ? Hnotin Hnd']; subst.
  destruct Hin as [E|Hin].
  - inversion E; subst. rewrite String.eqb_refl. reflexivity.
  - destruct (String.eqb_spec k' k) as [->|Hne].
    + exfalso. apply Hnotin. apply in_map_iff. exists (k, v). auto.
    + apply IH; auto.
Qed.

(** The second loop keeps an item whose score no other item undercuts. *)
Lemma best_step_fold (items : list (string * R)) :
  forall n r,
  exists n' r',
    fold_left best_step items (Some n, Some r) = (Some n', Some r') /\
    In (n', r') ((n, r) :: items) /\
    r' <= r /\
    forall p, In p items -> r' <= snd p.
Proof.
  induction items as [|[n1 r1] items IH]; intros n r.
  - exists n, r. simpl. repeat split; auto; try lra. intros p [].
  - simpl. destruct (Rlt_dec r1 r) as [Hlt|Hge].
    + destruct (IH n1 r1) as (n' & r' & Hf & Hin & Hle & Hall).
      exists n', r'. split; [exact Hf|]. split; [right; exact Hin|].
      split; [lra|]. intros p [<-|Hp]; simpl; auto.
    + destruct (IH n r) as (n' & r' & Hf & Hin & Hle & Hall).
      exists n', r'. split; [exact Hf|]. split.
      * destruct Hin as [H|H]; [left; auto | right; right; auto].
      * split; auto. intros p [<-|Hp]; simpl; auto. lra.
Qed.

Section Selector.
Variables SMClass SM : Type.
Variable sm_new : SMClass -> SM.
Variable sm_name : SM -> string.
Variable sm_train : SM -> matrix -> vec -> result SM.
Variable sm_predict_values : SM -> matrix -> vec.
Variable iteritems : list (string * R) -> list (string * R).
Hypothesis iteritems_perm : forall d, Permutation (iteritems d) d.

Lemma best_of_min (rmses : list (string * R)) :
  rmses <> [] ->
  exists n r,
    best_of iteritems rmses = (Some n, Some r) /\
    In (n, r) rmses /\
    forall p, In p rmses -> r <= snd p.
Proof.
  intros Hne. unfold best_of.
  pose proof (iteritems_perm rmses) as Hp.
  destruct (iteritems rmses) as [|[n0 r0] items] eqn:E.
  - apply Permutation_nil in Hp. contradiction.
  - change (fold_left best_step ((n0, r0) :: items) (None, None))
      with (fold_left best_step items (Some n0, Some r0)).
    destruct (best_step_fold items n0 r0) as (n & r & Hf & Hin & Hle & Hall).
    exists n, r. split; [exact Hf|]. split.
    + apply (Permutation_in _ Hp). exact Hin.
    + intros p Hpin. apply (Permutation_in _ (Permutation_sym Hp)) in Hpin.
      destruct Hpin as [<-|Hpin]; simpl; auto.
Qed.

Lemma find_loop_spec (self : MOE SM) (group : matrix) candidates :
  forall trained rmses sms,
    Forall2 (fun cand t =>
               score_candidate sm_new sm_train sm_predict_values self group
                               (snd cand) = Ok t)
            (qualifying candidates) trained ->
    find_loop sm_new sm_name sm_train sm_predict_values self group candidates
              rmses sms =
    Ok (fold_left (fun d t => dict_set d (sm_name (fst t)) (snd t)) trained rmses,
        fold_left (fun d t => dict_set d (sm_name (fst t)) (fst t)) trained sms).
Proof.
  induction candidates as [|[name cls] candidates IH]; intros trained rmses sms HF.
  - inversion HF; subst. reflexivity.
  - simpl in *. destruct (excluded name); simpl in HF.
    + apply IH; auto.
    + inversion HF as [|? t ? trained' Hs HF']; subst. simpl in Hs.
      rewrite Hs. destruct t as [sm rmse]. simpl. apply IH; auto.
Qed.

End Selector.
End SelectorLemmas.

Section SelectorTheorem.
Import Np ErrorReport MOE.
Variables SMClass SM : Type.
Variable sm_new : SMClass -> SM.
Variable sm_name : SM -> string.
Variable sm_train : SM -> matrix -> vec -> result SM.
Variable sm_predict_values : SM -> matrix -> vec.
Variable iteritems : list (string * R) -> list (string * R).
Variable _surrogate_type : list (string * SMClass).

Lemma score_candidate_ok_inv (self : MOE SM) (group : matrix) cls sm r :
  score_candidate sm_new sm_train sm_predict_values self group cls = Ok (sm, r) ->
  exists expected,
    column (dimension self) (test_values self) = Ok expected /\
    r = rmse_formula expected
          (sm_predict_values sm (columns_to (dimension self) (test_values self))).
Proof.
  unfold score_candidate. destruct group as [|row group]; [discriminate|].
  destruct (column (dimension self) (row :: group)) as [yt|]; [|discriminate].
  cbn [rbind].
  destruct (sm_train _ _ _) as [sm'|]; [|discriminate]. cbn [rbind].
  destruct (column (dimension self) (test_values self)) as [expected|];
    [|discriminate].
  cbn [rbind]. intros H. inversion H; subst.
  exists expected. split; auto. apply (_rmse_formula expected).
Qed.

Lemma Forall2_in_right {X Y} (P : X -> Y -> Prop) l1 l2 b :
  Forall2 P l1 l2 -> In b l2 -> exists a, In a l1 /\ P a b.
Proof.
  induction 1 as [|a' b' l1 l2 Hab HF IH]; intros Hin; [destruct Hin|].
  destruct Hin as [->|Hin].
  - exists a'. split; [left; auto | auto].
  - destruct (IH Hin) as (a & Ha & HP). exists a. split; [right; auto | auto].
Qed.

(** One candidate that is not excluded: the model of its class, trained
    on the inputs and outputs of the group, and the [_rmse] of its
    predictions on the validation inputs. *)
Lemma score_candidate_trained (self : MOE SM) (group : matrix) cls yt expected sm :
  group <> [] ->
  column (dimension self) group = Ok yt ->
  sm_train (sm_new cls) (columns_to (dimension self) group) yt = Ok sm ->
  column (dimension self) (test_values self) = Ok expected ->
  score_candidate sm_new sm_train sm_predict_values self group cls =
  Ok (sm, _rmse expected
            (sm_predict_values sm
               (columns_to (dimension self) (test_values self)))).
Proof.
  intros Hne Hy Ht He. unfold score_candidate.
  destruct group as [|row group]; [contradiction|].
  rewrite Hy. cbn [rbind]. rewrite Ht. cbn [rbind]. rewrite He. reflexivity.
Qed.

Lemma Forall2_map_right {X Y Z} (P : X -> Z -> Prop) (f : Y -> Z) l1 l2 :
  Forall2 (fun a b => P a (f b)) l1 l2 -> Forall2 P l1 (map f l2).
Proof. induction 1; simpl; constructor; auto. Qed.

(** C6, amended.  The group is not empty, every candidate that is not
    excluded is trained on the inputs and outputs of the group without
    error, the validation set has an output column and the trained models
    report distinct names.  Then [_find_best_model] returns one of these
    trained models (the class of a qualifying candidate, trained on the
    group), and the root of the mean squared error of its predictions on
    the validation set is not higher than that of any of them. *)
Theorem find_best_model_lowest_rmse
  (self : MOE SM) (group : matrix) (yt expected : vec) (models : list SM) :
  (forall d, Permutation (iteritems d) d) ->
  (2 <= length (qualifying _surrogate_type))%nat ->
  group <> [] ->
  column (dimension self) group = Ok yt ->
  column (dimension self) (test_values self) = Ok expected ->
  Forall2 (fun cand sm =>
             sm_train (sm_new (snd cand))
                      (columns_to (dimension self) group) yt = Ok sm)
          (qualifying _surrogate_type) models ->
  NoDup (map sm_name models) ->
  exists best,
    _find_best_model sm_new sm_name sm_train sm_predict_values iteritems
                     _surrogate_type self group = Ok best /\
    In best models /\
    (exists cand,
       In cand (qualifying _surrogate_type) /\
       sm_train (sm_new (snd cand))
                (columns_to (dimension self) group) yt = Ok best) /\
    (forall sm, In sm models ->
       rmse_formula expected
         (sm_predict_values best (columns_to (dimension self) (test_values self)))
       <= rmse_formula expected
            (sm_predict_values sm (columns_to (dimension self) (test_values self)))).
Proof.
  intros Hperm Htwo Hgroup Hy He HF Hnd.
  set (score := fun sm : SM =>
         _rmse expected
           (sm_predict_values sm (columns_to (dimension self) (test_values self)))).
  set (trained := map (fun sm => (sm, score sm)) models).
  assert (HS : Forall2 (fun cand t =>
                          score_candidate sm_new sm_train sm_predict_values
                                          self group (snd cand) = Ok t)
                       (qualifying _surrogate_type) trained).
  { apply Forall2_map_right. eapply Forall2_impl; [|exact HF].
    intros cand sm Ht. cbv beta.
    apply (score_candidate_trained self group (snd cand) yt expected sm); auto. }
  assert (Hnames : map (fun t : SM * R => sm_name (fst t)) trained = map sm_name models)
    by (unfold trained; rewrite map_map; reflexivity).
  assert (Hne : trained <> []).
  { apply Forall2_length in HS. intros E. rewrite E in HS. simpl in HS. lia. }
  unfold _find_best_model.
  rewrite (find_loop_spec _ _ sm_new sm_name sm_train sm_predict_values
             self group _surrogate_type trained [] [] HS).
  cbn [rbind].
  rewrite !fold_dict_set_fresh by (cbn [map app]; rewrite Hnames; exact Hnd).
  cbn [app].
  destruct (best_of_min iteritems Hperm
              (map (fun t => (sm_name (fst t), snd t)) trained))
    as (n & r & Hbest & Hin & Hmin).
  { destruct trained; [contradiction | discriminate]. }
  rewrite Hbest. cbn [fst].
  apply in_map_iff in Hin. destruct Hin as ([best r0] & E & Hin).
  simpl in E. inversion E; subst n r0.
  assert (Hbm : In best models /\ r = score best).
  { unfold trained in Hin. apply in_map_iff in Hin.
    destruct Hin as (sm & E' & Hsm). inversion E'; subst. auto. }
  destruct Hbm as [Hbm Hr].
  rewrite (dict_get_in _ (sm_name best) best).
  - exists best. split; [reflexivity|]. split; [exact Hbm|]. split.
    + destruct (Forall2_in_right _ _ _ _ HF Hbm) as (cand & Hc & Ht).
      exists cand. auto.
    + intros sm Hsm. rewrite <- !_rmse_formula. fold (score best) (score sm).
      rewrite <- Hr.
      apply (Hmin (sm_name sm, score sm)). apply in_map_iff.
      exists (sm, score sm). split; [reflexivity|].
      unfold trained. apply in_map_iff. exists sm. auto.
  - rewrite map_map. cbn [fst]. rewrite Hnames. exact Hnd.
  - apply in_map_iff. exists (best, r). auto.
Qed.

End SelectorTheorem.

(** ** Recombination, fitting and training *)

Section MoeTheorems.
Import Np ErrorReport Gate MOE.
Variables SMClass SM : Type.
Variable sm_new : SMClass -> SM.
Variable sm_name : SM -> string.
Variable sm_train : SM -> matrix -> vec -> result SM.
Variable sm_predict_values : SM -> matrix -> vec.
Variable gmm_fit : Z -> matrix -> result GMM.
Variable gmm_predict : GMM -> matrix -> list Z.
Variable pdf : Gaussian -> vec -> R.
Variable iteritems : list (string * R) -> list (string * R).
Variable _default_number_cluster :
  nat -> matrix -> matrix -> matrix -> bool -> Z -> M Z.
Variable _surrogate_type : list (string * SMClass).

Lemma hard_smooth_loops_single (m : SM) (x : matrix) :
  hard_loop sm_predict_values [m] (map (fun _ => O) x) x =
  smooth_loop sm_predict_values [m] (map (fun _ => [1]) x) x.
Proof.
  induction x as [|xi x IH]; [reflexivity|].
  cbn [map hard_loop smooth_loop smooth_inner index nth_error rbind].
  unfold vec, matrix.
  destruct (first_value (sm_predict_values m [xi])) as [p|e]; cbn [rbind];
    [|reflexivity].
  rewrite IH. replace (0 + p * 1) with p by ring. reflexivity.
Qed.

Lemma hard_loop_single_ok (m : SM) (x : matrix) :
  (forall xi, In xi x -> sm_predict_values m [xi] <> []) ->
  hard_loop sm_predict_values [m] (map (fun _ => O) x) x =
  Ok (map (fun xi => nth 0 (sm_predict_values m [xi]) 0) x).
Proof.
  induction x as [|xi x IH]; intros H; [reflexivity|].
  cbn [map hard_loop index nth_error rbind].
  assert (Hxi : sm_predict_values m [xi] <> []) by (apply H; left; auto).
  unfold first_value, index.
  destruct (sm_predict_values m [xi]) as [|p ps]; [contradiction|].
  cbn [nth_error rbind nth]. rewrite IH; [reflexivity|].
  intros xi' Hin. apply H. right; auto.
Qed.

(** C5. With one cluster and its local model, the hard and the smooth
    recombination return the same predictions for every batch (and raise
    the same error if the local model returns no value for a row); when
    the local model returns a value for every row, that value is the
    prediction. *)
Theorem hard_equals_smooth_single_cluster
  (self : MOE SM) (x : matrix) (log : list event) :
  length (weights_ (cluster self)) = 1%nat ->
  length (model_list self) = 1%nat ->
  _predict_hard_output sm_predict_values pdf self x log =
  _predict_smooth_output sm_predict_values pdf self x log /\
  exists m,
    model_list self = [m] /\
    ((forall xi, In xi x -> sm_predict_values m [xi] <> []) ->
     _predict_hard_output sm_predict_values pdf self x log =
     (Ok (map (fun xi => nth 0 (sm_predict_values m [xi]) 0) x), log)).
Proof.
  intros Hw Hm.
  destruct (model_list self) as [|m [|m' ml]] eqn:E; try discriminate.
  unfold _predict_hard_output, _predict_smooth_output, proba_cluster, bind.
  rewrite Hw, proba_cluster_loop_single, E. unfold lift.
  split.
  - rewrite hard_smooth_loops_single. reflexivity.
  - exists m. split; [reflexivity|]. intros H.
    rewrite hard_loop_single_ok by exact H. reflexivity.
Qed.

(** With a catalog of one entry the first pass of the fitting loop stops
    at [self.model_list.append(model)]: the local variable [model] was
    never bound. *)
Lemma fit_loop_single_candidate (self : MOE SM) dim trained_cluster clus rest :
  length _surrogate_type = 1%nat ->
  fit_loop sm_new sm_name sm_train sm_predict_values iteritems _surrogate_type
           true dim trained_cluster (clus :: rest) None self =
  Raise (UnboundLocalError "model").
Proof.
  intros H. cbn [fit_loop]. rewrite H. reflexivity.
Qed.

(** C4, amended.  The bound counts the rows of [x], the whole input
    before the split, not the rows of the training part.  A requested
    number of clusters above [int(len(x) / 10) + 1]
    makes [_apply] raise, and the log of external calls is unchanged: the
    clustering provider was not called.  On well-formed inputs (as many
    rows of [y] and [c] as of [x], a split into two non-empty parts, an
    output column) the error is the ValueError of the cluster-count check;
    otherwise it is an earlier ValueError or IndexError. *)
Theorem apply_rejects_too_many_clusters
  (options : Options) (x : matrix) (log : list event) :
  opt_X options = Some x ->
  (opt_number_cluster options > Z.of_nat (length x / 10) + 1)%Z ->
  exists e,
    _apply sm_new sm_name sm_train sm_predict_values gmm_fit gmm_predict pdf
           iteritems _default_number_cluster _surrogate_type options log
      = (Raise e, log) /\
    (e = IndexError \/ exists msg, e = ValueError msg) /\
    (forall y training_values test_values y_trained,
       opt_y options = Some y ->
       length x = length y ->
       length y = length (match opt_c options with Some c => c | None => y end) ->
       Split.split_values
         (np_c_ (np_c_ x y) (match opt_c options with Some c => c | None => y end))
         = Ok (training_values, test_values) ->
       column (shape1 x) training_values = Ok y_trained ->
       e = ValueError "The number of clusters is too high considering the number of points").
Proof.
  intros HX HK. unfold _apply. rewrite HX.
  destruct (opt_y options) as [y|].
  2:{ eexists. split; [reflexivity|]. split; [right; eexists; reflexivity|].
      intros; discriminate. }
  set (c := match opt_c options with Some c => c | None => y end).
  unfold bind at 1, lift at 1, _check_input_data.
  destruct (Nat.eqb_spec (length x) (length y)) as [Exy|Exy]; cbn [negb].
  2:{ eexists. split; [reflexivity|]. split; [right; eexists; reflexivity|].
      intros ? ? ? ? Hy; inversion Hy; subst; contradiction. }
  destruct (Nat.eqb_spec (length y) (length c)) as [Eyc|Eyc]; cbn [negb].
  2:{ eexists. split; [reflexivity|]. split; [right; eexists; reflexivity|].
      intros ? ? ? ? Hy; inversion Hy; subst; intros; contradiction. }
  unfold bind at 1, lift at 1.
  destruct (Split.split_values (np_c_ (np_c_ x y) c)) as [[tr te]|e] eqn:Es.
  2:{ exists e. split; [reflexivity|]. split.
      - revert Es. unfold Split.split_values.
        destruct (Split.cut_list _ 10); [|intros H; inversion H; right; eexists; reflexivity].
        unfold Split.np_vstack.
        destruct (Split.concat_except l 0);
          [intros H; inversion H; right; eexists; reflexivity|].
        cbn [rbind]. destruct (nth 0 l []);
          [intros H; inversion H; right; eexists; reflexivity | discriminate].
      - intros y0 trv tev ytr Hy _ _ Hs _. inversion Hy; subst y0.
        fold c in Hs. rewrite Es in Hs. discriminate. }
  unfold bind at 1, lift at 1.
  destruct (column (shape1 x) tr) as [yt|e] eqn:Ec.
  2:{ exists e. split; [reflexivity|]. split.
      - left. clear - Ec. revert e Ec. induction tr as [|row tr IH]; intros e;
          [discriminate|].
        cbn [column]. unfold index. destruct (nth_error row (shape1 x));
          cbn [rbind]; [|intros H; inversion H; reflexivity].
        destruct (column (shape1 x) tr); cbn [rbind]; [discriminate|].
        intros H; inversion H; subst. apply IH; reflexivity.
      - intros y0 trv tev ytr Hy _ _ Hs Hc. inversion Hy; subst y0.
        fold c in Hs. rewrite Es in Hs. inversion Hs; subst.
        rewrite Ec in Hc. discriminate. }
  assert (Hz : (opt_number_cluster options =? 0)%Z = false)
    by (apply Z.eqb_neq; lia).
  rewrite Hz. unfold bind at 1, ret at 1.
  assert (Hgt : (opt_number_cluster options >? Z.of_nat (length x / 10) + 1)%Z = true)
    by (apply Z.gtb_lt; lia).
  rewrite Hgt. eexists. split; [reflexivity|].
  split; [right; eexists; reflexivity|]. intros; reflexivity.
Qed.

(** *** What a training that returns has established *)

Lemma length_list_set {A} (l : list A) i a : length (list_set l i a) = length l.
Proof. revert i; induction l as [|b l IH]; intros [|i]; simpl; auto. Qed.

(** What the fitting loop keeps and what it changes. *)
Lemma fit_loop_model_list new_model dim tc cluses :
  forall model (self self' : MOE SM),
    fit_loop sm_new sm_name sm_train sm_predict_values iteritems _surrogate_type
             new_model dim tc cluses model self = Ok self' ->
    number_cluster self' = number_cluster self /\
    cluster self' = cluster self /\
    hard self' = hard self /\
    length (model_list self') =
      (if new_model then length (model_list self) + length cluses
       else length (model_list self))%nat.
Proof.
  induction cluses as [|clus rest IH]; intros model self self' H; cbn [fit_loop] in H.
  - inversion H; subst. destruct new_model; repeat split; simpl; lia.
  - destruct new_model.
    + match type of H with rbind ?r _ = _ => destruct r as [[m|]|e] end;
        cbn [rbind] in H; try discriminate.
      apply IH in H. destruct H as (H1 & H2 & H3 & H4). cbn in H1, H2, H3, H4.
      rewrite length_app in H4. cbn in H4. repeat split; auto. simpl. lia.
    + destruct (index tc clus) as [[|row tv]|e]; cbn [rbind] in H; try discriminate.
      destruct (column dim (row :: tv)); cbn [rbind] in H; try discriminate.
      destruct (index (model_list self) clus); cbn [rbind] in H; try discriminate.
      destruct (sm_train _ _ _); cbn [rbind] in H; try discriminate.
      apply IH in H. destruct H as (H1 & H2 & H3 & H4). cbn in H1, H2, H3, H4.
      rewrite length_list_set in H4. repeat split; auto.
Qed.

Lemma fit_without_clustering_model_list (self self' : MOE SM) dim xt yt ct nm log log' :
  _fit_without_clustering sm_new sm_name sm_train sm_predict_values gmm_predict
    iteritems _surrogate_type self dim xt yt ct nm log = (Ok self', log') ->
  number_cluster self' = number_cluster self /\
  cluster self' = cluster self /\
  hard self' = hard self /\
  length (model_list self') =
    (if nm then length (model_list self) + Z.to_nat (number_cluster self)
     else length (model_list self))%nat.
Proof.
  unfold _fit_without_clustering. cbv [bind lift emit]. 
  destruct (_check_input_data xt yt ct); [|discriminate].
  destruct (create_multivar_normal_dis _ _ _); [|discriminate].
  cbn [number_cluster cluster set_gauss].
  destruct (Partitioner.sort_values_by_cluster _ _ _); [|discriminate].
  intros H. inversion H as [[H0 Hl]]. clear H.
  apply fit_loop_model_list in H0. cbn in H0. rewrite length_seq in H0. exact H0.
Qed.

Lemma valid_fields (self self' : MOE SM) x y log log' :
  _valid sm_predict_values pdf self x y log = (Ok self', log') ->
  model_list self' = model_list self /\
  number_cluster self' = number_cluster self /\
  cluster self' = cluster self /\
  hard self' = hard self.
Proof.
  unfold _valid. cbv [bind lift ret].
  destruct (_predict_smooth_output _ _ _ _ _) as [[ys|e] l1]; [|discriminate].
  destruct (_predict_hard_output _ _ _ _ _) as [[yh|e] l2]; [|discriminate].
  destruct (Error_init y yh); [|discriminate].
  destruct (Error_init y ys); [|discriminate].
  intros H. inversion H; subst. cbn. auto.
Qed.

(** X24. A training that returns has one local model per cluster, the mode
    of the options and a number of clusters within the allowed maximum. *)
Lemma apply_trained_invariants options (self : MOE SM) log log' :
  _apply sm_new sm_name sm_train sm_predict_values gmm_fit gmm_predict pdf
         iteritems _default_number_cluster _surrogate_type options log
    = (Ok self, log') ->
  length (model_list self) = Z.to_nat (number_cluster self) /\
  hard self = opt_hard_recombination options /\
  (opt_number_cluster options <> 0%Z ->
   number_cluster self = opt_number_cluster options) /\
  exists x, opt_X options = Some x /\
            (number_cluster self <= Z.of_nat (length x / 10) + 1)%Z.
Proof.
  unfold _apply.
  destruct (opt_X options) as [x|]; [|discriminate].
  destruct (opt_y options) as [y|]; [|discriminate].
  cbv [bind lift ret raise emit].
  destruct (_check_input_data _ _ _); [|discriminate].
  destruct (Split.split_values _) as [[tr te]|]; [|discriminate].
  destruct (column (shape1 x) tr); [|discriminate].
  set (nc := if (opt_number_cluster options =? 0)%Z then _ else _).
  destruct (nc log) as [[k|] l0] eqn:Enc; [|discriminate].
  destruct (k >? Z.of_nat (length x / 10) + 1)%Z eqn:Ek; [discriminate|].
  destruct (gmm_fit k _) as [g|]; [|discriminate].
  match goal with
  | |- context [_fit_without_clustering _ _ _ _ _ _ _ ?s ?d ?a ?b ?c true ?l] =>
      destruct (_fit_without_clustering sm_new sm_name sm_train sm_predict_values
                  gmm_predict iteritems _surrogate_type s d a b c true l)
        as [[s1|] l1] eqn:F1; [|discriminate]
  end.
  apply fit_without_clustering_model_list in F1. cbn in F1.
  destruct F1 as (N1 & C1 & H1 & L1).
  unfold self_dimension, self_cluster, self_test_values.
  destruct (create_multivar_normal_dis _ _ _); [|discriminate].
  destruct (column (shape1 x) _); [|discriminate].
  destruct (_valid _ _ _ _ _ _) as [[s2|] l2] eqn:V; [|discriminate].
  apply valid_fields in V. cbn in V. destruct V as (M2 & N2 & C2 & H2).
  intros F2. apply fit_without_clustering_model_list in F2.
  destruct F2 as (N3 & C3 & H3 & L3).
  rewrite L3, M2, L1, N3, N2, N1, H3, H2, H1.
  split; [reflexivity|]. split; [reflexivity|]. split.
  - intros Hnz. subst nc. apply Z.eqb_neq in Hnz. rewrite Hnz in Enc.
    inversion Enc; subst. reflexivity.
  - exists x. split; [reflexivity|]. rewrite Z.gtb_ltb in Ek.
    apply Z.ltb_ge in Ek. exact Ek.
Qed.
End MoeTheorems.

(** ** The properties on the sample instance *)

Section SampleInstance.
Import Np ErrorReport Gate MOE.

Lemma gate_membership_probabilities_witness :
  (exists clus,
     proba_cluster Sample.pdf 1 [3 / 5; 2 / 5]
       [{| g_mean := [0]; g_cov := [[1]] |}; {| g_mean := [1]; g_cov := [[1]] |}]
       (Sample.rows 2) [] =
       (Ok (map (gate_probabilities Sample.pdf [3 / 5; 2 / 5]
                   [{| g_mean := [0]; g_cov := [[1]] |};
                    {| g_mean := [1]; g_cov := [[1]] |}]) (Sample.rows 2), clus),
        [] ++ concat (map (pdf_events
                   [{| g_mean := [0]; g_cov := [[1]] |};
                    {| g_mean := [1]; g_cov := [[1]] |}]) (Sample.rows 2))) /\
     length clus = length (Sample.rows 2)) /\
  forall xi,
    length (gate_probabilities Sample.pdf [3 / 5; 2 / 5]
              [{| g_mean := [0]; g_cov := [[1]] |};
               {| g_mean := [1]; g_cov := [[1]] |}] xi) = length [3 / 5; 2 / 5] /\
    (sum (gate_values Sample.pdf [3 / 5; 2 / 5]
            [{| g_mean := [0]; g_cov := [[1]] |};
             {| g_mean := [1]; g_cov := [[1]] |}] xi) <> 0 ->
       gate_probabilities Sample.pdf [3 / 5; 2 / 5]
         [{| g_mean := [0]; g_cov := [[1]] |};
          {| g_mean := [1]; g_cov := [[1]] |}] xi =
         map (fun u => u / sum (gate_values Sample.pdf [3 / 5; 2 / 5]
                                  [{| g_mean := [0]; g_cov := [[1]] |};
                                   {| g_mean := [1]; g_cov := [[1]] |}] xi))
             (gate_values Sample.pdf [3 / 5; 2 / 5]
                [{| g_mean := [0]; g_cov := [[1]] |};
                 {| g_mean := [1]; g_cov := [[1]] |}] xi) /\
       sum (gate_probabilities Sample.pdf [3 / 5; 2 / 5]
              [{| g_mean := [0]; g_cov := [[1]] |};
               {| g_mean := [1]; g_cov := [[1]] |}] xi) = 1) /\
    (sum (gate_values Sample.pdf [3 / 5; 2 / 5]
            [{| g_mean := [0]; g_cov := [[1]] |};
             {| g_mean := [1]; g_cov := [[1]] |}] xi) = 0 ->
       gate_probabilities Sample.pdf [3 / 5; 2 / 5]
         [{| g_mean := [0]; g_cov := [[1]] |};
          {| g_mean := [1]; g_cov := [[1]] |}] xi =
         gate_values Sample.pdf [3 / 5; 2 / 5]
           [{| g_mean := [0]; g_cov := [[1]] |};
            {| g_mean := [1]; g_cov := [[1]] |}] xi).
Proof.
  apply (gate_membership_probabilities Sample.pdf 1 [3 / 5; 2 / 5]
           [{| g_mean := [0]; g_cov := [[1]] |}; {| g_mean := [1]; g_cov := [[1]] |}]
           (Sample.rows 2) []).
  - simpl. lia.
  - reflexivity.
Defined.

Lemma gate_single_cluster_witness :
  proba_cluster Sample.pdf 1 [1] [{| g_mean := [0]; g_cov := [[1]] |}]
                (Sample.rows 3) [] =
    (Ok (map (fun _ => [1]) (Sample.rows 3), map (fun _ => O) (Sample.rows 3)), []) /\
  derive_proba_cluster Sample.pdf Sample.np_linalg_inv 1 [1]
                       [{| g_mean := [0]; g_cov := [[1]] |}] (Sample.rows 3) [] =
    (Ok (map (fun _ => [Sc 0]) (Sample.rows 3)), []).
Proof.
  apply (gate_single_cluster Sample.pdf Sample.np_linalg_inv 1 [1]
           [{| g_mean := [0]; g_cov := [[1]] |}] (Sample.rows 3) []).
  reflexivity.
Defined.

Lemma hard_equals_smooth_single_cluster_witness :
  _predict_hard_output Sample.sm_predict_values Sample.pdf Sample.one_cluster
                       (Sample.rows 2) [] =
  _predict_smooth_output Sample.sm_predict_values Sample.pdf Sample.one_cluster
                         (Sample.rows 2) [] /\
  exists m,
    model_list Sample.one_cluster = [m] /\
    ((forall xi, In xi (Sample.rows 2) -> Sample.sm_predict_values m [xi] <> []) ->
     _predict_hard_output Sample.sm_predict_values Sample.pdf Sample.one_cluster
                          (Sample.rows 2) [] =
     (Ok (map (fun xi => nth 0 (Sample.sm_predict_values m [xi]) 0) (Sample.rows 2)),
      [])).
Proof.
  apply (hard_equals_smooth_single_cluster nat Sample.sm_predict_values Sample.pdf
           Sample.one_cluster (Sample.rows 2) []); reflexivity.
Defined.

(** Three candidates, one of them on the exclusion list; the group is
    the row [(1, 1)], so that the trained models predict 1 and 2. *)
Lemma find_best_model_lowest_rmse_witness :
  exists best,
    _find_best_model Sample3.sm_new Sample3.sm_name Sample3.sm_train
                     Sample3.sm_predict_values Sample.iteritems
                     [("LS", 0%nat); ("QP", 1%nat); ("KRG", 2%nat)]%string
                     Sample3.selector [[1; 1]] = Ok best /\
    In best [{| Sample3.kind := 0; Sample3.level := 1 + INR 0 |};
             {| Sample3.kind := 1; Sample3.level := 1 + INR 1 |}] /\
    (exists cand,
       In cand (qualifying [("LS", 0%nat); ("QP", 1%nat); ("KRG", 2%nat)]%string) /\
       Sample3.sm_train (Sample3.sm_new (snd cand))
                        (columns_to (dimension Sample3.selector) [[1; 1]]) [1]
         = Ok best) /\
    (forall sm,
       In sm [{| Sample3.kind := 0; Sample3.level := 1 + INR 0 |};
              {| Sample3.kind := 1; Sample3.level := 1 + INR 1 |}] ->
       rmse_formula [0]
         (Sample3.sm_predict_values best
            (columns_to (dimension Sample3.selector) (test_values Sample3.selector)))
       <= rmse_formula [0]
            (Sample3.sm_predict_values sm
               (columns_to (dimension Sample3.selector)
                           (test_values Sample3.selector)))).
Proof.
  apply (find_best_model_lowest_rmse nat Sample3.model Sample3.sm_new
           Sample3.sm_name Sample3.sm_train Sample3.sm_predict_values
           Sample.iteritems
           [("LS", 0%nat); ("QP", 1%nat); ("KRG", 2%nat)]%string
           Sample3.selector [[1; 1]] [1] [0]).
  - intros d. apply Permutation_refl.
  - simpl. lia.
  - discriminate.
  - reflexivity.
  - reflexivity.
  - simpl. apply Forall2_cons; [reflexivity|].
    apply Forall2_cons; [reflexivity|]. apply Forall2_nil.
  - simpl. repeat constructor; simpl; intuition discriminate.
Defined.

(** The claim of C6 fails in two ways.  With an empty group the selector
    raises IndexError at the first of its two candidates.  With two
    candidates whose trained models report the same name, the score and
    the model of the second replace those of the first in the two dicts:
    on the group [(0, 0)] the first candidate predicts the validation
    output exactly, and the selector returns the second, whose error is
    higher. *)
Lemma find_best_model_not_lowest :
  (length (qualifying [("LS", 0%nat); ("QP", 1%nat)]%string) = 2%nat /\
   _find_best_model Sample3.sm_new Sample3.sm_name Sample3.sm_train
                    Sample3.sm_predict_values Sample.iteritems
                    [("LS", 0%nat); ("QP", 1%nat)]%string
                    Sample3.selector [] = Raise IndexError) /\
  (exists other best,
     length (qualifying [("LS", 0%nat); ("IDW", 2%nat)]%string) = 2%nat /\
     Sample3.sm_train (Sample3.sm_new 0) [[0]] [0] = Ok other /\
     Sample3.sm_train (Sample3.sm_new 2) [[0]] [0] = Ok best /\
     Sample3.sm_name other = Sample3.sm_name best /\
     _find_best_model Sample3.sm_new Sample3.sm_name Sample3.sm_train
                      Sample3.sm_predict_values Sample.iteritems
                      [("LS", 0%nat); ("IDW", 2%nat)]%string
                      Sample3.selector [[0; 0]] = Ok best /\
     rmse_formula [0] (Sample3.sm_predict_values other [[0]])
     < rmse_formula [0] (Sample3.sm_predict_values best [[0]])).
Proof.
  split; [split; reflexivity|].
  exists {| Sample3.kind := 0; Sample3.level := 0 + INR 0 |},
         {| Sample3.kind := 2; Sample3.level := 0 + INR 2 |}.
  do 5 (split; [reflexivity|]).
  unfold rmse_formula, Sample3.sm_predict_values, vsub, sum.
  cbn [map map2 fold_left length Sample3.level INR].
  apply sqrt_lt_1; lra.
Qed.

Lemma apply_rejects_too_many_clusters_witness :
  exists e,
    _apply Sample.sm_new Sample.sm_name Sample.sm_train Sample.sm_predict_values
           Sample.gmm_fit Sample.gmm_predict Sample.pdf Sample.iteritems
           Sample._default_number_cluster [("LS", 0%nat); ("QP", 1%nat)]%string
           (Sample.options 20 20) []
      = (Raise e, []) /\
    (e = IndexError \/ exists msg, e = ValueError msg) /\
    (forall y training_values test_values y_trained,
       opt_y (Sample.options 20 20) = Some y ->
       length (Sample.rows 20) = length y ->
       length y = length (match opt_c (Sample.options 20 20) with
                          | Some c => c | None => y end) ->
       Split.split_values
         (np_c_ (np_c_ (Sample.rows 20) y)
                (match opt_c (Sample.options 20 20) with
                 | Some c => c | None => y end))
         = Ok (training_values, test_values) ->
       column (shape1 (Sample.rows 20)) training_values = Ok y_trained ->
       e = ValueError "The number of clusters is too high considering the number of points").
Proof.
  apply (apply_rejects_too_many_clusters nat nat Sample.sm_new Sample.sm_name
           Sample.sm_train Sample.sm_predict_values Sample.gmm_fit
           Sample.gmm_predict Sample.pdf Sample.iteritems
           Sample._default_number_cluster [("LS", 0%nat); ("QP", 1%nat)]%string
           (Sample.options 20 20) (Sample.rows 20) []).
  - reflexivity.
  - simpl. lia.
Defined.

(** Twenty rows and as many clusters: the allowed maximum is 3, and
    training stops at the check without a call to the provider. *)
Example train_20_rows_20_clusters :
  Sample.train [("LS", 0%nat); ("QP", 1%nat)]%string (Sample.options 20 20) =
  (Raise (ValueError "The number of clusters is too high considering the number of points"),
   []).
Proof. reflexivity. Qed.

(** The claim of C4 fails when the bound is taken on the training part.
    Ten rows and two clusters: the training part has 9 rows, and 2 exceeds
    [9 // 10 + 1 = 1]; but [len(x)] is 10, the allowed maximum is 2, the
    check passes and the clustering provider is called on the 9 training
    rows.  (The sample provider then labels every row 0, and the empty
    second cluster stops the fitting loop.) *)
Lemma apply_calls_provider_above_training_bound :
  exists training_values test_values,
    Split.split_values
      (np_c_ (np_c_ (Sample.rows 10) (Sample.rows 10)) (Sample.rows 10))
      = Ok (training_values, test_values) /\
    length training_values = 9%nat /\
    (2 > Z.of_nat (length training_values / 10) + 1)%Z /\
    Sample.train [("LS", 0%nat); ("QP", 1%nat)]%string (Sample.options 10 2) =
    (Raise IndexError,
     [GmmFit 2 (np_c_ (columns_to 1 training_values)
                      (columns 2 3 training_values));
      GmmPredict (np_c_ (columns_to 1 training_values)
                        (columns 2 3 training_values))]).
Proof.
  unfold Sample.train, run.
  cbv -[INR IZR Rmult Rplus Rminus Rdiv Rinv Ropp Rlt_dec Req_dec_T Rabs Rmax
        sqrt _rmse Error_init pow Z.gt Z.add].
  repeat match goal with
         | |- context [Rlt_dec ?a ?b] => destruct (Rlt_dec a b)
         end.
  all: do 2 eexists; (split; [reflexivity|]); (split; [reflexivity|]);
    split; [simpl; lia | reflexivity].
Qed.

(** C2. Training with a catalog of one candidate, two rows and one
    cluster: the clustering succeeds and the fitting loop raises
    UnboundLocalError at [self.model_list.append(model)]; no model is
    appended. *)
Theorem train_single_candidate_unbound_model :
  Sample.train [("LS", 0%nat)]%string (Sample.options 2 1) =
  (Raise (UnboundLocalError "model"),
   [GmmFit 1 [[INR 1; INR 1]]; GmmPredict [[INR 1; INR 1]]]).
Proof. reflexivity. Qed.

(** With two candidates the same training runs to its end: one local
    model, and three calls to the clustering provider (the fit, the labels
    of the training rows, the labels of all rows for the final fit). *)
Example train_two_candidates_succeeds :
  exists self log,
    Sample.train [("LS", 0%nat); ("QP", 1%nat)]%string (Sample.options 2 1)
      = (Ok self, log) /\
    length (model_list self) = 1%nat /\
    number_cluster self = 1%Z /\
    length log = 3%nat.
Proof.
  unfold Sample.train, run.
  cbv -[INR IZR Rmult Rplus Rminus Rdiv Rinv Ropp Rlt_dec Req_dec_T Rabs Rmax
        sqrt _rmse Error_init pow].
  destruct (Rlt_dec _ _).
  all: unfold Error_init;
    cbv -[INR IZR Rmult Rplus Rminus Rdiv Rinv Ropp Rlt_dec Req_dec_T Rabs Rmax
          sqrt _rmse pow norm2 norm_inf var rel_entry fmean py_max].
  all: repeat match goal with
              | |- context [Rlt_dec ?a ?b] => destruct (Rlt_dec a b)
              end.
  all: do 2 eexists; repeat split; reflexivity.
Qed.

End SampleInstance.

(* ================================================================== *)
(** * Further properties of the code *)
(* ================================================================== *)

(** ** cut_list and concat_except *)

Section ListExtras.
Context {A : Type}.
Import Split.

Lemma concat_except_from_spec (l : list (list A)) :
  forall i n,
    concat_except_from i l n =
    if (i <=? n)%nat then concat (firstn (n - i) l ++ skipn (S (n - i)) l)
    else concat l.
Proof.
  induction l as [|g l IH]; intros i n.
  - simpl. destruct (i <=? n)%nat; destruct (n - i)%nat; reflexivity.
  - cbn [concat_except_from]. rewrite IH.
    destruct (Nat.eqb_spec i n) as [->|Hne].
    + rewrite Nat.leb_refl, Nat.sub_diag.
      destruct (Nat.leb_spec (S n) n) as [H|_]; [lia|]. reflexivity.
    + destruct (Nat.leb_spec i n) as [Hle|Hgt].
      * destruct (Nat.leb_spec (S i) n) as [_|H]; [|lia].
        replace (n - i)%nat with (S (n - S i)) by lia. reflexivity.
      * destruct (Nat.leb_spec (S i) n) as [H|_]; [lia|]. reflexivity.
Qed.

(** X1. [concat_except] removes the list at position [n] and nothing else;
    a position out of range removes nothing. *)
Theorem concat_except_removes_one (list_ : list (list A)) (n : nat) :
  concat_except list_ n = concat (firstn n list_ ++ skipn (S n) list_) /\
  Permutation (nth n list_ [] ++ concat_except list_ n) (concat list_) /\
  ((length list_ <= n)%nat -> concat_except list_ n = concat list_).
Proof.
  assert (E : concat_except list_ n = concat (firstn n list_ ++ skipn (S n) list_)).
  { unfold concat_except. rewrite concat_except_from_spec. simpl.
    rewrite Nat.sub_0_r. reflexivity. }
  split; [exact E|]. split.
  - rewrite E. clear E. revert n; induction list_ as [|g l IH]; intros [|n]; simpl; auto.
    rewrite Permutation_app_swap_app. apply Permutation_app_head. apply IH.
  - intros H. rewrite E, firstn_all2, skipn_all2, app_nil_r by lia. reflexivity.
Qed.


Lemma block_from_snoc n j (l : list A) a :
  forall i,
    block_from n j i (l ++ [a]) =
    block_from n j i l ++ (if ((i + length l) mod n =? j)%nat then [a] else []).
Proof.
  induction l as [|b l IH]; intros i; cbn [app block_from length].
  - rewrite Nat.add_0_r. destruct (i mod n =? j)%nat; reflexivity.
  - rewrite IH. replace (S i + length l)%nat with (i + S (length l))%nat by lia.
    destruct (i mod n =? j)%nat; reflexivity.
Qed.

Lemma succ_div_mod n L :
  (0 < n)%nat ->
  (S (L mod n) < n /\ S L / n = L / n /\ S L mod n = S (L mod n))%nat \/
  (S (L mod n) = n /\ S L / n = S (L / n) /\ S L mod n = 0)%nat.
Proof.
  intros Hn.
  pose proof (Nat.div_mod_eq L n) as E.
  pose proof (Nat.mod_upper_bound L n ltac:(lia)) as Hr.
  destruct (Nat.eq_dec (S (L mod n)) n) as [Heq|Hne].
  - right. split; [exact Heq|]. split.
    + symmetry. apply (Nat.div_unique (S L) n (S (L / n)) 0); lia.
    + symmetry. apply (Nat.mod_unique (S L) n (S (L / n)) 0); lia.
  - left. split; [lia|]. split.
    + symmetry. apply (Nat.div_unique (S L) n (L / n) (S (L mod n))); lia.
    + symmetry. apply (Nat.mod_unique (S L) n (L / n) (S (L mod n))); lia.
Qed.

Lemma block_length n j (l : list A) :
  (0 < n)%nat -> (j < n)%nat ->
  length (block n j l) =
  (length l / n + if (j <? length l mod n)%nat then 1 else 0)%nat.
Proof.
  intros Hn Hj. unfold block. induction l as [|a l IH] using rev_ind.
  - simpl. rewrite Nat.Div0.div_0_l, Nat.Div0.mod_0_l. reflexivity.
  - rewrite block_from_snoc, !length_app, IH. cbn [length Nat.add].
    replace (length l + 1)%nat with (S (length l)) by lia.
    destruct (succ_div_mod n (length l) Hn) as [(H1 & H2 & H3)|(H1 & H2 & H3)];
      rewrite H2, H3;
      destruct (Nat.eqb_spec (length l mod n) j);
      destruct (Nat.ltb_spec j (length l mod n));
      try destruct (Nat.ltb_spec j (S (length l mod n)));
      try destruct (Nat.ltb_spec j 0); cbn [length]; lia.
Qed.

Lemma block_nth_error n j (l : list A) :
  (0 < n)%nat -> (j < n)%nat ->
  forall k, nth_error (block n j l) k = nth_error l (k * n + j).
Proof.
  intros Hn Hj. induction l as [|a l IH] using rev_ind; intros k.
  - unfold block. cbn [block_from]. rewrite !nth_error_nil. reflexivity.
  - pose proof (block_length n j l Hn Hj) as Hlen.
    pose proof (Nat.div_mod_eq (length l) n) as E.
    pose proof (Nat.mod_upper_bound (length l) n ltac:(lia)) as Hr.
    unfold block in *. rewrite block_from_snoc. cbn [Nat.add].
    destruct (Nat.lt_ge_cases k (length (block_from n j 0 l))) as [Hk|Hk].
    + rewrite nth_error_app1 by exact Hk. rewrite IH.
      assert (Hs : nth_error l (k * n + j) <> None).
      { rewrite <- IH. apply nth_error_Some. exact Hk. }
      apply nth_error_Some in Hs. rewrite nth_error_app1 by exact Hs. reflexivity.
    + rewrite nth_error_app2 by exact Hk. rewrite Hlen in *.
      destruct (Nat.eqb_spec (length l mod n) j) as [Ej|Ej].
      * destruct (Nat.ltb_spec j (length l mod n)) as [H|_]; [lia|].
        destruct (Nat.eq_dec k (length l / n)) as [->|Hne].
        -- replace (length l / n - (length l / n + 0))%nat with 0%nat by lia.
           replace (length l / n * n + j)%nat with (length l) by lia.
           rewrite nth_error_app2, Nat.sub_diag by lia. reflexivity.
        -- transitivity (@None A).
           ++ destruct (k - (length l / n + 0))%nat as [|d] eqn:Ed; [lia|].
              destruct d; reflexivity.
           ++ symmetry. apply nth_error_None. rewrite length_app. cbn [length]. nia.
      * transitivity (@None A); [destruct (k - _)%nat; reflexivity|].
        symmetry. apply nth_error_None. rewrite length_app. cbn [length].
        destruct (Nat.ltb_spec j (length l mod n)); nia.
Qed.

(** X2. [cut_list] with a positive number of lists: the lists differ in
    length by at most one (the first [len mod n] lists hold one row
    more), and together they hold every row once. *)
Theorem cut_list_balanced (list_ : list A) (n : nat) :
  (0 < n)%nat ->
  exists n_list,
    cut_list list_ n = Some n_list /\
    length n_list = n /\
    (forall j, (j < n)%nat ->
       length (nth j n_list []) =
       (length list_ / n + if (j <? length list_ mod n)%nat then 1 else 0)%nat) /\
    Permutation (concat n_list) list_.
Proof.
  intros Hn. destruct (cut_list_spec n list_ Hn) as (blocks & Hc & Hb).
  exists blocks. split; [exact Hc|].
  assert (Hlen : length blocks = n) by (rewrite Hb, length_map, length_seq; reflexivity).
  split; [exact Hlen|]. split.
  - intros j Hj. rewrite Hb.
    rewrite (nth_indep _ [] (block n 0 list_)) by (rewrite length_map, length_seq; exact Hj).
    rewrite (map_nth (fun k => block n k list_)), seq_nth by exact Hj.
    apply block_length; assumption.
  - rewrite Hb. apply (blocks_perm n 0 list_ Hn).
Qed.

(** X3. The row at position [i] of the list is found at position [i / n] of
    the list number [i mod n]: the cut can be undone. *)
Theorem cut_list_row_position (list_ : list A) (n : nat) :
  (0 < n)%nat ->
  exists n_list,
    cut_list list_ n = Some n_list /\
    forall i, nth_error (nth (i mod n) n_list []) (i / n) = nth_error list_ i.
Proof.
  intros Hn. destruct (cut_list_spec n list_ Hn) as (blocks & Hc & Hb).
  exists blocks. split; [exact Hc|]. intros i.
  pose proof (Nat.mod_upper_bound i n ltac:(lia)) as Hj.
  rewrite Hb.
  rewrite (nth_indep _ [] (block n 0 list_)) by (rewrite length_map, length_seq; exact Hj).
  rewrite (map_nth (fun k => block n k list_)), seq_nth by exact Hj.
  rewrite block_nth_error by assumption.
  f_equal. pose proof (Nat.div_mod_eq i n). lia.
Qed.

End ListExtras.

(** ** sort_values_by_cluster *)

Section PartitionExtras.
Context {A : Type}.
Import Partitioner.

Lemma py_index_some len (c : Z) :
  (- Z.of_nat len <= c < Z.of_nat len)%Z ->
  exists k, py_index len c = Some k /\ (k < len)%nat.
Proof.
  intros H. unfold py_index.
  destruct (Z.leb_spec 0 c); destruct (Z.ltb_spec c (Z.of_nat len)); cbn [andb];
    try lia.
  - exists (Z.to_nat c). split; [reflexivity | lia].
  - destruct (Z.ltb_spec c 0); destruct (Z.leb_spec (- Z.of_nat len) c);
      cbn [andb]; try lia.
    exists (Z.to_nat (c + Z.of_nat len)). split; [reflexivity | lia].
Qed.

Lemma py_index_none len (c : Z) :
  ~ (- Z.of_nat len <= c < Z.of_nat len)%Z -> py_index len c = None.
Proof.
  intros H. unfold py_index.
  destruct (Z.leb_spec 0 c); destruct (Z.ltb_spec c (Z.of_nat len)); cbn [andb];
    try lia;
    destruct (Z.ltb_spec c 0); destruct (Z.leb_spec (- Z.of_nat len) c);
      cbn [andb]; try lia; reflexivity.
Qed.

Lemma sort_loop_result K (labels : list Z) :
  forall (values : list A) acc,
    length acc = K ->
    (((length labels <= length values)%nat /\
      Forall (fun c => (- Z.of_nat K <= c < Z.of_nat K)%Z) labels) ->
     exists groups, sort_loop values labels acc = Ok groups /\ length groups = K) /\
    (~ ((length labels <= length values)%nat /\
        Forall (fun c => (- Z.of_nat K <= c < Z.of_nat K)%Z) labels) ->
     sort_loop values labels acc = Raise IndexError).
Proof.
  induction labels as [|c labels IH]; intros values acc Hacc.
  - split.
    + intros _. exists acc. split; [reflexivity | exact Hacc].
    + intros H. exfalso. apply H. split; [simpl; lia | constructor].
  - destruct values as [|v values].
    + split; [intros [H _]; simpl in H; lia | reflexivity].
    + cbn [sort_loop]. rewrite Hacc.
      destruct (Z_le_dec (- Z.of_nat K) c) as [H1|H1];
        [destruct (Z_lt_dec c (Z.of_nat K)) as [H2|H2]|].
      * destruct (py_index_some K c (conj H1 H2)) as (k & -> & Hk).
        destruct (IH values (append_at acc k v)) as [IHok IHerr];
          [rewrite length_append_at; exact Hacc|].
        split.
        -- intros [Hl Hf]. apply IHok. split; [simpl in Hl; lia|].
           exact (Forall_inv_tail Hf).
        -- intros Hn. apply IHerr. intros [Hl Hf]. apply Hn.
           split; [simpl; lia | constructor; [lia | exact Hf]].
      * rewrite py_index_none by lia. split; [|reflexivity].
        intros [_ Hf]. pose proof (Forall_inv Hf) as Hc. cbv beta in Hc. lia.
      * rewrite py_index_none by lia. split; [|reflexivity].
        intros [_ Hf]. pose proof (Forall_inv Hf) as Hc. cbv beta in Hc. lia.
Qed.

(** X4. [sort_values_by_cluster] returns exactly when there are no more
    labels than rows and every label indexes one of the K lists, counted
    from the front or, if negative, from the back; otherwise it raises
    IndexError. *)
Theorem sort_values_by_cluster_index_error
  (values : list A) (K : nat) (labels : list Z) :
  (((length labels <= length values)%nat /\
    Forall (fun c => (- Z.of_nat K <= c < Z.of_nat K)%Z) labels) ->
   exists groups,
     sort_values_by_cluster values K labels = Ok groups /\ length groups = K) /\
  (~ ((length labels <= length values)%nat /\
      Forall (fun c => (- Z.of_nat K <= c < Z.of_nat K)%Z) labels) ->
   sort_values_by_cluster values K labels = Raise IndexError).
Proof.
  unfold sort_values_by_cluster. apply sort_loop_result. apply length_empty_lists.
Qed.

Lemma py_index_wrap len (c : Z) :
  py_index len c =
  py_index len (if ((c <? 0) && (- Z.of_nat len <=? c))%Z
                then (c + Z.of_nat len)%Z else c).
Proof.
  destruct (Z.ltb_spec c 0) as [Hneg|Hpos];
    destruct (Z.leb_spec (- Z.of_nat len) c) as [Hlo|Hlo]; cbn [andb]; try reflexivity.
  unfold py_index.
  destruct (Z.leb_spec 0 c); [lia|]. cbn [andb].
  destruct (Z.ltb_spec c 0); [|lia].
  destruct (Z.leb_spec (- Z.of_nat len) c); [|lia]. cbn [andb].
  destruct (Z.leb_spec 0 (c + Z.of_nat len)); [|lia].
  destruct (Z.ltb_spec (c + Z.of_nat len) (Z.of_nat len)); [|lia].
  reflexivity.
Qed.

(** X5. A negative label [c >= -K] is the label [c + K]: the rows go to the
    list counted from the back. *)
Theorem sort_values_by_cluster_negative_labels
  (values : list A) (K : nat) (labels : list Z) :
  sort_values_by_cluster values K labels =
  sort_values_by_cluster values K
    (map (fun c => if ((c <? 0) && (- Z.of_nat K <=? c))%Z
                   then (c + Z.of_nat K)%Z else c) labels).
Proof.
  unfold sort_values_by_cluster.
  assert (G : forall labels (values : list A) acc, length acc = K ->
            sort_loop values labels acc =
            sort_loop values
              (map (fun c => if ((c <? 0) && (- Z.of_nat K <=? c))%Z
                             then (c + Z.of_nat K)%Z else c) labels) acc).
  { clear. induction labels as [|c labels IH]; intros values acc Hacc; [reflexivity|].
    destruct values as [|v values]; [reflexivity|].
    cbn [map sort_loop]. rewrite Hacc, <- py_index_wrap.
    destruct (py_index K c); [|reflexivity].
    apply IH. rewrite length_append_at. exact Hacc. }
  apply G. apply length_empty_lists.
Qed.

Lemma sort_loop_firstn (labels : list Z) :
  forall (values : list A) acc,
    sort_loop values labels acc =
    sort_loop (firstn (length labels) values) labels acc.
Proof.
  induction labels as [|c labels IH]; intros values acc; [reflexivity|].
  destruct values as [|v values]; [reflexivity|].
  cbn [length firstn sort_loop].
  destruct (py_index (length acc) c); [|reflexivity]. apply IH.
Qed.

(** X6. The loop runs over the labels: with fewer labels than rows, the rows
    without a label are in no list, and the lists hold the labelled rows
    once each. *)
Theorem sort_values_by_cluster_unlabelled_rows
  (values : list A) (K : nat) (labels : list Z) :
  (length labels <= length values)%nat ->
  Forall (fun c => (0 <= c < Z.of_nat K)%Z) labels ->
  exists groups,
    sort_values_by_cluster values K labels = Ok groups /\
    Permutation (concat groups) (firstn (length labels) values).
Proof.
  intros Hlen Hall. unfold sort_values_by_cluster. rewrite sort_loop_firstn.
  assert (Hl : length labels = length (firstn (length labels) values))
    by (rewrite length_firstn; lia).
  destruct (sort_loop_spec K labels (firstn (length labels) values) (empty_lists K))
    as (groups & Hs & Hk & Hn); auto using length_empty_lists.
  exists groups. split; [exact Hs|].
  rewrite (list_eq_by_nth groups
             (fun k => rows_of (Z.of_nat k) (firstn (length labels) values) labels) K Hk).
  - apply rows_of_perm; assumption.
  - intros k Hlt. rewrite Hn, nth_empty_lists by exact Hlt. reflexivity.
Qed.

End PartitionExtras.

(** ** The fields of a report *)

Section ErrorExtras.
Import Np ErrorReport.

Lemma fold_plus_shift (l : vec) :
  forall a, fold_left Rplus l a = a + fold_left Rplus l 0.
Proof.
  induction l as [|t l IH]; intros a; simpl; [lra|].
  rewrite (IH (a + t)), (IH (0 + t)). lra.
Qed.

Lemma sum_cons t (l : vec) : sum (t :: l) = t + sum l.
Proof. unfold sum. simpl. rewrite fold_plus_shift. lra. Qed.

Lemma sum_nonneg (l : vec) : Forall (fun t => 0 <= t) l -> 0 <= sum l.
Proof.
  induction 1 as [|t l Ht _ IH]; [unfold sum; simpl; lra|].
  rewrite sum_cons. lra.
Qed.

Lemma sum_nonneg_zero (l : vec) :
  Forall (fun t => 0 <= t) l -> sum l = 0 -> Forall (fun t => t = 0) l.
Proof.
  induction 1 as [|t l Ht Hl IH]; intros Hs; [constructor|].
  rewrite sum_cons in Hs. pose proof (sum_nonneg l Hl).
  constructor; [lra | apply IH; lra].
Qed.

Lemma sum_nonneg_bound (l : vec) t :
  Forall (fun t => 0 <= t) l -> In t l -> t <= sum l.
Proof.
  induction 1 as [|u l Hu Hl IH]; intros Hin; [destruct Hin|].
  rewrite sum_cons. pose proof (sum_nonneg l Hl).
  destruct Hin as [->|Hin]; [lra | specialize (IH Hin); lra].
Qed.

Lemma squares_nonneg (v : vec) : Forall (fun t => 0 <= t) (map (fun t => t * t) v).
Proof. apply Forall_forall. intros t Ht. apply in_map_iff in Ht.
  destruct Ht as (u & <- & _). nra. Qed.

Lemma norm2_zero (v : vec) : norm2 v = 0 <-> Forall (fun t => t = 0) v.
Proof.
  unfold norm2. split.
  - intros H. apply sqrt_eq_0 in H; [|apply sum_nonneg, squares_nonneg].
    apply sum_nonneg_zero in H; [|apply squares_nonneg].
    rewrite Forall_forall in *. intros t Ht.
    assert (Hs : t * t = 0) by (apply H, in_map_iff; exists t; auto). nra.
  - intros H. replace (sum (map (fun t => t * t) v)) with 0; [apply sqrt_0|].
    induction H as [|t l Ht _ IH]; [reflexivity|].
    cbn [map]. rewrite sum_cons, <- IH, Ht. lra.
Qed.

Lemma norm2_nonneg (v : vec) : 0 <= norm2 v.
Proof. unfold norm2. apply sqrt_pos. Qed.

Lemma norm2_sqr (v : vec) : norm2 v ^ 2 = sum (map (fun t => t * t) v).
Proof.
  unfold norm2. simpl. rewrite Rmult_1_r. apply sqrt_sqrt.
  apply sum_nonneg, squares_nonneg.
Qed.

Lemma vsub_zero_iff (a b : vec) :
  length a = length b -> (Forall (fun t => t = 0) (vsub a b) <-> a = b).
Proof.
  revert b; induction a as [|t a IH]; intros [|u b] Hlen; try discriminate.
  - split; [reflexivity | constructor].
  - simpl in Hlen. unfold vsub in *. cbn [map2]. split.
    + intros H. inversion H as [|? ? H1 H2]; subst.
      f_equal; [lra | apply IH; [lia | exact H2]].
    + intros H. inversion H; subst. constructor; [lra | apply IH; auto].
Qed.

(** All fields of a report that are numbers or optional numbers. *)
Lemma Error_init_number_fields (yt yc : vec) e :
  Error_init yt yc = Ok e ->
  length yt = length yc /\ yt <> [] /\
  l_two e = norm2 (vsub yt yc) /\
  l_two_rel e = div (norm2 (vsub yt yc)) (norm2 yt) /\
  mse e = norm2 (vsub yt yc) ^ 2 / INR (length yt) /\
  rmse e = mse e ^ 5 /\
  err_abs_max e = norm_inf (vsub yt yc) /\
  (Rabs (var yt) > / 10 ^ 10 ->
     lof e = Some (100 * mse e / var yt) /\
     r_two e = Some (1 - 100 * mse e / var yt / 100)) /\
  (Rabs (var yt) <= / 10 ^ 10 -> lof e = None /\ r_two e = None).
Proof.
  intros H. destruct (Error_init_ok_inv _ _ _ H) as [Hlen Hne].
  split; [exact Hlen|]. split; [exact Hne|].
  revert H. unfold Error_init.
  replace (length yt =? length yc)%nat with true
    by (symmetry; apply Nat.eqb_eq; exact Hlen).
  cbn [negb].
  destruct yt as [|t yt]; [contradiction|]. destruct yc as [|c yc]; [discriminate|].
  cbn [map2 map].
  destruct (Rlt_dec _ _) as [Hv|Hv]; intros H; inversion H; subst; clear H;
    cbn [l_two l_two_rel mse rmse err_abs_max lof r_two];
    repeat (split; [reflexivity|]); split; intros Hc;
    try (split; reflexivity); exfalso; lra.
Qed.

(** X7. The squared errors decide the mean squared error: it is never
    negative, and zero exactly when the prediction is exact. *)
Theorem Error_mse_zero_iff_exact (yt yc : vec) :
  length yt = length yc -> yt <> [] ->
  exists e,
    Error_init yt yc = Ok e /\
    0 <= l_two e /\ 0 <= mse e /\ 0 <= rmse e /\
    (mse e = 0 <-> yt = yc) /\
    (yt = yc -> l_two e = 0 /\ rmse e = 0 /\ err_abs_max e = 0).
Proof.
  intros Hlen0 Hne0.
  destruct (Error_init_fields yt yc Hlen0 Hne0) as (e & _ & _ & H & _).
  exists e. split; [exact H|].
  destruct (Error_init_number_fields _ _ _ H)
    as (Hlen & Hne & Hl & _ & Hm & Hr & Ha & _).
  assert (Hn : 0 < INR (length yt)).
  { apply lt_0_INR. destruct yt; [contradiction | simpl; lia]. }
  assert (Hl0 : 0 <= l_two e) by (rewrite Hl; apply norm2_nonneg).
  assert (Hm0 : 0 <= mse e).
  { rewrite Hm. apply Rmult_le_pos; [apply pow2_ge_0|].
    apply Rlt_le, Rinv_0_lt_compat, Hn. }
  assert (Hiff : mse e = 0 <-> yt = yc).
  { rewrite <- (vsub_zero_iff yt yc Hlen), <- norm2_zero, Hm. split.
    - intros E. apply (Rmult_eq_compat_r (INR (length yt))) in E.
      unfold Rdiv in E. rewrite Rmult_assoc, Rinv_l, Rmult_1_r, Rmult_0_l in E by lra.
      simpl in E. rewrite Rmult_1_r in E.
      apply Rmult_integral in E. destruct E; assumption.
    - intros ->. unfold Rdiv. simpl. ring. }
  split; [exact Hl0|]. split; [exact Hm0|]. split.
  { rewrite Hr. apply pow_le. exact Hm0. }
  split; [exact Hiff|].
  intros Heq. assert (Hz : mse e = 0) by (apply Hiff; exact Heq).
  assert (Hd : Forall (fun t => t = 0) (vsub yt yc))
    by (apply vsub_zero_iff; assumption).
  split; [rewrite Hl; apply norm2_zero; exact Hd|]. split.
  - rewrite Hr, Hz. simpl. ring.
  - rewrite Ha. unfold norm_inf. clear - Hd.
    assert (G : forall l, Forall (fun t => t = 0) l ->
              fold_left (fun m t => Rmax m (Rabs t)) l 0 = 0).
    { induction 1 as [|t l Ht _ IH]; [reflexivity|]. simpl.
      rewrite Ht, Rabs_R0, Rmax_left by lra. exact IH. }
    apply G. exact Hd.
Qed.


Lemma var_nonneg (l : vec) : l <> [] -> 0 <= var l.
Proof.
  intros Hne. unfold var, mean. rewrite length_map.
  apply Rmult_le_pos.
  - apply sum_nonneg. apply Forall_forall. intros u Hu.
    apply in_map_iff in Hu. destruct Hu as (t & <- & _). exact (Rle_0_sqr _).
  - apply Rlt_le, Rinv_0_lt_compat, lt_0_INR.
    destruct l; [contradiction | simpl; lia].
Qed.

(** The mean of the squared differences of two vectors. *)
Lemma mean_square_zero_iff (yt yc : vec) :
  length yt = length yc -> yt <> [] ->
  0 <= norm2 (vsub yt yc) ^ 2 / INR (length yt) /\
  (norm2 (vsub yt yc) ^ 2 / INR (length yt) = 0 <-> yt = yc).
Proof.
  intros Hlen Hne.
  assert (Hn : 0 < INR (length yt)).
  { apply lt_0_INR. destruct yt; [contradiction | simpl; lia]. }
  split.
  - apply Rmult_le_pos; [apply pow2_ge_0 | apply Rlt_le, Rinv_0_lt_compat, Hn].
  - rewrite <- (vsub_zero_iff yt yc Hlen), <- norm2_zero. split.
    + intros E. apply (Rmult_eq_compat_r (INR (length yt))) in E.
      unfold Rdiv in E. rewrite Rmult_assoc, Rinv_l, Rmult_1_r, Rmult_0_l in E by lra.
      simpl in E. rewrite Rmult_1_r in E.
      apply Rmult_integral in E. destruct E; assumption.
    + intros ->. unfold Rdiv. simpl. ring.
Qed.

(** X8. Lack of fit and R2 exist only when the variance of the true outputs
    exceeds 1e-10: then [lof = 100 * mse / var] and [r_two = 1 - mse / var];
    otherwise both are [None].  When they exist, [lof] is not negative,
    [r_two = 1 - lof / 100] is at most 1, and it is 1 exactly when the
    prediction is exact. *)
Theorem Error_lof_r_two (yt yc : vec) :
  length yt = length yc -> yt <> [] ->
  exists e,
    Error_init yt yc = Ok e /\
    (Rabs (var yt) > / 10 ^ 10 ->
       lof e = Some (100 * mse e / var yt) /\
       r_two e = Some (1 - mse e / var yt)) /\
    (Rabs (var yt) <= / 10 ^ 10 -> lof e = None /\ r_two e = None) /\
    (forall l r, lof e = Some l -> r_two e = Some r ->
       0 <= l /\ r <= 1 /\ r = 1 - l / 100 /\ (r = 1 <-> yt = yc)).
Proof.
  intros Hlen0 Hne0.
  destruct (Error_init_fields yt yc Hlen0 Hne0) as (e & _ & _ & H & _).
  exists e. split; [exact H|].
  destruct (Error_init_number_fields _ _ _ H)
    as (_ & Hne & _ & _ & Hm & _ & _ & Hbig & Hsmall).
  assert (Hpos : 0 < / 10 ^ 10) by (apply Rinv_0_lt_compat; lra).
  split; [|split].
  - intros Hv. destruct (Hbig Hv) as [Hlof Hr]. split; [exact Hlof|].
    rewrite Hr. f_equal. field. intros E. rewrite E, Rabs_R0 in Hv. lra.
  - exact Hsmall.
  - intros l r Hl Hr.
    destruct (Rle_or_lt (Rabs (var yt)) (/ 10 ^ 10)) as [Hv|Hv].
    { destruct (Hsmall Hv) as [Hn _]. rewrite Hn in Hl. discriminate. }
    destruct (Hbig Hv) as [Hlof Hrt].
    rewrite Hlof in Hl. rewrite Hrt in Hr.
    injection Hl as <-. injection Hr as <-.
    pose proof (var_nonneg yt Hne) as Hv0.
    assert (Hvar : 0 < var yt).
    { destruct (Req_dec_T (var yt) 0) as [E|E]; [|lra].
      rewrite E, Rabs_R0 in Hv. lra. }
    destruct (mean_square_zero_iff yt yc Hlen0 Hne) as [Hm0 Hiff].
    rewrite <- Hm in Hm0, Hiff.
    assert (Hq : 0 <= mse e / var yt).
    { apply Rmult_le_pos; [exact Hm0 | apply Rlt_le, Rinv_0_lt_compat, Hvar]. }
    replace (100 * mse e / var yt) with (100 * (mse e / var yt))
      by (unfold Rdiv; ring).
    split; [lra|]. split; [lra|]. split; [lra|].
    rewrite <- Hiff. split.
    + intros E.
      assert (E0 : mse e / var yt = 0) by lra.
      apply (Rmult_eq_compat_r (var yt)) in E0.
      unfold Rdiv in E0. rewrite Rmult_assoc, Rinv_l, Rmult_1_r, Rmult_0_l in E0 by lra.
      exact E0.
    + intros ->. unfold Rdiv. ring.
Qed.

Lemma norm_inf_fold_ge (l : vec) :
  forall m, m <= fold_left (fun m t => Rmax m (Rabs t)) l m.
Proof.
  induction l as [|t l IH]; intros m; simpl; [lra|].
  eapply Rle_trans; [apply (Rmax_l m (Rabs t)) | apply IH].
Qed.

Lemma norm_inf_fold_bound (l : vec) :
  forall m t, In t l -> Rabs t <= fold_left (fun m t => Rmax m (Rabs t)) l m.
Proof.
  induction l as [|u l IH]; intros m t Hin; [destruct Hin|]. simpl.
  destruct Hin as [->|Hin]; [|apply IH; exact Hin].
  eapply Rle_trans; [apply (Rmax_r m (Rabs t)) | apply norm_inf_fold_ge].
Qed.

Lemma norm_inf_fold_le (l : vec) M :
  forall m, m <= M -> Forall (fun t => Rabs t <= M) l ->
            fold_left (fun m t => Rmax m (Rabs t)) l m <= M.
Proof.
  induction l as [|u l IH]; intros m Hm Hall; simpl; [exact Hm|].
  apply IH; [apply Rmax_lub; [exact Hm | exact (Forall_inv Hall)]
            | exact (Forall_inv_tail Hall)].
Qed.

Lemma abs_le_norm2 (v : vec) t : In t v -> Rabs t <= norm2 v.
Proof.
  intros Hin. unfold norm2. rewrite <- sqrt_Rsqr_abs. apply sqrt_le_1.
  - apply Rle_0_sqr.
  - apply sum_nonneg, squares_nonneg.
  - unfold Rsqr. apply sum_nonneg_bound; [apply squares_nonneg|].
    apply in_map_iff. exists t. auto.
Qed.

(** X9. [err_abs_max] is an upper bound of every absolute error and is not
    above the L2 error. *)
Theorem Error_err_abs_max_bounds (yt yc : vec) :
  length yt = length yc -> yt <> [] ->
  exists e,
    Error_init yt yc = Ok e /\
    (forall i t c, nth_error yt i = Some t -> nth_error yc i = Some c ->
                   Rabs (t - c) <= err_abs_max e) /\
    0 <= err_abs_max e /\
    err_abs_max e <= l_two e.
Proof.
  intros Hlen0 Hne0.
  destruct (Error_init_fields yt yc Hlen0 Hne0) as (e & _ & _ & H & _).
  exists e. split; [exact H|].
  destruct (Error_init_number_fields _ _ _ H)
    as (_ & _ & Hl & _ & _ & _ & Ha & _).
  rewrite Ha, Hl. unfold norm_inf. split; [|split].
  - intros i t c Ht Hc. apply norm_inf_fold_bound.
    unfold vsub. rewrite map2_combine. apply in_map_iff. exists (t, c).
    split; [reflexivity|].
    clear - Ht Hc. revert yc i Ht Hc.
    induction yt as [|t' yt IH]; intros [|c' yc] [|i] Ht Hc; try discriminate.
    + inversion Ht; inversion Hc; subst. left; reflexivity.
    + right. apply (IH yc i); assumption.
  - apply norm_inf_fold_ge.
  - apply norm_inf_fold_le; [apply norm2_nonneg|].
    apply Forall_forall. intros t Ht. apply abs_le_norm2. exact Ht.
Qed.

Lemma vsub_from_zeros (yt yc : vec) :
  length yt = length yc -> Forall (fun t => t = 0) yt ->
  (Forall (fun t => t = 0) (vsub yt yc) <-> Forall (fun c => c = 0) yc).
Proof.
  revert yc; induction yt as [|t yt IH]; intros [|c yc] Hlen Hz; try discriminate.
  - split; constructor.
  - simpl in Hlen. inversion Hz as [|? ? Ht Hz']; subst.
    unfold vsub in *. cbn [map2]. split; intros H; inversion H as [|? ? H1 H2]; subst.
    + constructor; [lra | apply (IH yc); [lia | exact Hz' | exact H2]].
    + constructor; [lra | apply (IH yc); [lia | exact Hz' | exact H2]].
Qed.

(** X10. The relative L2 error divides by the norm of the true outputs: it is
    a number unless every true output is zero; then it is NaN when every
    predicted output is zero too, and infinite otherwise. *)
Theorem Error_l_two_rel_finite (yt yc : vec) :
  length yt = length yc -> yt <> [] ->
  exists e,
    Error_init yt yc = Ok e /\
    (is_finite (l_two_rel e) = false <-> Forall (fun t => t = 0) yt) /\
    (Forall (fun t => t = 0) yt -> Forall (fun c => c = 0) yc ->
       l_two_rel e = NaN) /\
    (Forall (fun t => t = 0) yt -> ~ Forall (fun c => c = 0) yc ->
       l_two_rel e = PInf) /\
    (~ Forall (fun t => t = 0) yt -> l_two_rel e = Fin (l_two e / norm2 yt)).
Proof.
  intros Hlen0 Hne0.
  destruct (Error_init_fields yt yc Hlen0 Hne0) as (e & _ & _ & H & _).
  exists e. split; [exact H|].
  destruct (Error_init_number_fields _ _ _ H) as (_ & _ & Hl & Hrel & _).
  rewrite Hrel, Hl. split; [|split; [|split]].
  - rewrite <- norm2_zero. unfold div.
    destruct (Req_dec_T (norm2 yt) 0) as [E|E].
    + split; [intros _; exact E|]. intros _.
      destruct (Req_dec_T _ 0); [reflexivity|]. destruct (Rlt_dec _ _); reflexivity.
    + split; [discriminate | intros E'; contradiction].
  - intros Hz Hc. unfold div.
    destruct (Req_dec_T (norm2 yt) 0) as [_|E];
      [|exfalso; apply E, norm2_zero; exact Hz].
    destruct (Req_dec_T (norm2 (vsub yt yc)) 0) as [_|E]; [reflexivity|].
    exfalso. apply E, norm2_zero, vsub_from_zeros; assumption.
  - intros Hz Hc. unfold div.
    destruct (Req_dec_T (norm2 yt) 0) as [_|E];
      [|exfalso; apply E, norm2_zero; exact Hz].
    destruct (Req_dec_T (norm2 (vsub yt yc)) 0) as [E|E].
    + exfalso. apply Hc. apply (vsub_from_zeros yt yc Hlen0 Hz), norm2_zero. exact E.
    + pose proof (norm2_nonneg (vsub yt yc)).
      destruct (Rlt_dec 0 (norm2 (vsub yt yc))); [reflexivity | exfalso; lra].
  - intros Hn. unfold div.
    destruct (Req_dec_T (norm2 yt) 0) as [E|E]; [|reflexivity].
    exfalso. apply Hn, norm2_zero. exact E.
Qed.

End ErrorExtras.

(** ** The label and the range of the probabilities *)

Section GateExtras.
Import Np Gate.
Variable pdf : Gaussian -> vec -> R.
Variable np_linalg_inv : matrix -> matrix.

Lemma index_of_first (m : R) (l : vec) i :
  index_of m l = Some i ->
  forall j p, (j < i)%nat -> nth_error l j = Some p -> p <> m.
Proof.
  revert i; induction l as [|q l IH]; intros i Hi j p Hj Hn; [discriminate|].
  simpl in Hi. destruct (Req_dec_T q m) as [E|E].
  - inversion Hi; subst. lia.
  - destruct (index_of m l) as [i'|] eqn:Ei; [|discriminate].
    inversion Hi; subst. destruct j as [|j]; simpl in Hn.
    + inversion Hn; subst. exact E.
    + apply (IH i' eq_refl j p); [lia | exact Hn].
Qed.

Lemma max_list_fold_ge (rest : vec) :
  forall first,
    first <= fold_left (fun m item => if Rlt_dec m item then item else m) rest first.
Proof.
  induction rest as [|q rest IH]; intros first; simpl; [lra|].
  eapply Rle_trans; [|apply IH]. destruct (Rlt_dec first q); lra.
Qed.

Lemma max_list_upper (rest : vec) :
  forall first p, In p (first :: rest) -> p <= max_list first rest.
Proof.
  unfold max_list. induction rest as [|q rest IH]; intros first p Hin.
  - destruct Hin as [->|[]]. simpl. lra.
  - simpl. destruct Hin as [->|[->|Hin]].
    + eapply Rle_trans; [|apply max_list_fold_ge]. destruct (Rlt_dec p q); lra.
    + eapply Rle_trans; [|apply max_list_fold_ge]. destruct (Rlt_dec first p); lra.
    + apply IH. right. exact Hin.
Qed.

(** X11. The hard label of one sample is the first position of the largest
    probability (a later equal probability does not win), and each
    density is evaluated once, in the order of the clusters. *)
Theorem proba_cluster_one_sample_label
  (weight : vec) (gauss_list : list Gaussian) (x : vec) (log : list event) :
  length gauss_list = length weight -> weight <> [] ->
  exists prob clus m,
    _proba_cluster_one_sample pdf weight gauss_list x log =
      (Ok (prob, clus), log ++ pdf_events gauss_list x) /\
    length prob = length weight /\
    nth_error prob clus = Some m /\
    (forall p, In p prob -> p <= m) /\
    (forall i p, (i < clus)%nat -> nth_error prob i = Some p -> p < m).
Proof.
  intros Hlen Hne. unfold _proba_cluster_one_sample, bind.
  pose proof (proba_loop_spec pdf x weight [] gauss_list 0 [] log Hlen) as Hloop.
  simpl in Hloop. rewrite Hloop.
  fold (sum (gate_values pdf weight gauss_list x)).
  fold (gate_probabilities pdf weight gauss_list x).
  pose proof (gate_probabilities_length pdf weight gauss_list x Hlen) as Hl.
  destruct (gate_probabilities pdf weight gauss_list x) as [|p0 ps] eqn:E.
  - destruct weight; [contradiction | discriminate].
  - destruct (index_of_in (max_list p0 ps) (p0 :: ps) (max_list_in ps p0))
      as (i & Hi & Hn).
    exists (p0 :: ps), i, (max_list p0 ps). rewrite Hi. unfold ret.
    split; [reflexivity|]. split; [exact Hl|]. split; [exact Hn|]. split.
    + intros p Hp. apply max_list_upper. exact Hp.
    + intros j p Hj Hp.
      assert (Hle : p <= max_list p0 ps)
        by (apply max_list_upper; apply (nth_error_In _ _ Hp)).
      pose proof (index_of_first _ _ _ Hi j p Hj Hp). lra.
Qed.

Lemma gate_values_nonneg weight gauss_list x :
  (forall g y, 0 <= pdf g y) -> Forall (fun w => 0 <= w) weight ->
  Forall (fun u => 0 <= u) (gate_values pdf weight gauss_list x).
Proof.
  intros Hpdf Hw. unfold gate_values. revert gauss_list.
  induction Hw as [|w weight Hw0 _ IH]; intros [|g gl]; simpl; constructor.
  - apply Rmult_le_pos; [exact Hw0 | apply Hpdf].
  - apply IH.
Qed.

Lemma sum_bounds_terms (l : vec) :
  Forall (fun u => 0 <= u) l -> Forall (fun u => u <= sum l) l /\ 0 <= sum l.
Proof.
  unfold sum. induction 1 as [|u l Hu _ [IH1 IH2]]; simpl.
  - split; [constructor | lra].
  - rewrite fold_plus_shift. split; [|lra]. constructor; [lra|].
    eapply Forall_impl; [|exact IH1]. cbv beta. intros a Ha. lra.
Qed.

(** X12. With non-negative weights and densities and a non-zero sum, the
    probabilities of a sample lie between 0 and 1, and the probability of
    the hard label is at least [1 / K]. *)
Theorem proba_cluster_one_sample_range
  (weight : vec) (gauss_list : list Gaussian) (x : vec) (log : list event) :
  length gauss_list = length weight -> weight <> [] ->
  (forall g y, 0 <= pdf g y) ->
  Forall (fun w => 0 <= w) weight ->
  sum (gate_values pdf weight gauss_list x) <> 0 ->
  exists prob clus m log',
    _proba_cluster_one_sample pdf weight gauss_list x log = (Ok (prob, clus), log') /\
    Forall (fun p => 0 <= p <= 1) prob /\
    nth_error prob clus = Some m /\
    1 <= INR (length weight) * m.
Proof.
  intros Hlen Hne Hpdf Hw Hsum.
  destruct (proba_cluster_one_sample_spec pdf weight gauss_list x log Hlen Hne)
    as (clus & m & Hres & Hn & Hmax).
  exists (gate_probabilities pdf weight gauss_list x), clus, m,
         (log ++ pdf_events gauss_list x).
  split; [exact Hres|].
  pose proof (gate_probabilities_length pdf weight gauss_list x Hlen) as Hl.
  pose proof (sum_normalised (gate_values pdf weight gauss_list x) Hsum) as Hone.
  revert Hn Hmax Hl Hone. unfold gate_probabilities.
  destruct (Req_dec_T _ 0) as [E|_]; [contradiction|].
  set (vals := gate_values pdf weight gauss_list x) in *.
  set (prob := map (fun u => u / sum vals) vals).
  intros Hn Hmax Hl Hone.
  destruct (sum_bounds_terms vals (gate_values_nonneg weight gauss_list x Hpdf Hw))
    as [Hle Hs0].
  assert (Hs : 0 < sum vals) by lra.
  split; [|split; [exact Hn|]].
  - apply Forall_forall. intros p Hp. apply in_map_iff in Hp.
    destruct Hp as (u & <- & Hu).
    rewrite Forall_forall in Hle. specialize (Hle u Hu).
    pose proof (gate_values_nonneg weight gauss_list x Hpdf Hw) as Hnn.
    rewrite Forall_forall in Hnn. specialize (Hnn u Hu).
    split.
    + apply Rmult_le_pos; [exact Hnn | apply Rlt_le, Rinv_0_lt_compat, Hs].
    + apply (Rmult_le_reg_r (sum vals)); [exact Hs|].
      unfold Rdiv. rewrite Rmult_assoc, Rinv_l, Rmult_1_r, Rmult_1_l by lra. exact Hle.
  - rewrite <- Hl, <- Hone. clear - Hmax.
    induction Hmax as [|p l Hp _ IH]; [unfold sum; simpl; lra|].
    unfold sum in *. cbn [length fold_left]. rewrite fold_plus_shift, S_INR. lra.
Qed.

End GateExtras.

(** ** The derivative of the probabilities *)

Section GradientExtras.
Import Np Gate Nd.
Variable pdf : Gaussian -> vec -> R.
Variable np_linalg_inv : matrix -> matrix.

Lemma nth_map2 (f : R -> R -> R) (v w : vec) i :
  (i < length v)%nat -> (i < length w)%nat ->
  nth i (map2 f v w) 0 = f (nth i v 0) (nth i w 0).
Proof.
  revert w i; induction v as [|a v IH]; intros [|b w] [|i] Hv Hw;
    simpl in *; try lia; auto.
  apply IH; lia.
Qed.

Lemma nth_map_in (f : R -> R) (v : vec) i :
  (i < length v)%nat -> nth i (map f v) 0 = f (nth i v 0).
Proof.
  revert i; induction v as [|a v IH]; intros [|i] Hv; simpl in *; try lia; auto.
  apply IH; lia.
Qed.

Lemma length_map2_eq (f : R -> R -> R) (v w : vec) d :
  length v = d -> length w = d -> length (map2 f v w) = d.
Proof.
  intros <- Hw. revert w Hw; induction v as [|a v IH]; intros [|b w] Hw;
    simpl in *; try discriminate; auto.
Qed.

Lemma shaped_binop f d a b :
  shaped d a -> shaped d b -> shaped d (nd_binop f a b).
Proof.
  destruct a, b; simpl; auto; intros Ha Hb;
    rewrite ?length_map; auto. apply length_map2_eq; auto.
Qed.

Lemma coord_binop f d a b i :
  shaped d a -> shaped d b -> (i < d)%nat ->
  coord i (nd_binop f a b) = f (coord i a) (coord i b).
Proof.
  destruct a as [r|v], b as [s|w]; simpl; intros Ha Hb Hi; auto.
  - apply (nth_map_in (fun t => f r t)). lia.
  - apply (nth_map_in (fun t => f t s)). lia.
  - apply nth_map2; lia.
Qed.

(* The direction of cluster [g] at [x]: [(x - mean) . inv(cov)]. *)
Local Abbreviation der g x :=
  (np_dot (vsub x (g_mean g)) (np_linalg_inv (g_cov g))).

Lemma derive_loop1_spec (x : vec) (d : nat) (weight : vec) :
  forall (pre suf : list Gaussian) v vprime log,
    length suf = length weight ->
    Forall (fun g => length (der g x) = d) suf ->
    shaped d vprime ->
    exists vprime',
      derive_loop1 pdf np_linalg_inv weight (pre ++ suf) (length pre) x v vprime log =
        (Ok (v + sum (gate_values pdf weight suf x), vprime'),
         log ++ concat (map (fun g => [PdfEval g x; PdfEval g x]) suf)) /\
      shaped d vprime' /\
      forall i, (i < d)%nat ->
        coord i vprime' =
        coord i vprime -
        sum (map2 (fun w g => w * pdf g x * nth i (der g x) 0) weight suf).
Proof.
  induction weight as [|w weight IH]; intros pre suf v vprime log Hlen Hsh Hvp.
  - destruct suf; [|discriminate]. exists vprime. simpl. unfold ret, sum. simpl.
    rewrite app_nil_r, Rplus_0_r. split; [reflexivity|]. split; [exact Hvp|].
    intros; lra.
  - destruct suf as [|g suf]; [discriminate|].
    pose proof (Forall_inv Hsh) as Hg. pose proof (Forall_inv_tail Hsh) as Hsuf.
    cbv beta in Hg.
    cbn [derive_loop1]. rewrite nth_error_app2, Nat.sub_diag by lia. cbn [nth_error].
    cbv [bind eval_pdf emit ret].
    replace (pre ++ g :: suf) with ((pre ++ [g]) ++ suf)
      by (rewrite <- app_assoc; reflexivity).
    replace (S (length pre)) with (length (pre ++ [g]))
      by (rewrite length_app; simpl; lia).
    set (vp1 := nd_binop Rminus vprime
                  (Ar (map (Rmult (w * pdf g x))
                           (np_dot (vsub x (g_mean g)) (np_linalg_inv (g_cov g)))))).
    assert (Hterm : shaped d (Ar (map (Rmult (w * pdf g x)) (der g x))))
      by (simpl; rewrite length_map; exact Hg).
    assert (Hvp1 : shaped d vp1) by (apply shaped_binop; assumption).
    destruct (IH (pre ++ [g]) suf (v + w * pdf g x) vp1
                 ((log ++ [PdfEval g x]) ++ [PdfEval g x]))
      as (vprime' & Hres & Hs' & Hc); [simpl in Hlen; lia | exact Hsuf | exact Hvp1 |].
    exists vprime'. rewrite Hres. split; [|split; [exact Hs'|]].
    + unfold gate_values. cbn [map2 map concat]. rewrite sum_cons.
      rewrite <- !app_assoc. cbn [app]. f_equal. f_equal. f_equal.
      unfold gate_values. lra.
    + intros i Hi. rewrite (Hc i Hi). cbn [map2]. rewrite sum_cons.
      unfold vp1. rewrite (coord_binop Rminus d) by assumption.
      cbn [coord]. rewrite nth_map_in by lia. lra.
Qed.

Lemma derive_loop2_spec (x : vec) (d : nat) (v : R) (vprime : nd) (weight : vec) :
  forall (pre suf : list Gaussian) log,
    length suf = length weight ->
    Forall (fun g => length (der g x) = d) suf ->
    shaped d vprime ->
    exists ds,
      derive_loop2 pdf np_linalg_inv weight (pre ++ suf) (length pre) x v vprime log =
        (Ok ds, log ++ pdf_events suf x) /\
      length ds = length weight /\
      Forall (shaped d) ds /\
      forall i, (i < d)%nat ->
        sum (map (coord i) ds) =
        (- v * sum (map2 (fun w g => w * pdf g x * nth i (der g x) 0) weight suf)
         - sum (gate_values pdf weight suf x) * coord i vprime) / v ^ 2.
Proof.
  induction weight as [|w weight IH]; intros pre suf log Hlen Hsh Hvp.
  - destruct suf; [|discriminate]. exists []. simpl. unfold ret, sum. simpl.
    rewrite app_nil_r. split; [reflexivity|]. split; [reflexivity|].
    split; [constructor|]. intros. unfold Rdiv. ring.
  - destruct suf as [|g suf]; [discriminate|].
    pose proof (Forall_inv Hsh) as Hg. pose proof (Forall_inv_tail Hsh) as Hsuf.
    cbv beta in Hg.
    cbn [derive_loop2]. rewrite nth_error_app2, Nat.sub_diag by lia. cbn [nth_error].
    cbv [eval_pdf emit ret]. unfold bind at 1. unfold bind at 1. cbv beta iota.
    replace (pre ++ g :: suf) with ((pre ++ [g]) ++ suf)
      by (rewrite <- app_assoc; reflexivity).
    replace (S (length pre)) with (length (pre ++ [g]))
      by (rewrite length_app; simpl; lia).
    destruct (IH (pre ++ [g]) suf (log ++ [PdfEval g x]))
      as (ds & Hres & Hl & Hds & Hc); [simpl in Hlen; lia | exact Hsuf | exact Hvp |].
    unfold bind. rewrite Hres.
    set (u := w * pdf g x).
    set (dk := nd_binop Rdiv
                 (nd_binop Rminus
                    (nd_binop Rmult (Sc v)
                       (Ar (map (Rmult (- u))
                              (np_dot (vsub x (g_mean g)) (np_linalg_inv (g_cov g))))))
                    (nd_binop Rmult (Sc u) vprime))
                 (Sc (v ^ 2))).
    assert (Hup : shaped d (Ar (map (Rmult (- u)) (der g x))))
      by (simpl; rewrite length_map; exact Hg).
    assert (Hdk : shaped d dk).
    { unfold dk. repeat apply shaped_binop; simpl; auto. }
    exists (dk :: ds). split; [|split; [|split]].
    + unfold pdf_events. cbn [map]. rewrite <- app_assoc. reflexivity.
    + simpl. lia.
    + constructor; assumption.
    + intros i Hi. cbn [map map2]. rewrite !sum_cons. rewrite (Hc i Hi).
      unfold gate_values. cbn [map2]. rewrite sum_cons. fold u.
      unfold dk.
      rewrite (coord_binop Rdiv d), (coord_binop Rminus d),
              (coord_binop Rmult d), (coord_binop Rmult d);
        try assumption; try exact I;
        try (repeat apply shaped_binop; simpl; auto).
      cbn [coord]. rewrite nth_map_in by lia.
      unfold gate_values. unfold Rdiv. ring.
Qed.

(** X13. For one sample the derivatives of the membership probabilities of
    all clusters add up to zero in every coordinate (the probabilities
    add up to one), and each density is evaluated three times. *)
Theorem derive_proba_cluster_one_sample_sums_to_zero
  (weight : vec) (gauss_list : list Gaussian) (x : vec) (d : nat)
  (log : list event) :
  length gauss_list = length weight ->
  Forall (fun g =>
            length (np_dot (vsub x (g_mean g)) (np_linalg_inv (g_cov g))) = d)
         gauss_list ->
  sum (gate_values pdf weight gauss_list x) <> 0 ->
  exists derive_prob,
    _derive_proba_cluster_one_sample pdf np_linalg_inv weight gauss_list x log =
      (Ok derive_prob, log ++ derive_events gauss_list x) /\
    length derive_prob = length weight /\
    Forall (shaped d) derive_prob /\
    forall i, (i < d)%nat -> sum (map (coord i) derive_prob) = 0.
Proof.
  intros Hlen Hsh Hsum. unfold _derive_proba_cluster_one_sample, bind.
  destruct (derive_loop1_spec x d weight [] gauss_list 0 (Sc 0) log Hlen Hsh I)
    as (vprime & H1 & Hvp & Hc1).
  cbn [app length] in H1. rewrite H1.
  destruct (derive_loop2_spec x d (0 + sum (gate_values pdf weight gauss_list x))
              vprime weight [] gauss_list
              (log ++ concat (map (fun g => [PdfEval g x; PdfEval g x]) gauss_list))
              Hlen Hsh Hvp)
    as (ds & H2 & Hl & Hds & Hc2).
  cbn [app length] in H2. rewrite H2.
  exists ds. split; [|split; [exact Hl | split; [exact Hds|]]].
  - unfold derive_events. rewrite <- app_assoc. reflexivity.
  - intros i Hi. rewrite (Hc2 i Hi), (Hc1 i Hi). cbn [coord].
    unfold Rdiv. ring.
Qed.

End GradientExtras.

(** ** The two recombinations *)

Section RecombinerExtras.
Import Np ErrorReport Gate MOE Recombination.
Variable SM : Type.
Variable sm_predict_values : SM -> matrix -> vec.
Variable pdf : Gaussian -> vec -> R.

Lemma proba_one_sample_full weight gauss_list x log :
  length gauss_list = length weight -> weight <> [] ->
  exists clus,
    _proba_cluster_one_sample pdf weight gauss_list x log =
      (Ok (gate_probabilities pdf weight gauss_list x, clus),
       log ++ pdf_events gauss_list x) /\
    first_argmax (gate_probabilities pdf weight gauss_list x) clus.
Proof.
  intros Hlen Hne. unfold _proba_cluster_one_sample, bind.
  pose proof (proba_loop_spec pdf x weight [] gauss_list 0 [] log Hlen) as Hloop.
  simpl in Hloop. rewrite Hloop.
  fold (sum (gate_values pdf weight gauss_list x)).
  fold (gate_probabilities pdf weight gauss_list x).
  pose proof (gate_probabilities_length pdf weight gauss_list x Hlen) as Hl.
  destruct (gate_probabilities pdf weight gauss_list x) as [|p0 ps] eqn:E.
  - destruct weight; [contradiction | discriminate].
  - destruct (index_of_in (max_list p0 ps) (p0 :: ps) (max_list_in ps p0))
      as (i & Hi & Hn).
    exists i. rewrite Hi. unfold ret. split; [reflexivity|].
    exists (max_list p0 ps). split; [exact Hn|]. split.
    + intros p Hp. apply max_list_upper. exact Hp.
    + intros j p Hj Hp.
      assert (Hle : p <= max_list p0 ps)
        by (apply max_list_upper; apply (nth_error_In _ _ Hp)).
      pose proof (index_of_first _ _ _ Hi j p Hj Hp). lra.
Qed.

Lemma proba_cluster_loop_full n weight gauss_list (x : matrix) :
  n <> 1%nat -> length gauss_list = length weight -> weight <> [] ->
  forall log,
  exists clus,
    proba_cluster_loop pdf n weight gauss_list x log =
      (Ok (map (gate_probabilities pdf weight gauss_list) x, clus),
       log ++ concat (map (pdf_events gauss_list) x)) /\
    Forall2 (fun xi c => first_argmax (gate_probabilities pdf weight gauss_list xi) c)
            x clus.
Proof.
  intros Hn Hlen Hne. apply Nat.eqb_neq in Hn.
  induction x as [|xi x IH]; intros log.
  - exists []. simpl. unfold ret. rewrite app_nil_r. split; [reflexivity | constructor].
  - simpl. rewrite Hn.
    destruct (proba_one_sample_full weight gauss_list xi log Hlen Hne) as (c & Hone & Hc).
    destruct (IH (log ++ pdf_events gauss_list xi)) as (clus & Hrest & Hl).
    exists (c :: clus). unfold bind at 1. rewrite Hone.
    unfold bind. rewrite Hrest. unfold ret. rewrite <- app_assoc.
    split; [reflexivity | constructor; assumption].
Qed.

Lemma first_value_local m xi :
  sm_predict_values m [xi] <> [] ->
  first_value (sm_predict_values m [xi]) = Ok (local_value sm_predict_values m xi).
Proof.
  unfold first_value, index, local_value, vec, matrix.
  destruct (sm_predict_values m [xi]); [contradiction | reflexivity].
Qed.

Lemma smooth_inner_spec (xi : vec) (models : list SM) :
  forall j proba acc,
    (forall m, In m models -> sm_predict_values m [xi] <> []) ->
    (length models <= length proba - j)%nat ->
    smooth_inner sm_predict_values models j xi proba acc =
    Ok (fold_left Rplus
          (map2 (fun m p => local_value sm_predict_values m xi * p) models (skipn j proba)) acc).
Proof.
  induction models as [|m models IH]; intros j proba acc Hp Hl; [reflexivity|].
  cbn [smooth_inner length] in *.
  rewrite first_value_local by (apply Hp; left; reflexivity). cbn [rbind].
  unfold index.
  destruct (nth_error proba j) as [w|] eqn:Ej.
  2:{ apply nth_error_None in Ej. lia. }
  cbn [rbind]. rewrite IH; [|intros m' Hm'; apply Hp; right; exact Hm' | lia].
  assert (Es : skipn j proba = w :: skipn (S j) proba).
  { clear - Ej. revert j Ej. induction proba as [|q proba IHp]; intros [|j] Ej;
      try discriminate.
    - inversion Ej; reflexivity.
    - simpl in Ej. apply IHp in Ej. exact Ej. }
  rewrite Es. reflexivity.
Qed.

Lemma weighted_mean_bounds (lo hi : R) (vals prob : vec) :
  length vals = length prob ->
  Forall (fun v => lo <= v <= hi) vals ->
  Forall (fun p => 0 <= p) prob ->
  lo * sum prob <= sum (map2 Rmult vals prob) <= hi * sum prob.
Proof.
  unfold sum. revert prob; induction vals as [|v vals IH]; intros [|p prob] Hl Hv Hp;
    try discriminate.
  - simpl. lra.
  - cbn [map2 fold_left].
    rewrite (fold_plus_shift prob), (fold_plus_shift (map2 Rmult vals prob)).
    pose proof (Forall_inv Hv) as Hv0. pose proof (Forall_inv Hp) as Hp0.
    cbv beta in Hv0, Hp0.
    specialize (IH prob ltac:(simpl in Hl; lia) (Forall_inv_tail Hv) (Forall_inv_tail Hp)).
    nra.
Qed.


Lemma gate_probabilities_nonneg weight gauss_list xi :
  (forall g y, 0 <= pdf g y) -> Forall (fun w => 0 <= w) weight ->
  Forall (fun p => 0 <= p) (gate_probabilities pdf weight gauss_list xi).
Proof.
  intros Hpdf Hw.
  pose proof (gate_values_nonneg pdf weight gauss_list xi Hpdf Hw) as Hv.
  unfold gate_probabilities. destruct (Req_dec_T _ 0) as [_|Hs]; [exact Hv|].
  destruct (sum_bounds_terms _ Hv) as [_ Hs0].
  apply Forall_forall. intros p Hp. apply in_map_iff in Hp.
  destruct Hp as (u & <- & Hu). rewrite Forall_forall in Hv.
  apply Rmult_le_pos; [apply Hv; exact Hu|].
  apply Rlt_le, Rinv_0_lt_compat. lra.
Qed.

Lemma map2_map_l {X Y Z W} (f : Y -> Z -> W) (g : X -> Y) l1 l2 :
  map2 f (map g l1) l2 = map2 (fun a b => f (g a) b) l1 l2.
Proof.
  revert l2; induction l1 as [|a l1 IH]; intros [|b l2]; simpl; auto.
  rewrite IH; reflexivity.
Qed.

Lemma smooth_loop_spec (ml : list SM) weight gauss_list (x : matrix) :
  length gauss_list = length weight ->
  length ml = length weight ->
  (forall m xi, In m ml -> In xi x -> sm_predict_values m [xi] <> []) ->
  smooth_loop sm_predict_values ml
              (map (gate_probabilities pdf weight gauss_list) x) x =
  Ok (map (smooth_value sm_predict_values pdf ml weight gauss_list) x).
Proof.
  intros Hg Hm Hp. induction x as [|xi x IH]; [reflexivity|].
  cbn [map smooth_loop].
  rewrite smooth_inner_spec.
  - cbn [rbind skipn]. rewrite IH; [reflexivity|].
    intros m xi' Hin Hx. apply Hp; [exact Hin | right; exact Hx].
  - intros m Hin. apply Hp; [exact Hin | left; reflexivity].
  - rewrite gate_probabilities_length by exact Hg. lia.
Qed.

(** X14. With at least two clusters and one local model per cluster, the
    smooth output at a sample is the sum of the local predictions weighted
    by the membership probabilities; it lies between two bounds of the
    local predictions when the weights and densities are non-negative and
    their sum is not zero. *)
Theorem predict_smooth_output_weighted_mean
  (self : MOE SM) (x : matrix) (log : list event) :
  (2 <= length (weights_ (cluster self)))%nat ->
  length (gauss self) = length (weights_ (cluster self)) ->
  length (model_list self) = length (weights_ (cluster self)) ->
  (forall m xi, In m (model_list self) -> In xi x ->
                sm_predict_values m [xi] <> []) ->
  _predict_smooth_output sm_predict_values pdf self x log =
    (Ok (map (smooth_value sm_predict_values pdf (model_list self) (weights_ (cluster self)) (gauss self)) x),
     log ++ concat (map (pdf_events (gauss self)) x)) /\
  forall xi lo hi,
    (forall g y, 0 <= pdf g y) ->
    Forall (fun w => 0 <= w) (weights_ (cluster self)) ->
    sum (gate_values pdf (weights_ (cluster self)) (gauss self) xi) <> 0 ->
    (forall m, In m (model_list self) -> lo <= local_value sm_predict_values m xi <= hi) ->
    lo <= smooth_value sm_predict_values pdf (model_list self) (weights_ (cluster self)) (gauss self) xi
       <= hi.
Proof.
  intros HK Hg Hm Hp. split.
  - unfold _predict_smooth_output, proba_cluster, bind.
    destruct (proba_cluster_loop_full (length (weights_ (cluster self)))
                (weights_ (cluster self)) (gauss self) x) with (log := log)
      as (clus & Hres & _); [lia | exact Hg | |].
    { intros E. rewrite E in HK. simpl in HK. lia. }
    rewrite Hres. unfold lift. rewrite smooth_loop_spec by assumption. reflexivity.
  - intros xi lo hi Hpdf Hw Hsum Hb.
    pose proof (gate_probabilities_nonneg _ (gauss self) xi Hpdf Hw) as Hnn.
    pose proof (gate_probabilities_length pdf _ _ xi Hg) as Hl.
    assert (Hone : sum (gate_probabilities pdf (weights_ (cluster self)) (gauss self) xi) = 1).
    { unfold gate_probabilities. destruct (Req_dec_T _ 0); [contradiction|].
      apply sum_normalised. exact Hsum. }
    unfold smooth_value.
    rewrite <- (map2_map_l Rmult (fun m => local_value sm_predict_values m xi)).
    pose proof (weighted_mean_bounds lo hi (map (fun m => local_value sm_predict_values m xi) (model_list self))
                  (gate_probabilities pdf (weights_ (cluster self)) (gauss self) xi)) as Hwm.
    rewrite Hone in Hwm. rewrite !Rmult_1_r in Hwm. apply Hwm.
    + rewrite length_map, Hl. exact Hm.
    + apply Forall_forall. intros v Hv. apply in_map_iff in Hv.
      destruct Hv as (m & <- & Hin). apply Hb. exact Hin.
    + exact Hnn.
Qed.

Lemma first_argmax_lt prob c : first_argmax prob c -> (c < length prob)%nat.
Proof.
  intros (m & Hn & _). apply nth_error_Some. rewrite Hn. discriminate.
Qed.

Lemma hard_loop_spec (ml : list SM) (prob : vec -> vec) (x : matrix) clus :
  (forall xi, length (prob xi) = length ml) ->
  (forall m xi, In m ml -> In xi x -> sm_predict_values m [xi] <> []) ->
  Forall2 (fun xi c => first_argmax (prob xi) c) x clus ->
  exists ys,
    hard_loop sm_predict_values ml clus x = Ok ys /\
    Forall2 (fun xi yi =>
               exists c m, first_argmax (prob xi) c /\
                           nth_error ml c = Some m /\
                           yi = local_value sm_predict_values m xi) x ys.
Proof.
  intros Hl Hp HF. induction HF as [|xi c x clus Hc HF IH].
  - exists []. split; [reflexivity | constructor].
  - destruct IH as (ys & Hys & HF2).
    { intros m xi' Hin Hx. apply Hp; [exact Hin | right; exact Hx]. }
    pose proof (first_argmax_lt _ _ Hc) as Hlt. rewrite Hl in Hlt.
    destruct (nth_error ml c) as [m|] eqn:Em.
    2:{ apply nth_error_None in Em. lia. }
    cbn [hard_loop]. unfold index. rewrite Em. cbn [rbind].
    rewrite first_value_local
      by (apply Hp; [apply (nth_error_In _ _ Em) | left; reflexivity]).
    cbn [rbind]. rewrite Hys. cbn [rbind].
    exists (local_value sm_predict_values m xi :: ys). split; [reflexivity|].
    constructor; [|exact HF2]. exists c, m. auto.
Qed.

(** X15. With at least two clusters and one local model per cluster, the hard
    output at a sample is the prediction of a single local model: the one
    of the first cluster with the largest membership probability. *)
Theorem predict_hard_output_argmax
  (self : MOE SM) (x : matrix) (log : list event) :
  (2 <= length (weights_ (cluster self)))%nat ->
  length (gauss self) = length (weights_ (cluster self)) ->
  length (model_list self) = length (weights_ (cluster self)) ->
  (forall m xi, In m (model_list self) -> In xi x ->
                sm_predict_values m [xi] <> []) ->
  exists ys,
    _predict_hard_output sm_predict_values pdf self x log =
      (Ok ys, log ++ concat (map (pdf_events (gauss self)) x)) /\
    Forall2 (fun xi yi =>
               exists c m,
                 first_argmax
                   (gate_probabilities pdf (weights_ (cluster self)) (gauss self) xi) c /\
                 nth_error (model_list self) c = Some m /\
                 yi = local_value sm_predict_values m xi) x ys.
Proof.
  intros HK Hg Hm Hp.
  unfold _predict_hard_output, proba_cluster, bind.
  destruct (proba_cluster_loop_full (length (weights_ (cluster self)))
              (weights_ (cluster self)) (gauss self) x) with (log := log)
    as (clus & Hres & HF); [lia | exact Hg | |].
  { intros E. rewrite E in HK. simpl in HK. lia. }
  rewrite Hres. unfold lift.
  destruct (hard_loop_spec (model_list self)
              (gate_probabilities pdf (weights_ (cluster self)) (gauss self)) x clus)
    as (ys & Hys & HF2); [|exact Hp | exact HF |].
  { intros xi. rewrite gate_probabilities_length by exact Hg. symmetry. exact Hm. }
  exists ys. rewrite Hys. split; [reflexivity | exact HF2].
Qed.

End RecombinerExtras.

(** ** The search of the best model *)

Section SelectorExtras.
Import Np ErrorReport Gate MOE.
Variables SMClass SM : Type.
Variable sm_new : SMClass -> SM.
Variable sm_name : SM -> string.
Variable sm_train : SM -> matrix -> vec -> result SM.
Variable sm_predict_values : SM -> matrix -> vec.
Variable iteritems : list (string * R) -> list (string * R).
Variable _surrogate_type : list (string * SMClass).

(** X17. Search exhaustion: when the catalog is empty or holds only excluded
    types, no model is scored and the lookup of the best name raises
    KeyError. *)
Theorem find_best_model_no_candidate (self : MOE SM) (group : matrix) :
  (forall d, Permutation (iteritems d) d) ->
  qualifying _surrogate_type = [] ->
  _find_best_model sm_new sm_name sm_train sm_predict_values iteritems
                   _surrogate_type self group = Raise KeyError.
Proof.
  intros Hperm Hq. unfold _find_best_model.
  rewrite (find_loop_spec _ _ sm_new sm_name sm_train sm_predict_values
             self group _surrogate_type [] [] []) by (rewrite Hq; constructor).
  cbn [rbind fold_left]. unfold best_of.
  pose proof (Hperm []) as Hp. apply Permutation_sym, Permutation_nil in Hp.
  rewrite Hp. reflexivity.
Qed.

Lemma find_loop_empty_group (self : MOE SM) catalog :
  qualifying catalog <> [] ->
  forall rmses sms,
    find_loop sm_new sm_name sm_train sm_predict_values self [] catalog rmses sms
    = Raise IndexError.
Proof.
  induction catalog as [|[name cls] cat IH]; intros Hq rmses sms; [contradiction|].
  cbn [find_loop]. unfold qualifying in Hq. cbn [filter fst] in Hq.
  destruct (excluded name); cbn [negb] in Hq; [apply IH; exact Hq | reflexivity].
Qed.

(** X18. An empty group stops the search at the first candidate that is not
    excluded: slicing the empty array raises IndexError before any model
    is trained. *)
Theorem find_best_model_empty_group (self : MOE SM) :
  qualifying _surrogate_type <> [] ->
  _find_best_model sm_new sm_name sm_train sm_predict_values iteritems
                   _surrogate_type self [] = Raise IndexError.
Proof.
  intros Hq. unfold _find_best_model.
  rewrite find_loop_empty_group by exact Hq. reflexivity.
Qed.

(** Whatever the catalog, the search on an empty group raises. *)
Lemma find_best_model_empty_raises (self : MOE SM) :
  exists e,
    _find_best_model sm_new sm_name sm_train sm_predict_values iteritems
                     _surrogate_type self [] = Raise e.
Proof.
  unfold _find_best_model.
  destruct (qualifying _surrogate_type) as [|q qs] eqn:Eq.
  - rewrite (find_loop_spec _ _ sm_new sm_name sm_train sm_predict_values
               self [] _surrogate_type [] [] []) by (rewrite Eq; constructor).
    cbn [rbind fold_left]. destruct (fst (best_of iteritems [])); eexists; reflexivity.
  - rewrite find_loop_empty_group by (rewrite Eq; discriminate).
    eexists; reflexivity.
Qed.

(** The second loop replaces the best score only by a strictly smaller
    one: [before] holds the items seen before the best one, [after] those
    seen after it. *)
Lemma best_step_fold_first (items : list (string * R)) :
  forall before n r after,
    Forall (fun p => r < snd p) before ->
    Forall (fun p => r <= snd p) after ->
    exists n' r' pre post,
      fold_left best_step items (Some n, Some r) = (Some n', Some r') /\
      before ++ (n, r) :: after ++ items = pre ++ (n', r') :: post /\
      Forall (fun p => r' < snd p) pre /\
      Forall (fun p => r' <= snd p) post.
Proof.
  induction items as [|[n1 r1] items IH]; intros before n r after Hb Ha.
  - exists n, r, before, after. rewrite app_nil_r. repeat split; auto.
  - cbn [fold_left best_step snd]. destruct (Rlt_dec r1 r) as [Hlt|Hge].
    + destruct (IH (before ++ (n, r) :: after) n1 r1 [])
        as (n' & r' & pre & post & Hf & He & H1 & H2).
      * apply Forall_app. split.
        -- eapply Forall_impl; [|exact Hb]. cbv beta. intros; lra.
        -- constructor; [simpl; lra|].
           eapply Forall_impl; [|exact Ha]. cbv beta. intros; lra.
      * constructor.
      * exists n', r', pre, post. split; [exact Hf|]. split; [|auto].
        rewrite <- He. rewrite <- app_assoc. reflexivity.
    + destruct (IH before n r (after ++ [(n1, r1)]))
        as (n' & r' & pre & post & Hf & He & H1 & H2).
      * exact Hb.
      * apply Forall_app. split; [exact Ha|]. constructor; [simpl; lra | constructor].
      * exists n', r', pre, post. split; [exact Hf|]. split; [|auto].
        rewrite <- He. rewrite <- app_assoc. reflexivity.
Qed.

(** X19. Ties: among the scored candidates the one returned is the first, in
    the order [iteritems] goes through the scores, whose score is the
    smallest; a later candidate with an equal score does not replace
    it. *)
Theorem find_best_model_first_minimum
  (self : MOE SM) (group : matrix) (trained : list (SM * R)) :
  (forall d, Permutation (iteritems d) d) ->
  trained <> [] ->
  Forall2 (fun cand t =>
             score_candidate sm_new sm_train sm_predict_values self group
                             (snd cand) = Ok t)
          (qualifying _surrogate_type) trained ->
  NoDup (map (fun t => sm_name (fst t)) trained) ->
  exists best r pre post,
    _find_best_model sm_new sm_name sm_train sm_predict_values iteritems
                     _surrogate_type self group = Ok best /\
    In (best, r) trained /\
    iteritems (map (fun t => (sm_name (fst t), snd t)) trained) =
      pre ++ (sm_name best, r) :: post /\
    Forall (fun p => r < snd p) pre /\
    Forall (fun p => r <= snd p) post.
Proof.
  intros Hperm Hne HF Hnd. unfold _find_best_model.
  rewrite (find_loop_spec _ _ sm_new sm_name sm_train sm_predict_values
             self group _surrogate_type trained [] [] HF).
  cbn [rbind]. rewrite !fold_dict_set_fresh by exact Hnd. cbn [app].
  unfold best_of.
  set (scores := map (fun t => (sm_name (fst t), snd t)) trained).
  pose proof (Hperm scores) as Hp.
  destruct (iteritems scores) as [|[n0 r0] items] eqn:Eit.
  - apply Permutation_nil in Hp. subst scores.
    destruct trained; [contradiction | discriminate].
  - change (fold_left best_step ((n0, r0) :: items) (None, None))
      with (fold_left best_step items (Some n0, Some r0)).
    destruct (best_step_fold_first items [] n0 r0 [])
      as (n & r & pre & post & Hf & He & H1 & H2); [constructor | constructor |].
    cbn [app] in He. rewrite Hf. cbn [fst].
    assert (Hin : In (n, r) scores).
    { apply (Permutation_in _ Hp). rewrite He. apply in_or_app. right; left; reflexivity. }
    apply in_map_iff in Hin. destruct Hin as ([best r'] & E & Hin).
    cbn [fst snd] in E. inversion E; subst n r'.
    rewrite (dict_get_in _ (sm_name best) best).
    + exists best, r, pre, post. repeat split; auto.
    + rewrite map_map. exact Hnd.
    + apply in_map_iff. exists (best, r). auto.
Qed.

End SelectorExtras.

(** ** Inputs of the training and empty clusters *)

Section TrainingExtras.
Import Np ErrorReport Gate MOE.
Variables SMClass SM : Type.
Variable sm_new : SMClass -> SM.
Variable sm_name : SM -> string.
Variable sm_train : SM -> matrix -> vec -> result SM.
Variable sm_predict_values : SM -> matrix -> vec.
Variable gmm_fit : Z -> matrix -> result GMM.
Variable gmm_predict : GMM -> matrix -> list Z.
Variable pdf : Gaussian -> vec -> R.
Variable iteritems : list (string * R) -> list (string * R).
Variable _default_number_cluster :
  nat -> matrix -> matrix -> matrix -> bool -> Z -> M Z.
Variable _surrogate_type : list (string * SMClass).

Lemma length_np_c_ (a b : matrix) :
  length a = length b -> length (np_c_ a b) = length a.
Proof. apply length_map2. Qed.

(** X20. [_apply] checks its inputs before anything else: a missing X or y, or
    numbers of rows that differ, raise ValueError, and so does a dataset
    of fewer than two rows (one of the two parts of the split is empty);
    in each case no external call is made. *)
Theorem apply_input_errors (options : Options) (log : list event) :
  (opt_X options = None \/ opt_y options = None ->
   _apply sm_new sm_name sm_train sm_predict_values gmm_fit gmm_predict pdf
          iteritems _default_number_cluster _surrogate_type options log
     = (Raise (ValueError "Check X, y"), log)) /\
  (forall x y,
     opt_X options = Some x -> opt_y options = Some y ->
     length x <> length y \/
     length y <> length (match opt_c options with Some c => c | None => y end) ->
     exists msg,
       _apply sm_new sm_name sm_train sm_predict_values gmm_fit gmm_predict pdf
              iteritems _default_number_cluster _surrogate_type options log
         = (Raise (ValueError msg), log)) /\
  (forall x y,
     opt_X options = Some x -> opt_y options = Some y ->
     length x = length y ->
     length y = length (match opt_c options with Some c => c | None => y end) ->
     (length x < 2)%nat ->
     _apply sm_new sm_name sm_train sm_predict_values gmm_fit gmm_predict pdf
            iteritems _default_number_cluster _surrogate_type options log
       = (Raise (ValueError "need at least one array to concatenate"), log)).
Proof.
  split; [|split].
  - intros [H|H]; unfold _apply; rewrite H; [reflexivity|].
    destruct (opt_X options); reflexivity.
  - intros x y HX HY Hd. unfold _apply. rewrite HX, HY.
    set (c := match opt_c options with Some c => c | None => y end) in *.
    unfold bind at 1, lift at 1, _check_input_data.
    destruct (Nat.eqb_spec (length x) (length y)) as [Exy|Exy]; cbn [negb];
      [|eexists; reflexivity].
    destruct (Nat.eqb_spec (length y) (length c)) as [Eyc|Eyc]; cbn [negb];
      [|eexists; reflexivity].
    destruct Hd; contradiction.
  - intros x y HX HY Exy Eyc Hlt. unfold _apply. rewrite HX, HY.
    set (c := match opt_c options with Some c => c | None => y end) in *.
    unfold bind at 1, lift at 1, _check_input_data.
    rewrite Exy, Eyc, !Nat.eqb_refl. cbn [negb].
    unfold bind at 1, lift at 1.
    assert (H1 : length (np_c_ x y) = length x) by (apply length_np_c_; exact Exy).
    assert (Hv : (length (np_c_ (np_c_ x y) c) < 2)%nat).
    { rewrite length_np_c_; [rewrite H1; exact Hlt|].
      rewrite H1, Exy. exact Eyc. }
    destruct (np_c_ (np_c_ x y) c) as [|r0 [|r1 rest]]; [reflexivity | reflexivity|].
    simpl in Hv. lia.
Qed.

(** X21. A cluster that received no row is fatal: whenever the partition has
    an empty group among the clusters of the loop, the fitting loop
    raises instead of returning, in both of its modes. *)
Theorem fit_loop_empty_cluster
  (new_model : bool) (dim : nat) (trained_cluster : list matrix)
  (cluses : list nat) (self : MOE SM) (clus : nat) :
  In clus cluses ->
  nth_error trained_cluster clus = Some [] ->
  exists e,
    fit_loop sm_new sm_name sm_train sm_predict_values iteritems _surrogate_type
             new_model dim trained_cluster cluses None self = Raise e.
Proof.
  intros Hin Hempty.
  assert (G : forall cluses model (self : MOE SM),
            In clus cluses ->
            (length _surrogate_type = 1%nat -> model = None) ->
            exists e,
              fit_loop sm_new sm_name sm_train sm_predict_values iteritems
                       _surrogate_type new_model dim trained_cluster cluses
                       model self = Raise e).
  { clear cluses self Hin.
    induction cluses as [|k rest IH]; intros model self Hin Hmodel; [destruct Hin|].
    cbn [fit_loop]. destruct new_model.
    - destruct (Nat.eqb_spec (length _surrogate_type) 1) as [E1|E1].
      + rewrite (Hmodel E1). eexists; reflexivity.
      + destruct (Nat.eq_dec k clus) as [->|Hk].
        * unfold index. rewrite Hempty. cbn [rbind].
          destruct (find_best_model_empty_raises _ _ sm_new sm_name sm_train
                      sm_predict_values iteritems _surrogate_type self) as (e & ->).
          cbn [rbind]. eexists; reflexivity.
        * destruct Hin as [Hin|Hin]; [contradiction|].
          match goal with
          | |- exists _, rbind ?r _ = _ => destruct r as [[m|]|e]
          end; cbn [rbind]; try (eexists; reflexivity).
          apply IH; [exact Hin | intros E; contradiction].
    - destruct (Nat.eq_dec k clus) as [->|Hk].
      + unfold index. rewrite Hempty. cbn [rbind]. eexists; reflexivity.
      + destruct Hin as [Hin|Hin]; [contradiction|].
        destruct (index trained_cluster k) as [[|row tv]|e]; cbn [rbind];
          try (eexists; reflexivity).
        destruct (column dim (row :: tv)); cbn [rbind]; try (eexists; reflexivity).
        destruct (index (model_list self) k); cbn [rbind]; try (eexists; reflexivity).
        destruct (sm_train _ _ _); cbn [rbind]; try (eexists; reflexivity).
        apply IH; [exact Hin | exact Hmodel]. }
  apply G; [exact Hin | reflexivity].
Qed.

End TrainingExtras.

(** ** Batches *)

Section BatchExtras.
Import Np ErrorReport Gate MOE.

Variable pdf : Gaussian -> vec -> R.

Lemma proba_cluster_loop_app n weight gauss_list (x1 x2 : matrix) :
  forall log p1 c1 log1 p2 c2 log2,
    proba_cluster_loop pdf n weight gauss_list x1 log = (Ok (p1, c1), log1) ->
    proba_cluster_loop pdf n weight gauss_list x2 log1 = (Ok (p2, c2), log2) ->
    proba_cluster_loop pdf n weight gauss_list (x1 ++ x2) log
      = (Ok (p1 ++ p2, c1 ++ c2), log2) /\
    length p1 = length x1 /\ length c1 = length x1.
Proof.
  induction x1 as [|xi x1 IH]; intros log p1 c1 log1 p2 c2 log2 H1 H2.
  - cbn in H1. unfold ret in H1. inversion H1; subst. auto.
  - cbn [app proba_cluster_loop] in *. destruct (n =? 1)%nat.
    + unfold bind in *.
      destruct (proba_cluster_loop pdf n weight gauss_list x1 log)
        as [[[p c]|e] l] eqn:E1; [|discriminate].
      unfold ret in H1. inversion H1; subst.
      destruct (IH _ _ _ _ _ _ _ E1 H2) as (-> & Hp & Hc).
      unfold ret. simpl. auto.
    + unfold bind in *.
      destruct (_proba_cluster_one_sample pdf weight gauss_list xi log)
        as [[[pa ca]|e] l0]; [|discriminate].
      destruct (proba_cluster_loop pdf n weight gauss_list x1 l0)
        as [[[p c]|e] l] eqn:E1; [|discriminate].
      unfold ret in H1. inversion H1; subst.
      destruct (IH _ _ _ _ _ _ _ E1 H2) as (-> & Hp & Hc).
      unfold ret. simpl. auto.
Qed.

Variable SM : Type.
Variable sm_predict_values : SM -> matrix -> vec.

Lemma hard_loop_app (ml : list SM) (c1 : list nat) :
  forall (x1 : matrix) c2 x2 y1 y2,
    length c1 = length x1 ->
    hard_loop sm_predict_values ml c1 x1 = Ok y1 ->
    hard_loop sm_predict_values ml c2 x2 = Ok y2 ->
    hard_loop sm_predict_values ml (c1 ++ c2) (x1 ++ x2) = Ok (y1 ++ y2) /\
    length y1 = length x1.
Proof.
  induction c1 as [|c c1 IH]; intros [|xi x1] c2 x2 y1 y2 Hl H1 H2;
    try discriminate.
  - inversion H1; subst. auto.
  - cbn [app hard_loop] in *.
    destruct (index ml c); cbn [rbind] in *; [|discriminate].
    destruct (first_value _); cbn [rbind] in *; [|discriminate].
    destruct (hard_loop sm_predict_values ml c1 x1) as [r|] eqn:E1;
      cbn [rbind] in *; [|discriminate].
    inversion H1; subst.
    destruct (IH x1 c2 x2 r y2 ltac:(simpl in Hl; lia) E1 H2) as [-> Hr].
    cbn [rbind]. simpl. auto.
Qed.

Lemma smooth_loop_app (ml : list SM) (p1 : list vec) :
  forall (x1 : matrix) p2 x2 y1 y2,
    length p1 = length x1 ->
    smooth_loop sm_predict_values ml p1 x1 = Ok y1 ->
    smooth_loop sm_predict_values ml p2 x2 = Ok y2 ->
    smooth_loop sm_predict_values ml (p1 ++ p2) (x1 ++ x2) = Ok (y1 ++ y2) /\
    length y1 = length x1.
Proof.
  induction p1 as [|p p1 IH]; intros [|xi x1] p2 x2 y1 y2 Hl H1 H2;
    try discriminate.
  - inversion H1; subst. auto.
  - cbn [app smooth_loop] in *.
    destruct (smooth_inner _ _ _ _ _ _); cbn [rbind] in *; [|discriminate].
    destruct (smooth_loop sm_predict_values ml p1 x1) as [r|] eqn:E1;
      cbn [rbind] in *; [|discriminate].
    inversion H1; subst.
    destruct (IH x1 p2 x2 r y2 ltac:(simpl in Hl; lia) E1 H2) as [-> Hr].
    cbn [rbind]. simpl. auto.
Qed.

(** X16. The samples of a batch are predicted one after the other and
    independently: the prediction of two batches put end to end is the
    two predictions put end to end, in the order of the input, in the
    hard and in the smooth mode. *)
Theorem predict_values_app
  (self : MOE SM) (x1 x2 : matrix) (y1 y2 : vec) (log log1 log2 : list event) :
  predict_values sm_predict_values pdf self x1 log = (Ok y1, log1) ->
  predict_values sm_predict_values pdf self x2 log1 = (Ok y2, log2) ->
  predict_values sm_predict_values pdf self (x1 ++ x2) log = (Ok (y1 ++ y2), log2) /\
  length y1 = length x1 /\ length y2 = length x2.
Proof.
  assert (G : forall (x1 x2 : matrix) (y1 y2 : vec) log log1 log2,
            predict_values sm_predict_values pdf self x1 log = (Ok y1, log1) ->
            predict_values sm_predict_values pdf self x2 log1 = (Ok y2, log2) ->
            predict_values sm_predict_values pdf self (x1 ++ x2) log
              = (Ok (y1 ++ y2), log2) /\ length y1 = length x1).
  { clear. intros x1 x2 y1 y2 log log1 log2.
    unfold predict_values, _predict_hard_output, _predict_smooth_output,
      proba_cluster, bind, lift.
    destruct (hard self).
    - destruct (proba_cluster_loop pdf _ _ _ x1 log) as [[[p1 c1]|] l1] eqn:E1;
        [|discriminate].
      intros H1. inversion H1 as [[Hh1 Hl1]]. subst l1.
      destruct (proba_cluster_loop pdf _ _ _ x2 log1) as [[[p2 c2]|] l2] eqn:E2;
        [|discriminate].
      intros H2. inversion H2 as [[Hh2 Hl2]]. subst l2.
      destruct (proba_cluster_loop_app _ _ _ _ _ _ _ _ _ _ _ _ E1 E2) as (-> & Hp & Hc).
      destruct (hard_loop_app _ c1 x1 c2 x2 y1 y2 Hc Hh1 Hh2) as [-> Hy].
      auto.
    - destruct (proba_cluster_loop pdf _ _ _ x1 log) as [[[p1 c1]|] l1] eqn:E1;
        [|discriminate].
      intros H1. inversion H1 as [[Hh1 Hl1]]. subst l1.
      destruct (proba_cluster_loop pdf _ _ _ x2 log1) as [[[p2 c2]|] l2] eqn:E2;
        [|discriminate].
      intros H2. inversion H2 as [[Hh2 Hl2]]. subst l2.
      destruct (proba_cluster_loop_app _ _ _ _ _ _ _ _ _ _ _ _ E1 E2) as (-> & Hp & Hc).
      destruct (smooth_loop_app _ p1 x1 p2 x2 y1 y2 Hp Hh1 Hh2) as [-> Hy].
      auto. }
  intros H1 H2. destruct (G x1 x2 y1 y2 log log1 log2 H1 H2) as [E Hy1].
  split; [exact E|]. split; [exact Hy1|].
  pose proof (G x2 [] y2 [] log1 log2 log2 H2) as G2.
  destruct G2 as [_ Hy2]; [|exact Hy2].
  unfold predict_values, _predict_hard_output, _predict_smooth_output,
    proba_cluster, bind, lift. destruct (hard self); reflexivity.
Qed.

End BatchExtras.

(** ** _rmse and create_multivar_normal_dis *)

Section MoreExtras.
Import Np ErrorReport Gate MOE.

Lemma squares_vsub_sym (a b : vec) :
  map (fun t => t * t) (vsub a b) = map (fun t => t * t) (vsub b a).
Proof.
  unfold vsub. revert b; induction a as [|t a IH]; intros [|u b]; simpl; auto.
  rewrite IH. f_equal. ring.
Qed.

(** X27. [_rmse] is never negative, is zero exactly when the two vectors are
    equal, and does not depend on which of the two is the expected one. *)
Theorem rmse_zero_iff_equal (expected actual : vec) :
  length expected = length actual -> expected <> [] ->
  0 <= _rmse expected actual /\
  (_rmse expected actual = 0 <-> expected = actual) /\
  _rmse expected actual = _rmse actual expected.
Proof.
  intros Hlen Hne. unfold _rmse.
  assert (Hn : 0 < INR (length expected)).
  { apply lt_0_INR. destruct expected; [contradiction | simpl; lia]. }
  assert (Hq : 0 <= norm2 (vsub expected actual) ^ 2 / INR (length expected)).
  { apply Rmult_le_pos; [apply pow2_ge_0 | apply Rlt_le, Rinv_0_lt_compat, Hn]. }
  split; [apply sqrt_pos|]. split.
  - rewrite <- (vsub_zero_iff expected actual Hlen), <- norm2_zero. split.
    + intros E. apply sqrt_eq_0 in E; [|exact Hq].
      apply (Rmult_eq_compat_r (INR (length expected))) in E.
      unfold Rdiv in E. rewrite Rmult_assoc, Rinv_l, Rmult_1_r, Rmult_0_l in E by lra.
      simpl in E. rewrite Rmult_1_r in E.
      apply Rmult_integral in E. destruct E; assumption.
    + intros ->. replace (0 ^ 2 / INR (length expected)) with 0
        by (unfold Rdiv; simpl; ring).
      apply sqrt_0.
  - rewrite !norm2_sqr, squares_vsub_sym, Hlen. reflexivity.
Qed.

(** X25. [create_multivar_normal_dis] builds one distribution per mean, the
    mean cut to its first [dim] coordinates and the covariance to its
    first [dim] rows and columns; it raises IndexError when there are
    fewer covariances than means. *)
Theorem create_multivar_normal_dis_restricts
  (dim : nat) (means : matrix) (cov : list matrix) :
  ((length means <= length cov)%nat ->
   exists gauss_array,
     create_multivar_normal_dis dim means cov = Ok gauss_array /\
     length gauss_array = length means /\
     forall k m ck,
       nth_error means k = Some m -> nth_error cov k = Some ck ->
       nth_error gauss_array k =
       Some {| g_mean := firstn dim m;
               g_cov := map (firstn dim) (firstn dim ck) |}) /\
  ((length cov < length means)%nat ->
   create_multivar_normal_dis dim means cov = Raise IndexError).
Proof.
  unfold create_multivar_normal_dis.
  assert (G : forall means k,
            (k <= length cov)%nat ->
            ((k + length means <= length cov)%nat ->
             exists ga,
               create_from dim k means cov = Ok ga /\
               length ga = length means /\
               forall j m ck,
                 nth_error means j = Some m -> nth_error cov (k + j) = Some ck ->
                 nth_error ga j =
                 Some {| g_mean := firstn dim m;
                         g_cov := map (firstn dim) (firstn dim ck) |}) /\
            ((length cov < k + length means)%nat ->
             create_from dim k means cov = Raise IndexError)).
  { clear means. induction means as [|m means IH]; intros k Hk.
    - split.
      + intros _. exists []. split; [reflexivity|]. split; [reflexivity|].
        intros [|j] ? ? H; discriminate.
      + simpl. lia.
    - cbn [create_from length]. destruct (nth_error cov k) as [ck|] eqn:Ek.
      + assert (Hlt : (k < length cov)%nat)
          by (apply nth_error_Some; rewrite Ek; discriminate).
        destruct (IH (S k) Hlt) as [IH1 IH2]. split.
        * intros H. destruct IH1 as (ga & E & Hl & Hn); [lia|].
          rewrite E. cbn [rbind]. eexists. split; [reflexivity|].
          split; [simpl; lia|].
          intros [|j] m' ck' Hm Hc.
          -- rewrite Nat.add_0_r in Hc. rewrite Ek in Hc.
             inversion Hm; inversion Hc; subst. reflexivity.
          -- cbn [nth_error] in *. apply Hn; [exact Hm|].
             replace (S k + j)%nat with (k + S j)%nat by lia. exact Hc.
        * intros H. rewrite IH2 by lia. reflexivity.
      + apply nth_error_None in Ek. split; [lia | reflexivity]. }
  destruct (G means 0%nat ltac:(lia)) as [G1 G2]. split.
  - intros H. destruct (G1 H) as (ga & E & Hl & Hn). exists ga. auto.
  - intros H. apply G2. exact H.
Qed.

End MoreExtras.

(** ** The two passes of _fit_without_clustering *)

Section RefitExtras.
Import Np ErrorReport Gate MOE Refit.
Variables SMClass SM : Type.
Variable sm_new : SMClass -> SM.
Variable sm_name : SM -> string.
Variable sm_train : SM -> matrix -> vec -> result SM.
Variable sm_predict_values : SM -> matrix -> vec.
Variable gmm_predict : GMM -> matrix -> list Z.
Variable iteritems : list (string * R) -> list (string * R).
Variable _surrogate_type : list (string * SMClass).

Lemma nth_error_list_set_eq {A} (l : list A) i a :
  (i < length l)%nat -> nth_error (list_set l i a) i = Some a.
Proof.
  revert i; induction l as [|b l IH]; intros [|i] H; simpl in *; try lia; auto.
  apply IH. lia.
Qed.

Lemma nth_error_list_set_neq {A} (l : list A) i j a :
  i <> j -> nth_error (list_set l i a) j = nth_error l j.
Proof.
  revert i j; induction l as [|b l IH]; intros [|i] [|j] H; simpl; auto; try lia.
Qed.

Lemma fit_loop_refit dim trained_cluster (cluses : list nat) :
  forall model (self self' : MOE SM),
    NoDup cluses ->
    fit_loop sm_new sm_name sm_train sm_predict_values iteritems _surrogate_type
             false dim trained_cluster cluses model self = Ok self' ->
    (forall k, In k cluses ->
       retrained sm_train dim trained_cluster (model_list self) (model_list self') k) /\
    (forall k, ~ In k cluses ->
       nth_error (model_list self') k = nth_error (model_list self) k).
Proof.
  induction cluses as [|k0 rest IH]; intros model self self' Hnd H;
    cbn [fit_loop] in H.
  - inversion H; subst. split; [intros k []|reflexivity].
  - inversion Hnd as [|? ? Hnot Hnd']; subst.
    destruct (index trained_cluster k0) as [[|row tv]|e] eqn:Eg;
      cbn [rbind] in H; try discriminate.
    destruct (column dim (row :: tv)) as [yt|] eqn:Ec; cbn [rbind] in H;
      try discriminate.
    destruct (index (model_list self) k0) as [m|] eqn:Em; cbn [rbind] in H;
      try discriminate.
    destruct (sm_train m _ yt) as [m'|] eqn:Et; cbn [rbind] in H; try discriminate.
    apply IH in H; [|exact Hnd']. cbn [model_list set_model_list] in H.
    destruct H as [Hin Hout].
    unfold index in Eg, Em.
    destruct (nth_error trained_cluster k0) as [g|] eqn:Eg'; [|discriminate].
    inversion Eg; subst g.
    destruct (nth_error (model_list self) k0) as [m0|] eqn:Em'; [|discriminate].
    inversion Em; subst m0.
    assert (Hk0 : (k0 < length (model_list self))%nat)
      by (apply nth_error_Some; rewrite Em'; discriminate).
    split.
    + intros k [<-|Hk].
      * exists m, m', (row :: tv), yt.
        repeat split; auto; [discriminate|].
        rewrite (Hout k0 Hnot). apply nth_error_list_set_eq. exact Hk0.
      * destruct (Hin k Hk) as (a & a' & g & yg & H1 & H2 & H3 & H4 & H5 & H6).
        exists a, a', g, yg. repeat split; auto.
        rewrite nth_error_list_set_neq in H1; [exact H1|].
        intros E. subst. contradiction.
    + intros k Hk. rewrite Hout by (intros Hi; apply Hk; right; exact Hi).
      apply nth_error_list_set_neq. intros E. apply Hk. left. exact E.
Qed.

(** X23. The final pass ([new_model=False]) asks the clustering provider once
    for the labels and trains, for every cluster, the model already at
    its position on the rows of that cluster: it never searches again,
    and changes neither the number of models nor the number of
    clusters. *)
Theorem fit_without_clustering_refit
  (self self' : MOE SM) (dim : nat) (xt yt ct : matrix) (log log' : list event) :
  _fit_without_clustering sm_new sm_name sm_train sm_predict_values gmm_predict
    iteritems _surrogate_type self dim xt yt ct false log = (Ok self', log') ->
  exists trained_cluster,
    Partitioner.sort_values_by_cluster (np_c_ xt yt)
      (Z.to_nat (number_cluster self))
      (gmm_predict (cluster self) (np_c_ xt ct)) = Ok trained_cluster /\
    log' = log ++ [GmmPredict (np_c_ xt ct)] /\
    number_cluster self' = number_cluster self /\
    length (model_list self') = length (model_list self) /\
    forall k, (k < Z.to_nat (number_cluster self))%nat ->
      retrained sm_train dim trained_cluster (model_list self) (model_list self') k.
Proof.
  intros H.
  pose proof (fit_without_clustering_model_list _ _ sm_new sm_name sm_train
                sm_predict_values gmm_predict iteritems _surrogate_type
                self self' dim xt yt ct false log log' H) as (HN & _ & _ & HL).
  revert H. unfold _fit_without_clustering. cbv [bind lift emit].
  destruct (_check_input_data xt yt ct); [|discriminate].
  destruct (create_multivar_normal_dis _ _ _); [|discriminate].
  cbn [number_cluster cluster set_gauss].
  destruct (Partitioner.sort_values_by_cluster _ _ _) as [tc|]; [|discriminate].
  intros H. inversion H as [[H0 Hl]]. clear H.
  exists tc. split; [reflexivity|]. split; [reflexivity|].
  split; [exact HN|]. split; [exact HL|].
  apply fit_loop_refit in H0; [|apply seq_NoDup].
  destruct H0 as [Hin _]. cbn [model_list set_gauss] in Hin.
  intros k Hk. apply Hin. apply in_seq. lia.
Qed.

End RefitExtras.

Section SearchPassExtras.
Import Np ErrorReport Gate MOE.
Variables SMClass SM : Type.
Variable sm_new : SMClass -> SM.
Variable sm_name : SM -> string.
Variable sm_train : SM -> matrix -> vec -> result SM.
Variable sm_predict_values : SM -> matrix -> vec.
Variable gmm_predict : GMM -> matrix -> list Z.
Variable iteritems : list (string * R) -> list (string * R).
Variable _surrogate_type : list (string * SMClass).

(** The search reads only the dimension and the validation set of the
    instance. *)
Lemma find_best_model_reads (s s' : MOE SM) (group : matrix) :
  dimension s = dimension s' -> test_values s = test_values s' ->
  _find_best_model sm_new sm_name sm_train sm_predict_values iteritems
                   _surrogate_type s group =
  _find_best_model sm_new sm_name sm_train sm_predict_values iteritems
                   _surrogate_type s' group.
Proof.
  intros Hd Ht. unfold _find_best_model.
  assert (G : forall catalog rmses sms,
            find_loop sm_new sm_name sm_train sm_predict_values s group catalog rmses sms =
            find_loop sm_new sm_name sm_train sm_predict_values s' group catalog rmses sms).
  { induction catalog as [|[name cls] catalog IH]; intros rmses sms; [reflexivity|].
    cbn [find_loop]. destruct (excluded name); [apply IH|].
    unfold score_candidate. rewrite Hd, Ht.
    destruct group; [reflexivity|].
    destruct (column (dimension s') _); cbn [rbind]; [|reflexivity].
    destruct (sm_train _ _ _); cbn [rbind]; [|reflexivity].
    destruct (column (dimension s') (test_values s')); cbn [rbind]; [|reflexivity].
    apply IH. }
  rewrite G. reflexivity.
Qed.

Lemma fit_loop_search dim trained_cluster (cluses : list nat) :
  length _surrogate_type <> 1%nat ->
  forall model (self self' : MOE SM),
    fit_loop sm_new sm_name sm_train sm_predict_values iteritems _surrogate_type
             true dim trained_cluster cluses model self = Ok self' ->
    exists news,
      model_list self' = model_list self ++ news /\
      Forall2 (fun k m =>
                 exists group,
                   nth_error trained_cluster k = Some group /\
                   _find_best_model sm_new sm_name sm_train sm_predict_values
                                    iteritems _surrogate_type self group = Ok m)
              cluses news.
Proof.
  intros Hcat. apply Nat.eqb_neq in Hcat.
  induction cluses as [|k rest IH]; intros model self self' H; cbn [fit_loop] in H.
  - inversion H; subst. exists []. rewrite app_nil_r. split; [reflexivity | constructor].
  - rewrite Hcat in H. unfold index in H.
    destruct (nth_error trained_cluster k) as [group|] eqn:Eg; cbn [rbind] in H;
      [|discriminate].
    destruct (_find_best_model _ _ _ _ _ _ self group) as [m|] eqn:Ef;
      cbn [rbind] in H; [|discriminate].
    apply IH in H. destruct H as (news & Hml & HF).
    cbn [model_list set_model_list] in Hml.
    exists (m :: news). split; [rewrite Hml, <- app_assoc; reflexivity|].
    constructor.
    + exists group. auto.
    + eapply Forall2_impl; [|exact HF]. cbv beta.
      intros k' m' (g & Hg & Hb). exists g. split; [exact Hg|].
      rewrite <- Hb. apply find_best_model_reads; reflexivity.
Qed.

(** X22. The first pass ([new_model=True]) with a catalog of another size
    than one asks the clustering provider once for the labels and
    appends, in the order of the clusters, the model that the search
    returns for the rows of each cluster. *)
Theorem fit_without_clustering_search
  (self self' : MOE SM) (dim : nat) (xt yt ct : matrix) (log log' : list event) :
  length _surrogate_type <> 1%nat ->
  _fit_without_clustering sm_new sm_name sm_train sm_predict_values gmm_predict
    iteritems _surrogate_type self dim xt yt ct true log = (Ok self', log') ->
  exists trained_cluster news,
    Partitioner.sort_values_by_cluster (np_c_ xt yt)
      (Z.to_nat (number_cluster self))
      (gmm_predict (cluster self) (np_c_ xt ct)) = Ok trained_cluster /\
    log' = log ++ [GmmPredict (np_c_ xt ct)] /\
    model_list self' = model_list self ++ news /\
    length news = Z.to_nat (number_cluster self) /\
    forall k m, nth_error news k = Some m ->
      exists group,
        nth_error trained_cluster k = Some group /\
        forall s, dimension s = dim -> test_values s = test_values self ->
          _find_best_model sm_new sm_name sm_train sm_predict_values iteritems
                           _surrogate_type s group = Ok m.
Proof.
  intros Hcat. unfold _fit_without_clustering. cbv [bind lift emit].
  destruct (_check_input_data xt yt ct); [|discriminate].
  destruct (create_multivar_normal_dis _ _ _) as [g|]; [|discriminate].
  cbn [number_cluster cluster set_gauss].
  destruct (Partitioner.sort_values_by_cluster _ _ _) as [tc|]; [|discriminate].
  intros H. inversion H as [[H0 Hl]]. clear H.
  apply (fit_loop_search dim tc _ Hcat) in H0.
  destruct H0 as (news & Hml & HF). cbn [model_list set_gauss] in Hml.
  exists tc, news. split; [reflexivity|]. split; [reflexivity|].
  split; [exact Hml|]. split.
  - apply Forall2_length in HF. rewrite length_seq in HF. symmetry. exact HF.
  - intros k m Hk.
    assert (Hlt : (k < length news)%nat) by (apply nth_error_Some; rewrite Hk; discriminate).
    assert (HF' := HF). apply Forall2_length in HF'. rewrite length_seq in HF'.
    clear - HF Hk Hlt HF'.
    assert (G : forall l1 l2 (P : nat -> SM -> Prop) i a b,
              Forall2 P l1 l2 -> nth_error l1 i = Some a -> nth_error l2 i = Some b ->
              P a b).
    { clear. induction l1 as [|a1 l1 IH]; intros l2 P [|i] a b HF Ha Hb;
        inversion HF; subst; simpl in *; try discriminate.
      - inversion Ha; inversion Hb; subst. assumption.
      - eapply IH; eauto. }
    pose proof (G _ _ _ k k m HF) as Hkm.
    destruct Hkm as (group & Hg & Hb); [|exact Hk|].
    { rewrite nth_error_nth' with (d := 0%nat) by (rewrite length_seq; lia).
      rewrite seq_nth by lia. reflexivity. }
    exists group. split; [exact Hg|]. intros s Hd Ht.
    rewrite <- Hb. apply find_best_model_reads; [rewrite Hd; reflexivity | exact Ht].
Qed.

End SearchPassExtras.

(** ** The further properties on the sample instances *)

Section FurtherInstances.
Import Np ErrorReport Gate MOE Nd Recombination.

Lemma cut_list_balanced_witness :
  exists n_list,
    Split.cut_list (seq 0 7) 3 = Some n_list /\
    length n_list = 3%nat /\
    (forall j, (j < 3)%nat ->
       length (nth j n_list []) =
       (length (seq 0 7) / 3 + if (j <? length (seq 0 7) mod 3)%nat then 1 else 0)%nat) /\
    Permutation (concat n_list) (seq 0 7).
Proof. apply (cut_list_balanced (seq 0 7) 3). lia. Defined.

Lemma cut_list_row_position_witness :
  exists n_list,
    Split.cut_list (seq 0 7) 3 = Some n_list /\
    forall i, nth_error (nth (i mod 3) n_list []) (i / 3) = nth_error (seq 0 7) i.
Proof. apply (cut_list_row_position (seq 0 7) 3). lia. Defined.

Lemma sort_values_by_cluster_unlabelled_rows_witness :
  exists groups,
    Partitioner.sort_values_by_cluster (seq 0 5) 2 [0; 1; 0]%Z = Ok groups /\
    Permutation (concat groups) (firstn (length [0; 1; 0]%Z) (seq 0 5)).
Proof.
  apply (sort_values_by_cluster_unlabelled_rows (seq 0 5) 2 [0; 1; 0]%Z).
  - simpl. lia.
  - repeat constructor; lia.
Defined.

Lemma Error_mse_zero_iff_exact_witness :
  exists e,
    Error_init [1; 2] [1; 3] = Ok e /\
    0 <= l_two e /\ 0 <= mse e /\ 0 <= rmse e /\
    (mse e = 0 <-> [1; 2] = [1; 3]) /\
    ([1; 2] = [1; 3] -> l_two e = 0 /\ rmse e = 0 /\ err_abs_max e = 0).
Proof.
  apply (Error_mse_zero_iff_exact [1; 2] [1; 3]); [reflexivity | discriminate].
Defined.

Lemma Error_lof_r_two_witness :
  exists e,
    Error_init [1; 2] [1; 3] = Ok e /\
    (Rabs (var [1; 2]) > / 10 ^ 10 ->
       lof e = Some (100 * mse e / var [1; 2]) /\
       r_two e = Some (1 - mse e / var [1; 2])) /\
    (Rabs (var [1; 2]) <= / 10 ^ 10 -> lof e = None /\ r_two e = None) /\
    (forall l r, lof e = Some l -> r_two e = Some r ->
       0 <= l /\ r <= 1 /\ r = 1 - l / 100 /\ (r = 1 <-> [1; 2] = [1; 3])).
Proof.
  apply (Error_lof_r_two [1; 2] [1; 3]); [reflexivity | discriminate].
Defined.

Lemma Error_err_abs_max_bounds_witness :
  exists e,
    Error_init [1; 2] [1; 3] = Ok e /\
    (forall i t c, nth_error [1; 2] i = Some t -> nth_error [1; 3] i = Some c ->
                   Rabs (t - c) <= err_abs_max e) /\
    0 <= err_abs_max e /\
    err_abs_max e <= l_two e.
Proof.
  apply (Error_err_abs_max_bounds [1; 2] [1; 3]); [reflexivity | discriminate].
Defined.

Lemma Error_l_two_rel_finite_witness :
  exists e,
    Error_init [1; 2] [1; 3] = Ok e /\
    (is_finite (l_two_rel e) = false <-> Forall (fun t => t = 0) [1; 2]) /\
    (Forall (fun t => t = 0) [1; 2] -> Forall (fun c => c = 0) [1; 3] ->
       l_two_rel e = NaN) /\
    (Forall (fun t => t = 0) [1; 2] -> ~ Forall (fun c => c = 0) [1; 3] ->
       l_two_rel e = PInf) /\
    (~ Forall (fun t => t = 0) [1; 2] -> l_two_rel e = Fin (l_two e / norm2 [1; 2])).
Proof.
  apply (Error_l_two_rel_finite [1; 2] [1; 3]); [reflexivity | discriminate].
Defined.

Lemma proba_cluster_one_sample_label_witness :
  exists prob clus m,
    _proba_cluster_one_sample Sample.pdf [3 / 5; 2 / 5] Sample2.two_gauss [1 / 2] [] =
      (Ok (prob, clus), [] ++ pdf_events Sample2.two_gauss [1 / 2]) /\
    length prob = length [3 / 5; 2 / 5] /\
    nth_error prob clus = Some m /\
    (forall p, In p prob -> p <= m) /\
    (forall i p, (i < clus)%nat -> nth_error prob i = Some p -> p < m).
Proof.
  apply (proba_cluster_one_sample_label Sample.pdf [3 / 5; 2 / 5]
           Sample2.two_gauss [1 / 2] []); [reflexivity | discriminate].
Defined.

Lemma proba_cluster_one_sample_range_witness :
  exists prob clus m log',
    _proba_cluster_one_sample Sample.pdf [3 / 5; 2 / 5] Sample2.two_gauss [1 / 2] []
      = (Ok (prob, clus), log') /\
    Forall (fun p => 0 <= p <= 1) prob /\
    nth_error prob clus = Some m /\
    1 <= INR (length [3 / 5; 2 / 5]) * m.
Proof.
  apply (proba_cluster_one_sample_range Sample.pdf [3 / 5; 2 / 5]
           Sample2.two_gauss [1 / 2] []).
  - reflexivity.
  - discriminate.
  - intros g y. unfold Sample.pdf. lra.
  - repeat constructor; lra.
  - unfold gate_values, sum, Sample.pdf. simpl. lra.
Defined.

Lemma derive_proba_cluster_one_sample_sums_to_zero_witness :
  exists derive_prob,
    _derive_proba_cluster_one_sample Sample.pdf Sample.np_linalg_inv
      [3 / 5; 2 / 5] Sample2.two_gauss [1 / 2] [] =
      (Ok derive_prob, [] ++ derive_events Sample2.two_gauss [1 / 2]) /\
    length derive_prob = length [3 / 5; 2 / 5] /\
    Forall (shaped 1) derive_prob /\
    forall i, (i < 1)%nat -> sum (map (coord i) derive_prob) = 0.
Proof.
  apply (derive_proba_cluster_one_sample_sums_to_zero Sample.pdf Sample.np_linalg_inv
           [3 / 5; 2 / 5] Sample2.two_gauss [1 / 2] 1 []).
  - reflexivity.
  - repeat constructor.
  - unfold gate_values, sum, Sample.pdf. simpl. lra.
Defined.

Lemma predict_smooth_output_weighted_mean_witness :
  _predict_smooth_output Sample.sm_predict_values Sample.pdf Sample2.two_clusters
                         (Sample.rows 2) [] =
    (Ok (map (smooth_value Sample.sm_predict_values Sample.pdf
                (model_list Sample2.two_clusters)
                (weights_ (cluster Sample2.two_clusters))
                (gauss Sample2.two_clusters)) (Sample.rows 2)),
     [] ++ concat (map (pdf_events (gauss Sample2.two_clusters)) (Sample.rows 2))) /\
  forall xi lo hi,
    (forall g y, 0 <= Sample.pdf g y) ->
    Forall (fun w => 0 <= w) (weights_ (cluster Sample2.two_clusters)) ->
    sum (gate_values Sample.pdf (weights_ (cluster Sample2.two_clusters))
           (gauss Sample2.two_clusters) xi) <> 0 ->
    (forall m, In m (model_list Sample2.two_clusters) ->
               lo <= local_value Sample.sm_predict_values m xi <= hi) ->
    lo <= smooth_value Sample.sm_predict_values Sample.pdf
            (model_list Sample2.two_clusters)
            (weights_ (cluster Sample2.two_clusters))
            (gauss Sample2.two_clusters) xi
       <= hi.
Proof.
  apply (predict_smooth_output_weighted_mean nat Sample.sm_predict_values Sample.pdf
           Sample2.two_clusters (Sample.rows 2) []).
  - simpl. lia.
  - reflexivity.
  - reflexivity.
  - intros m xi _ _. discriminate.
Defined.

Lemma predict_hard_output_argmax_witness :
  exists ys,
    _predict_hard_output Sample.sm_predict_values Sample.pdf Sample2.two_clusters
                         (Sample.rows 2) [] =
      (Ok ys, [] ++ concat (map (pdf_events (gauss Sample2.two_clusters))
                                (Sample.rows 2))) /\
    Forall2 (fun xi yi =>
               exists c m,
                 first_argmax
                   (gate_probabilities Sample.pdf
                      (weights_ (cluster Sample2.two_clusters))
                      (gauss Sample2.two_clusters) xi) c /\
                 nth_error (model_list Sample2.two_clusters) c = Some m /\
                 yi = local_value Sample.sm_predict_values m xi)
            (Sample.rows 2) ys.
Proof.
  apply (predict_hard_output_argmax nat Sample.sm_predict_values Sample.pdf
           Sample2.two_clusters (Sample.rows 2) []).
  - simpl. lia.
  - reflexivity.
  - reflexivity.
  - intros m xi _ _. discriminate.
Defined.

Lemma find_best_model_no_candidate_witness :
  _find_best_model Sample.sm_new Sample.sm_name Sample.sm_train
                   Sample.sm_predict_values Sample.iteritems
                   [("KRG", 2%nat)]%string Sample.one_cluster [[1; 1]]
  = Raise KeyError.
Proof.
  apply (find_best_model_no_candidate nat nat Sample.sm_new Sample.sm_name
           Sample.sm_train Sample.sm_predict_values Sample.iteritems
           [("KRG", 2%nat)]%string Sample.one_cluster [[1; 1]]).
  - intros d. apply Permutation_refl.
  - reflexivity.
Defined.

Lemma find_best_model_empty_group_witness :
  _find_best_model Sample.sm_new Sample.sm_name Sample.sm_train
                   Sample.sm_predict_values Sample.iteritems
                   [("KRG", 2%nat); ("LS", 0%nat)]%string Sample.one_cluster []
  = Raise IndexError.
Proof.
  apply (find_best_model_empty_group nat nat Sample.sm_new Sample.sm_name
           Sample.sm_train Sample.sm_predict_values Sample.iteritems
           [("KRG", 2%nat); ("LS", 0%nat)]%string Sample.one_cluster).
  simpl. discriminate.
Defined.

Lemma find_best_model_first_minimum_witness :
  exists best r pre post,
    _find_best_model Sample.sm_new Sample.sm_name Sample.sm_train
                     Sample.sm_predict_values Sample.iteritems
                     [("LS", 0%nat); ("QP", 1%nat); ("KRG", 2%nat)]%string
                     Sample.one_cluster [[1; 1]] = Ok best /\
    In (best, r)
       [(0%nat, _rmse [0] (Sample.sm_predict_values 0 [[0]]));
        (1%nat, _rmse [0] (Sample.sm_predict_values 1 [[0]]))] /\
    Sample.iteritems
      (map (fun t => (Sample.sm_name (fst t), snd t))
           [(0%nat, _rmse [0] (Sample.sm_predict_values 0 [[0]]));
            (1%nat, _rmse [0] (Sample.sm_predict_values 1 [[0]]))]) =
      pre ++ (Sample.sm_name best, r) :: post /\
    Forall (fun p => r < snd p) pre /\
    Forall (fun p => r <= snd p) post.
Proof.
  apply (find_best_model_first_minimum nat nat Sample.sm_new Sample.sm_name
           Sample.sm_train Sample.sm_predict_values Sample.iteritems
           [("LS", 0%nat); ("QP", 1%nat); ("KRG", 2%nat)]%string
           Sample.one_cluster [[1; 1]]).
  - intros d. apply Permutation_refl.
  - discriminate.
  - simpl. apply Forall2_cons; [reflexivity|].
    apply Forall2_cons; [reflexivity|]. apply Forall2_nil.
  - simpl. repeat constructor; simpl; intuition discriminate.
Defined.

Lemma fit_loop_empty_cluster_witness :
  exists e,
    fit_loop Sample.sm_new Sample.sm_name Sample.sm_train Sample.sm_predict_values
             Sample.iteritems [("LS", 0%nat); ("QP", 1%nat)]%string
             false 1 [[[1; 1]]; []] [0%nat; 1%nat] None Sample2.two_clusters
    = Raise e.
Proof.
  apply (fit_loop_empty_cluster nat nat Sample.sm_new Sample.sm_name Sample.sm_train
           Sample.sm_predict_values Sample.iteritems
           [("LS", 0%nat); ("QP", 1%nat)]%string
           false 1 [[[1; 1]]; []] [0%nat; 1%nat] Sample2.two_clusters 1).
  - right; left; reflexivity.
  - reflexivity.
Defined.

Lemma fit_without_clustering_refit_witness :
  exists trained_cluster,
    Partitioner.sort_values_by_cluster (np_c_ (Sample.rows 2) (Sample.rows 2))
      (Z.to_nat (number_cluster Sample.one_cluster))
      (Sample.gmm_predict (cluster Sample.one_cluster)
                          (np_c_ (Sample.rows 2) (Sample.rows 2)))
      = Ok trained_cluster /\
    [GmmPredict (np_c_ (Sample.rows 2) (Sample.rows 2))] =
      [] ++ [GmmPredict (np_c_ (Sample.rows 2) (Sample.rows 2))] /\
    number_cluster
      (set_model_list
         (set_gauss Sample.one_cluster 1 [{| g_mean := [0]; g_cov := [[1 * 1]] |}])
         [5%nat])
      = number_cluster Sample.one_cluster /\
    length (model_list
      (set_model_list
         (set_gauss Sample.one_cluster 1 [{| g_mean := [0]; g_cov := [[1 * 1]] |}])
         [5%nat]))
      = length (model_list Sample.one_cluster) /\
    forall k, (k < Z.to_nat (number_cluster Sample.one_cluster))%nat ->
      Refit.retrained Sample.sm_train 1 trained_cluster
        (model_list Sample.one_cluster)
        (model_list
           (set_model_list
              (set_gauss Sample.one_cluster 1 [{| g_mean := [0]; g_cov := [[1 * 1]] |}])
              [5%nat])) k.
Proof.
  apply (fit_without_clustering_refit nat nat Sample.sm_new Sample.sm_name
           Sample.sm_train Sample.sm_predict_values Sample.gmm_predict
           Sample.iteritems [("LS", 0%nat); ("QP", 1%nat)]%string
           Sample.one_cluster _ 1 (Sample.rows 2) (Sample.rows 2) (Sample.rows 2)
           [] [GmmPredict (np_c_ (Sample.rows 2) (Sample.rows 2))]).
  reflexivity.
Defined.

Lemma fit_without_clustering_search_witness :
  exists trained_cluster news,
    Partitioner.sort_values_by_cluster (np_c_ (Sample.rows 2) (Sample.rows 2))
      (Z.to_nat (number_cluster Sample.one_cluster))
      (Sample.gmm_predict (cluster Sample.one_cluster)
                          (np_c_ (Sample.rows 2) (Sample.rows 2)))
      = Ok trained_cluster /\
    [GmmPredict (np_c_ (Sample.rows 2) (Sample.rows 2))] =
      [] ++ [GmmPredict (np_c_ (Sample.rows 2) (Sample.rows 2))] /\
    model_list
      (set_model_list
         (set_gauss Sample.one_cluster 1 [{| g_mean := [0]; g_cov := [[1 * 1]] |}])
         [5%nat; 0%nat])
      = model_list Sample.one_cluster ++ news /\
    length news = Z.to_nat (number_cluster Sample.one_cluster) /\
    forall k m, nth_error news k = Some m ->
      exists group,
        nth_error trained_cluster k = Some group /\
        forall s, dimension s = 1%nat ->
                  test_values s = test_values Sample.one_cluster ->
          _find_best_model Sample.sm_new Sample.sm_name Sample.sm_train
                           Sample.sm_predict_values Sample.iteritems
                           [("LS", 0%nat); ("KRG", 2%nat)]%string s group = Ok m.
Proof.
  apply (fit_without_clustering_search nat nat Sample.sm_new Sample.sm_name
           Sample.sm_train Sample.sm_predict_values Sample.gmm_predict
           Sample.iteritems [("LS", 0%nat); ("KRG", 2%nat)]%string
           Sample.one_cluster _ 1 (Sample.rows 2) (Sample.rows 2) (Sample.rows 2)
           [] [GmmPredict (np_c_ (Sample.rows 2) (Sample.rows 2))]).
  - simpl. lia.
  - reflexivity.
Defined.

Lemma apply_trained_invariants_witness :
  exists self log',
    Sample.train [("LS", 0%nat); ("QP", 1%nat)]%string (Sample.options 2 1)
      = (Ok self, log') /\
    length (model_list self) = Z.to_nat (number_cluster self) /\
    hard self = opt_hard_recombination (Sample.options 2 1) /\
    (opt_number_cluster (Sample.options 2 1) <> 0%Z ->
     number_cluster self = opt_number_cluster (Sample.options 2 1)) /\
    exists x, opt_X (Sample.options 2 1) = Some x /\
              (number_cluster self <= Z.of_nat (length x / 10) + 1)%Z.
Proof.
  destruct train_two_candidates_succeeds as (self & log' & H & _).
  exists self, log'. split; [exact H|].
  exact (apply_trained_invariants nat nat Sample.sm_new Sample.sm_name
           Sample.sm_train Sample.sm_predict_values Sample.gmm_fit
           Sample.gmm_predict Sample.pdf Sample.iteritems
           Sample._default_number_cluster [("LS", 0%nat); ("QP", 1%nat)]%string
           (Sample.options 2 1) self [] log' H).
Defined.

Lemma rmse_zero_iff_equal_witness :
  0 <= _rmse [1; 2] [1; 3] /\
  (_rmse [1; 2] [1; 3] = 0 <-> [1; 2] = [1; 3]) /\
  _rmse [1; 2] [1; 3] = _rmse [1; 3] [1; 2].
Proof.
  apply (rmse_zero_iff_equal [1; 2] [1; 3]); [reflexivity | discriminate].
Defined.

Lemma predict_values_app_witness :
  predict_values Sample.sm_predict_values Sample.pdf Sample.one_cluster
                 (Sample.rows 1 ++ Sample.rows 2) []
    = (Ok ([INR 5] ++ [INR 5; INR 5]), []) /\
  length [INR 5] = length (Sample.rows 1) /\
  length [INR 5; INR 5] = length (Sample.rows 2).
Proof.
  apply (predict_values_app Sample.pdf nat Sample.sm_predict_values
           Sample.one_cluster (Sample.rows 1) (Sample.rows 2)
           [INR 5] [INR 5; INR 5] [] [] []); reflexivity.
Defined.

End FurtherInstances.
